(** * find3 (MySQL fork): the per-family store and the reverse aggregator

    A shallow embedding of

    - [server/main/src/database/db.go]: [Columns], [Get], [Set],
      [AddPrediction], [GetPrediction], [AddSensor], [SetGPS], [Open],
      [Close], the readers [getRows], [GetAllFromPreparedQuery],
      [GetSensorFromTime], [GetLatest] and [GetMany], and [GetID],
      [GetName] and [DeleteLocation];
    - the [api] package file holding [SaveSensorData] and [SavePrediction];
    - the [server] package file holding [handlerReverse],
      [parseRollingData], [processSensorData], [sendOutData],
      [handlerLearn] and [handlerEfficacy].

    Go maps are [gmap]s; the order in which [range] walks a map is left
    open (class [RangeOrder]).  [float64] is the kernel's binary64.  The
    MySQL server is an explicit state ([Env]) threaded through every call,
    together with a schedule of driver faults, so that every [err != nil]
    branch of the source is reachable in the model.  Run-time panics of
    the server code are outcomes of their own ([Panicked]). *)

From Stdlib Require Import ZArith Lia.
From Stdlib Require Import Floats.PrimFloat Floats.SpecFloat Floats.FloatOps.
From stdpp Require Import gmap strings list fin_maps pretty.

Set Warnings "-inexact-float".
Local Open Scope Z_scope.

(** ** Go run-time notions shared by all packages *)

(** [float64]. *)
Abbreviation float64 := PrimFloat.float.

(** [int64(f)] for a [float64]: truncation toward zero.  For NaN, the
    infinities and values outside the int64 range the Go specification
    leaves the result to the implementation; amd64 (CVTTSD2SQ) yields the
    "integer indefinite" value [-2^63], which is what is modelled. *)
Definition int64_of_float64 (f : float64) : Z :=
  match Prim2SF f with
  | S754_zero _ => 0
  | S754_finite s m e =>
      let a := if 0 <=? e then Z.pos m * 2 ^ e else Z.pos m / 2 ^ (- e) in
      let v := if s then - a else a in
      if (- 2 ^ 63 <=? v) && (v <? 2 ^ 63) then v else - 2 ^ 63
  | _ => - 2 ^ 63
  end.

(** [float64(k)] for an [int64]: the nearest binary64, ties to even. *)
Definition float64_of_int64 (k : Z) : float64 :=
  SF2Prim (binary_normalize prec emax k 0 false).

(** A [float64] that [encoding/json] can marshal. *)
Definition float64_finite (f : float64) : bool :=
  negb (PrimFloat.is_nan f || PrimFloat.is_infinity f).

(** [interface{}] as produced by [encoding/json] for a scalar. *)
Inductive iface :=
| INum (f : float64)
| IStr (s : string)
| IBool (b : bool)
| INil.

(** The order in which a [for k, v := range m] statement visits a Go map
    is unspecified.  Every function of the model that ranges over a map
    takes the order as a parameter; the only thing known about it is that
    it enumerates the map. *)
Class RangeOrder := {
  range : ∀ {V : Type}, gmap string V → list (string * V);
  range_perm : ∀ {V : Type} (m : gmap string V), range m ≡ₚ map_to_list m
}.

(** The observations [(category, key, value)] of a two-level map in the
    order in which two nested [range] loops visit them. *)
Definition observations `{RangeOrder} {V} (m : gmap string (gmap string V))
    : list (string * string * V) :=
  flat_map (λ '(c, inner), (λ '(k, v), (c, k, v)) <$> range inner) (range m).

(** One admissible order, used to run the model on concrete inputs. *)
Definition canonical_order : RangeOrder :=
  {| range := λ V m, map_to_list m;
     range_perm := λ V m, reflexivity (map_to_list m) |}.

(** [error]: the message is all that the code ever observes. *)
Inductive error := mkError (msg : string).

Definition Error (e : error) : string := let 'mkError m := e in m.

(** [errors.New] and [errors.Wrap] of github.com/pkg/errors. *)
Definition errors_New (msg : string) : error := mkError msg.
Definition errors_Wrap (e : error) (msg : string) : error :=
  mkError (msg +:+ ": " +:+ Error e).

(** [strings.ToLower] and [strings.TrimSpace], on ASCII text. *)
Definition lower (c : Ascii.ascii) : Ascii.ascii :=
  let n := Ascii.nat_of_ascii c in
  if (65 <=? n)%nat && (n <=? 90)%nat then Ascii.ascii_of_nat (n + 32) else c.

Fixpoint ToLower (s : string) : string :=
  match s with
  | EmptyString => EmptyString
  | String c s' => String (lower c) (ToLower s')
  end.

Fixpoint trim_left (s : string) : string :=
  match s with
  | String c s' => if Ascii.is_space c then trim_left s' else s
  | EmptyString => EmptyString
  end.

Definition TrimSpace (s : string) : string :=
  String.rev (trim_left (String.rev (trim_left s))).

(** ** Package [models]

    The struct declarations of this package are not part of the sources
    at hand; the fields are those the code reads and writes, with the
    meaning the specification gives them. *)

(** Modelled from the spec: [models.GPS], whose declaration is missing. *)
Record GPS := mkGPS {
  Latitude : float64;
  Longitude : float64;
  Altitude : float64
}.

(** The zero value of [models.GPS]. *)
Definition GPS_zero : GPS := mkGPS 0 0 0.

(** Modelled from the spec: [models.SensorData], whose declaration is
    missing.  [Timestamp] is in milliseconds. *)
Record SensorData := mkSensorData {
  sd_Timestamp : Z;
  sd_Family : string;
  sd_Device : string;
  sd_Location : string;
  sd_GPS : GPS;
  sd_Sensors : gmap string (gmap string iface)
}.

(** Modelled from the spec: [models.LocationPrediction], whose
    declaration is missing. *)
Record LocationPrediction := mkLocationPrediction {
  lp_Location : string;
  lp_Probability : float64
}.

(** Modelled from the spec: [models.LocationAnalysis], whose declaration
    is missing; only [Guesses] is used here. *)
Record LocationAnalysis := mkLocationAnalysis {
  Guesses : list LocationPrediction
}.

(** Modelled from the spec: [models.ReverseRollingData], whose
    declaration is missing.  [rd_Timestamp] is a [time.Time] and
    [rd_TimeBlock] a [time.Duration], both counted in nanoseconds. *)
Record ReverseRollingData := mkReverseRollingData {
  rd_HasData : bool;
  rd_Family : string;
  rd_Datas : list SensorData;
  rd_Timestamp : Z;
  rd_TimeBlock : Z;
  rd_MinimumPassive : Z;
  rd_DeviceLocation : gmap string string;
  rd_DeviceGPS : gmap string GPS
}.

(** [time.Second] and [time.Millisecond] as durations. *)
Definition time_Second : Z := 1000000000.
Definition time_Millisecond : Z := 1000000.

(** ** The key compressor (github.com/schollz/stringsizer) *)
Module stringsizer.

(** Modelled from the spec: the third-party compressor is not part of
    the sources.  Its state is the ordered dictionary of the keys seen
    so far. *)
Record StringSizer := mkSizer { dict : list string }.

(** Modelled from the spec: the next token to hand out; a key's token
    is its position in the dictionary. *)
Definition Current (ss : StringSizer) : nat := length (dict ss).

Fixpoint index_of (k : string) (l : list string) : option nat :=
  match l with
  | [] => None
  | k' :: l' => if decide (k = k') then Some 0%nat else S <$> index_of k l'
  end.

(** Modelled from the spec: a key seen before reuses its token, a new
    key is appended to the dictionary and gets the next token. *)
Definition shrink_key (ss : StringSizer) (k : string) : nat * StringSizer :=
  match index_of k (dict ss) with
  | Some i => (i, ss)
  | None => (Current ss, mkSizer (dict ss ++ [k]))
  end.

(** Modelled from the spec: a Go string that may hold a saved
    dictionary; the string [Save] returns stands for the state it
    encodes. *)
Inductive text :=
| Plain (s : string)
| Saved (ss : StringSizer).

Definition Save (ss : StringSizer) : text := Saved ss.

(** Modelled from the spec: [New(saved)] restores the state and fails
    on a string that is no saved dictionary. *)
Definition New (saved : text) : error + StringSizer :=
  match saved with
  | Saved ss => inr ss
  | Plain _ => inl (errors_New "stringsizer: cannot parse the saved dictionary")
  end.

(** The text of an encoded map. *)
Definition encoded := list (nat * iface).

(** Modelled from the spec: a map is encoded as its [token=value]
    pairs, in the order in which it is ranged over. *)
Definition ShrinkMapToString `{RangeOrder} (ss : StringSizer)
    (m : gmap string iface) : encoded * StringSizer :=
  foldl (λ '(out, ss) '(k, v),
           let '(tok, ss') := shrink_key ss k in (out ++ [(tok, v)], ss'))
        ([], ss) (range m).

End stringsizer.

(** ** Package [database] *)
Module database.
Import stringsizer.

(** *** The MySQL server *)

(** A text stored in [keystore.value].  A JSON text is modelled by the
    value it encodes: a JSON string or the JSON object of a
    [ReverseRollingData]. *)
Inductive jsonval :=
| JString (s : text)
| JRolling (r : ReverseRollingData).

(** A row of [sensors] without its key: the two id columns and the
    encoded cell of each further column that holds one. *)
Record SensorRow := mkSensorRow {
  deviceid : string;
  locationid : string;
  cells : gmap string encoded
}.

(** A row of [gps] without its serial id. *)
Record GPSRow := mkGPSRow {
  g_timestamp : Z;
  g_mac : string;
  g_loc : string;
  g_lat : float64;
  g_lon : float64;
  g_alt : float64
}.

(** The tables of one database [find3_<family>]. *)
Record Tables := mkTables {
  keystore : gmap string jsonval;
  sensors_columns : list string;
  sensors : gmap Z SensorRow;
  location_predictions : gmap Z (list LocationPrediction);
  gps : list GPSRow
}.

(** A transaction that was begun: its database and the rows written
    inside it so far. *)
Record Tx := mkTx {
  tx_database : string;
  tx_pending : list GPSRow
}.

(** Everything outside the handle: the databases of the server by name,
    the transactions that are open (begun, neither committed nor rolled
    back), the package variable [databaseLock.Locked], and the outcome
    of the coming driver calls ([true]: the call fails). *)
Record Env := mkEnv {
  mysql : gmap string Tables;
  open_txs : gmap nat Tx;
  tx_count : nat;
  Locked : gmap string bool;
  faults : list bool
}.

Definition set_mysql (f : gmap string Tables → gmap string Tables) (e : Env) : Env :=
  mkEnv (f (mysql e)) (open_txs e) (tx_count e) (Locked e) (faults e).
Definition set_open_txs (f : gmap nat Tx → gmap nat Tx) (e : Env) : Env :=
  mkEnv (mysql e) (f (open_txs e)) (tx_count e) (Locked e) (faults e).
Definition set_tx_count (n : nat) (e : Env) : Env :=
  mkEnv (mysql e) (open_txs e) n (Locked e) (faults e).
Definition set_Locked (f : gmap string bool → gmap string bool) (e : Env) : Env :=
  mkEnv (mysql e) (open_txs e) (tx_count e) (f (Locked e)) (faults e).
Definition set_faults (fs : list bool) (e : Env) : Env :=
  mkEnv (mysql e) (open_txs e) (tx_count e) (Locked e) fs.

Definition set_keystore (f : gmap string jsonval → gmap string jsonval) (t : Tables) : Tables :=
  mkTables (f (keystore t)) (sensors_columns t) (sensors t) (location_predictions t) (gps t).
Definition set_sensors (f : gmap Z SensorRow → gmap Z SensorRow) (t : Tables) : Tables :=
  mkTables (keystore t) (sensors_columns t) (f (sensors t)) (location_predictions t) (gps t).
Definition set_location_predictions
    (f : gmap Z (list LocationPrediction) → gmap Z (list LocationPrediction)) (t : Tables) : Tables :=
  mkTables (keystore t) (sensors_columns t) (sensors t) (f (location_predictions t)) (gps t).
Definition set_gps (f : list GPSRow → list GPSRow) (t : Tables) : Tables :=
  mkTables (keystore t) (sensors_columns t) (sensors t) (location_predictions t) (f (gps t)).

(** *** The handle *)

(** Modelled from the spec: [type Database struct], whose declaration
    is missing; the fields are those the methods use.  [db_closed] is
    the state of the [*sql.DB] the handle owns (the field [db]). *)
Record Database := mkDatabase {
  name : string;
  family : string;
  db_closed : bool;
  isClosed : bool
}.

(** *** Calls that return [(value, error)] and act on the server *)

Definition M (A : Type) : Type := Env → (error + A) * Env.

Definition ret {A} (a : A) : M A := λ env, (inr a, env).
Definition fail {A} (e : error) : M A := λ env, (inl e, env).
Definition bind {A B} (m : M A) (k : A → M B) : M B :=
  λ env, match m env with
         | (inl e, env') => (inl e, env')
         | (inr a, env') => k a env'
         end.

Declare Scope go_scope.
Delimit Scope go_scope with go.
Notation "x <- m ;; k" := (bind m (λ x, k))
  (at level 100, m at next level, right associativity) : go_scope.
Notation "m ;; k" := (bind m (λ _, k))
  (at level 100, right associativity) : go_scope.
Local Open Scope go_scope.

(** [if err != nil { return errors.Wrap(err, msg) }]. *)
Definition wrap {A} (msg : string) (m : M A) : M A :=
  λ env, match m env with
         | (inl e, env') => (inl (errors_Wrap e msg), env')
         | r => r
         end.

(** [for _, a := range l { if err = f(a); err != nil { return } }]. *)
Fixpoint forM {A} (f : A → M unit) (l : list A) : M unit :=
  match l with
  | [] => ret tt
  | a :: l' => f a ;; forM f l'
  end.

(** One call into [database/sql] through the handle (a [Prepare],
    [Query], [Exec], [Scan], [Begin] or [Commit]).  It fails on a
    closed [*sql.DB], when the fault schedule says so, and when the
    server has no database of the handle's name; otherwise it gives
    access to the tables. *)
Definition sql_call (d : Database) : M Tables :=
  λ env,
    if db_closed d then (inl (errors_New "sql: database is closed"), env)
    else match faults env with
         | true :: fs => (inl (errors_New "driver: bad connection"), set_faults fs env)
         | fs =>
             let env' := set_faults (tail fs) env in
             match mysql env' !! name d with
             | None => (inl (errors_New "Error 1049: Unknown database"), env')
             | Some t => (inr t, env')
             end
         end.

(** The write half of a successful [Exec]. *)
Definition update_tables (d : Database) (f : Tables → Tables) : M unit :=
  λ env, (inr tt, set_mysql (alter f (name d)) env).

(** *** The keystore *)

(** [json.Unmarshal] into a [*string] and into a
    [*models.ReverseRollingData]. *)
Definition into_string (v : jsonval) : error + text :=
  match v with
  | JString s => inr s
  | JRolling _ =>
      inl (errors_New "json: cannot unmarshal object into Go value of type string")
  end.

Definition into_ReverseRollingData (v : jsonval) : error + ReverseRollingData :=
  match v with
  | JRolling r => inr r
  | JString _ =>
      inl (errors_New "json: cannot unmarshal string into Go value of type models.ReverseRollingData")
  end.

Definition lift {A} (r : error + A) : M A := λ env, (r, env).

(** [Columns] lists the columns of [sensors]. *)
Definition Columns (d : Database) : M (list string) :=
  t <- wrap "Columns" (sql_call d) ;;            (* d.db.Query *)
  ret (sensors_columns t).                        (* rows.Columns() *)

(** [Get] retrieves the value associated with a key; [unmarshal] is
    [json.Unmarshal] at the type of the destination [v]. *)
Definition Get {A} (d : Database) (key : string) (unmarshal : jsonval → error + A) : M A :=
  _ <- wrap "problem preparing SQL" (sql_call d) ;;
  t <- wrap "problem getting key" (sql_call d) ;;       (* QueryRow(key).Scan *)
  match keystore t !! key with
  | None =>
      fail (errors_Wrap (errors_New "sql: no rows in result set") "problem getting key")
  | Some result => lift (unmarshal result)
  end.

(** [Set] stores a value under a key, replacing what was there
    ([on duplicate key update]).  [value] is the marshalled text. *)
Definition Set_ (d : Database) (key : string) (value : jsonval) : M unit :=
  _ <- wrap "Set" (sql_call d) ;;                 (* Prepare *)
  _ <- wrap "Set" (sql_call d) ;;                 (* Exec *)
  update_tables d (set_keystore <[key := value]>).

(** *** Predictions *)

(** [float64(int64(float64(p)*100)) / 100]. *)
Definition truncate2 (p : float64) : float64 :=
  PrimFloat.div (float64_of_int64 (int64_of_float64 (PrimFloat.mul p 100))) 100.

Definition truncate_prediction (p : LocationPrediction) : LocationPrediction :=
  mkLocationPrediction (lp_Location p) (truncate2 (lp_Probability p)).

(** [AddPrediction] inserts or updates a prediction.  The slice is
    truncated in place; the result is its content after the call. *)
Definition AddPrediction (d : Database) (timestamp : Z)
    (aidata : list LocationPrediction) : M (list LocationPrediction) :=
  if decide (length aidata = 0%nat) then fail (errors_New "no predictions to add")
  else
    let aidata := truncate_prediction <$> aidata in
    (* json.Marshal(aidata): every probability is finite by now *)
    _ <- wrap "stmt AddPrediction" (sql_call d) ;;
    _ <- wrap "exec AddPrediction" (sql_call d) ;;
    update_tables d (set_location_predictions <[timestamp := aidata]>) ;;
    ret aidata.

(** *** Sensor rows *)

(** [d.db.Prepare] of an [insert into sensors(...)]: the server
    rejects a statement that names a column the table does not have. *)
Definition prepare_insert_sensors (d : Database) (named : list string) : M unit :=
  t <- sql_call d ;;
  if forallb (λ c, bool_decide (c ∈ sensors_columns t)) named then ret tt
  else fail (errors_New "Error 1054: Unknown column in field list").

(** [stmt.Exec] of the plain [insert]: a second row with the same
    primary key is refused. *)
Definition exec_insert_sensors (d : Database) (timestamp : Z) (row : SensorRow) : M unit :=
  t <- sql_call d ;;
  match sensors t !! timestamp with
  | Some _ => fail (errors_New "Error 1062: Duplicate entry for key PRIMARY")
  | None => update_tables d (set_sensors <[timestamp := row]>)
  end.

(** [AddSensor] inserts a sensor data into the database. *)
Definition AddSensor `{RangeOrder} (d : Database) (s : SensorData) : M unit :=
  (* determine the current table columns *)
  columnList <- Columns d ;;
  let oldColumns : gset string := list_to_set columnList in
  (* get string sizer *)
  sensorDataStringSizerString <- Get d "sensorDataStringSizer" into_string ;;
  sensorDataSS <- lift (New sensorDataStringSizerString) ;;
  let previousCurrent := Current sensorDataSS in
  let '(bluetooth, sensorDataSS) :=
    ShrinkMapToString sensorDataSS (default ∅ (sd_Sensors s !! "bluetooth")) in
  let sqlStatement :=
    "insert into sensors(timestamp,deviceid,locationid,bluetooth) values (?,?,?,?)" in
  wrap ("AddSensor, prepare " +:+ sqlStatement)
    (prepare_insert_sensors d ["timestamp"; "deviceid"; "locationid"; "bluetooth"]) ;;
  wrap "AddSensor, execute"
    (exec_insert_sensors d (sd_Timestamp s)
       (mkSensorRow (sd_Device s) (sd_Location s) {[ "bluetooth" := bluetooth ]})) ;;
  (* update the map key slimmer *)
  if decide (previousCurrent ≠ Current sensorDataSS)
  then Set_ d "sensorDataStringSizer" (JString (Save sensorDataSS))
  else ret tt.

(** *** GPS rows *)

(** [d.db.Begin()]. *)
Definition Begin (d : Database) : M nat :=
  _ <- sql_call d ;;
  λ env, let tx := tx_count env in
         (inr tx, set_tx_count (S tx) (set_open_txs <[tx := mkTx (name d) []]> env)).

(** [stmt.Exec] of the insert prepared in the transaction.  The key of
    [gps] is its serial id, which the statement does not supply, so the
    row is a new one; it stays pending until the commit. *)
Definition tx_Exec (d : Database) (tx : nat) (row : GPSRow) : M unit :=
  _ <- sql_call d ;;
  λ env, (inr tt, set_open_txs (alter (λ x, mkTx (tx_database x) (tx_pending x ++ [row])) tx) env).

(** [tx.Commit()].  Whether it succeeds or not the transaction is over;
    its rows reach the table only if it succeeds. *)
Definition Commit (d : Database) (tx : nat) : M unit :=
  λ env,
    match sql_call d env with
    | (inl e, env') => (inl e, set_open_txs (delete tx) env')
    | (inr _, env') =>
        match open_txs env' !! tx with
        | None => (inl (errors_New "sql: transaction has already been committed or rolled back"), env')
        | Some x =>
            (inr tt, set_open_txs (delete tx)
                       (set_mysql (alter (set_gps (λ rows, rows ++ tx_pending x)) (tx_database x)) env'))
        end
    end.

(** [tx.Prepare(statement)]: the server parses the statement.  MySQL
    has [insert into], [insert ... on duplicate key update] and
    [replace into]; [insert or replace into] is SQLite's, and the server
    refuses it with a syntax error. *)
Definition mysql_parses (statement : string) : bool :=
  negb (String.prefix "insert or replace " statement).

Definition tx_Prepare (d : Database) (statement : string) : M unit :=
  _ <- sql_call d ;;
  if mysql_parses statement then ret tt
  else fail (errors_New "Error 1064: You have an error in your SQL syntax").

Definition gps_row (p : SensorData) (sensorType mac : string) : GPSRow :=
  mkGPSRow (sd_Timestamp p) (sensorType +:+ "-" +:+ mac) (sd_Location p)
           (Latitude (sd_GPS p)) (Longitude (sd_GPS p)) (Altitude (sd_GPS p)).

(** [SetGPS] sets a GPS value in the GPS database. *)
Definition SetGPS `{RangeOrder} (d : Database) (p : SensorData) : M unit :=
  tx <- wrap "SetGPS" (Begin d) ;;
  _ <- wrap "SetGPS"
         (tx_Prepare d
            "insert or replace into gps(timestamp ,mac, loc, lat, lon, alt) values (?, ?, ?, ?, ?,?)") ;;
  forM (λ '(sensorType, macs),
          forM (λ '(mac, _), wrap "SetGPS" (tx_Exec d tx (gps_row p sensorType mac)))
               (range macs))
       (range (sd_Sensors p)) ;;
  wrap "SetGPS" (Commit d tx).

(** *** Opening and closing *)

(** [Open]: [sql.Open] validates its arguments and connects to nothing,
    so no error arises here; the lock that the comment of the source
    announces is never taken. *)
Definition Open (family_ : string) : Database :=
  let f := ToLower (TrimSpace family_) in
  mkDatabase ("find3_" +:+ f) f false false.

(** [Close] of [database/sql]: closes the pool (a closed one stays closed and
    reports nothing); closing a connection may fail. *)
Definition sql_Close (d : Database) (env : Env) : option error * Env :=
  if db_closed d then (None, env)
  else match faults env with
       | true :: fs => (Some (errors_New "driver: bad connection"), set_faults fs env)
       | fs => (None, set_faults (tail fs) env)
       end.

(** [Close] closes the database connection and removes the lock entry.
    The handle is a pointer in the source: the handle after the call is
    part of the result. *)
Definition Close (d : Database) (env : Env) : option error * Database * Env :=
  if isClosed d then (None, d, env)
  else
    (* close database *)
    let '(err2, env) := sql_Close d env in
    (* close filelock *)
    let env := set_Locked (delete (name d)) env in
    (err2, mkDatabase (name d) (family d) true true, env).

End database.

(** ** Package [models]: validation *)

(** The number of observations of a fingerprint: the sum of the sizes of
    its inner maps, as the loops of the source compute it. *)
Definition numFingerprints `{RangeOrder} (sensors : gmap string (gmap string iface)) : Z :=
  foldl (λ n '(_, inner), n + Z.of_nat (size inner)) 0 (range sensors).

(** Modelled from the spec: [SensorData.Validate] is not part of the
    sources.  A fingerprint is valid when its family is not empty after
    normalization, at least one inner map is not empty, and its timestamp
    is positive. *)
Definition Validate `{RangeOrder} (s : SensorData) : option error :=
  if decide (TrimSpace (ToLower (sd_Family s)) = "") then
    Some (errors_New "family cannot be empty")
  else if numFingerprints (sd_Sensors s) =? 0 then
    Some (errors_New "sensor data cannot be empty")
  else if sd_Timestamp s <=? 0 then
    Some (errors_New "timestamp is not valid")
  else None.

(** ** Package [api] *)
Module api.
Import database.
Local Open Scope go_scope.

(** [SaveSensorData] adds sensor data to the database.  The handle is
    opened for the family of the data and closed on return; the error of
    [SetGPS] is dropped. *)
Definition SaveSensorData `{RangeOrder} (s : SensorData) (env : Env) : option error * Env :=
  match Validate s with
  | Some err => (Some (errors_Wrap err "problem validating data"), env)
  | None =>
      let db := Open (sd_Family s) in
      let '(r, env) := AddSensor db s env in
      let err := match r with inl e => Some e | inr _ => None end in
      let env :=
        if negb (PrimFloat.eqb (Longitude (sd_GPS s)) 0)
           && negb (PrimFloat.eqb (Latitude (sd_GPS s)) 0)
        then snd (SetGPS db s env) else env in
      let '(_, _, env) := Close db env in         (* defer db.Close() *)
      (err, env)
  end.

(** [SavePrediction] adds the prediction of a fingerprint. *)
Definition SavePrediction (s : SensorData) (p : LocationAnalysis) (env : Env) : option error * Env :=
  let db := Open (sd_Family s) in
  let '(r, env) := AddPrediction db (sd_Timestamp s) (Guesses p) env in
  let err := match r with inl e => Some e | inr _ => None end in
  let '(_, _, env) := Close db env in             (* defer db.Close() *)
  (err, env).

End api.

(** ** Package [server] *)
Module server.
Import database.

(** *** Collaborators *)

(** [api.SaveSensorData(p, db)]: the two-argument function the server
    calls is not part of the sources; all that is used of it is that it
    acts on the store and reports an error or none. *)
Class Store := {
  api_SaveSensorData : SensorData → Database → Env → option error * Env
}.

(** What [api.GetGPSData] holds for a location. *)
Record LocationGPS := mkLocationGPS { lg_GPS : GPS }.

(** The classifier: [api.AnalyzeSensorData(p, db)] and
    [api.GetGPSData(family)], neither part of the sources. *)
Class Classifier := {
  api_AnalyzeSensorData : SensorData → Database → Env → LocationAnalysis * option error;
  api_GetGPSData : string → Env → gmap string LocationGPS * option error
}.

(** Modelled from the spec: the two-argument [api.SaveSensorData(p, db)]
    is missing from the sources.  This store does what the spec says of
    the ingest, and what the one-argument function of the [api] file
    does, through the handle it is given: it validates, calls
    [AddSensor], and calls [SetGPS] if the position is not zero.  It is
    used to run the server on concrete inputs only. *)
Definition given_handle_store `{RangeOrder} : Store :=
  {| api_SaveSensorData := λ p db env,
       match Validate p with
       | Some err => (Some (errors_Wrap err "problem validating data"), env)
       | None =>
           let '(r, env) := AddSensor db p env in
           let err := match r with inl e => Some e | inr _ => None end in
           let env :=
             if negb (PrimFloat.eqb (Longitude (sd_GPS p)) 0)
                && negb (PrimFloat.eqb (Latitude (sd_GPS p)) 0)
             then snd (SetGPS db p env) else env in
           (err, env)
       end |}.

(** *** The process *)

(** The JSON document handed to the sinks. *)
Record Payload := mkPayload {
  pl_Sensors : SensorData;
  pl_Guesses : list LocationPrediction;
  pl_Location : string;
  pl_Time : Z
}.

(** What the server does to the outside, in order: calls of the store,
    goroutines started, messages handed to the sinks. *)
Inductive event :=
| SaveCalled (p : SensorData)
| Go_sendOutData (p : SensorData)
| Go_parseRollingData (family_ : string)
| Websocket (family_ device : string) (bTarget : Payload)
| MQTT (family_ device : string) (bTarget : Payload).

(** The state of the process: the MySQL server, the package variables
    [db] and [UseMQTT], the clock ([time.Now()] in nanoseconds, which
    only [time.Sleep] advances here) and the events so far. *)
Record World := mkWorld {
  env : Env;
  db : Database;
  UseMQTT : bool;
  clock : Z;
  trace : list event
}.

Definition set_env (e : Env) (w : World) : World :=
  mkWorld e (db w) (UseMQTT w) (clock w) (trace w).
Definition set_db (d : Database) (w : World) : World :=
  mkWorld (env w) d (UseMQTT w) (clock w) (trace w).
Definition set_clock (t : Z) (w : World) : World :=
  mkWorld (env w) (db w) (UseMQTT w) t (trace w).
Definition emit (ev : event) (w : World) : World :=
  mkWorld (env w) (db w) (UseMQTT w) (clock w) (trace w ++ [ev]).

(** A call returns or panics. *)
Inductive outcome (A : Type) :=
| Returned (a : A)
| Panicked (msg : string).
Arguments Returned {A} a.
Arguments Panicked {A} msg.

Definition S (A : Type) : Type := World → outcome A * World.

Definition ret {A} (a : A) : S A := λ w, (Returned a, w).
Definition panic {A} (msg : string) : S A := λ w, (Panicked msg, w).
Definition bind {A B} (m : S A) (k : A → S B) : S B :=
  λ w, match m w with
       | (Returned a, w') => k a w'
       | (Panicked msg, w') => (Panicked msg, w')
       end.

Declare Scope srv_scope.
Delimit Scope srv_scope with srv.
Notation "x <- m ;; k" := (bind m (λ x, k))
  (at level 100, m at next level, right associativity) : srv_scope.
Notation "m ;; k" := (bind m (λ _, k))
  (at level 100, right associativity) : srv_scope.
Local Open Scope srv_scope.

(** [for _, a := range l { acc = f(a, acc) }]. *)
Fixpoint foldS {A B} (f : A → B → S B) (l : list A) (acc : B) : S B :=
  match l with
  | [] => ret acc
  | a :: l' => acc' <- f a acc ;; foldS f l' acc'
  end.

(** A call of a method of the package variable [db]. *)
Definition with_db {A} (m : Database → M A) : S (error + A) :=
  λ w, let '(r, e) := m (db w) (env w) in (Returned r, set_env e w).

(** [db.Close()]. *)
Definition db_Close : S (option error) :=
  λ w, let '(err, d, e) := Close (db w) (env w) in (Returned err, set_db d (set_env e w)).

Definition time_Now : S Z := λ w, (Returned (clock w), w).
Definition time_Sleep (d : Z) : S unit := λ w, (Returned tt, set_clock (clock w + d) w).
Definition go (ev : event) : S unit := λ w, (Returned tt, emit ev w).

(** *** Delivery *)

(** [json.Marshal(payload)]: the text is modelled by the payload; a
    number that is NaN or infinite cannot be marshalled. *)
Definition iface_finite (v : iface) : bool :=
  match v with INum f => float64_finite f | _ => true end.

Definition json_Marshal (payload : Payload) : error + Payload :=
  let p := pl_Sensors payload in
  if float64_finite (Latitude (sd_GPS p)) && float64_finite (Longitude (sd_GPS p))
     && float64_finite (Altitude (sd_GPS p))
     && forallb (λ '(_, inner), forallb (λ '(_, v), iface_finite v) (map_to_list inner))
                (map_to_list (sd_Sensors p))
     && forallb (λ g, float64_finite (lp_Probability g)) (pl_Guesses payload)
  then inr payload
  else inl (errors_New "json: unsupported value").

Definition set_GPS (g : GPS) (p : SensorData) : SensorData :=
  mkSensorData (sd_Timestamp p) (sd_Family p) (sd_Device p) (sd_Location p) g (sd_Sensors p).
Definition set_Family (f : string) (p : SensorData) : SensorData :=
  mkSensorData (sd_Timestamp p) f (sd_Device p) (sd_Location p) (sd_GPS p) (sd_Sensors p).
Definition set_Sensors (m : gmap string (gmap string iface)) (p : SensorData) : SensorData :=
  mkSensorData (sd_Timestamp p) (sd_Family p) (sd_Device p) (sd_Location p) (sd_GPS p) m.

(** [sendOutData]: analyse, attach the GPS of the best guess, and hand
    the document to the websockets and to MQTT. *)
Definition sendOutData `{Classifier} (p : SensorData) : S (LocationAnalysis * option error) :=
  λ w,
    let '(analysis, _) := api_AnalyzeSensorData p (db w) (env w) in
    match Guesses analysis with
    | [] => (Returned (analysis, Some (errors_New "no guesses")), w)
    | guess0 :: _ =>
        (* determine GPS coordinates *)
        let '(gpsData, err) := api_GetGPSData (sd_Family p) (env w) in
        let p :=
          match err, gpsData !! lp_Location guess0 with
          | None, Some loc =>
              set_GPS (mkGPS (Latitude (lg_GPS loc)) (Longitude (lg_GPS loc))
                             (Altitude (sd_GPS p))) p
          | _, _ =>
              set_GPS (mkGPS (-1) (-1) (Altitude (sd_GPS p))) p
          end in
        let payload := mkPayload p (Guesses analysis) (lp_Location guess0) (sd_Timestamp p) in
        match json_Marshal payload with
        | inl err => (Returned (analysis, Some err), w)
        | inr bTarget =>
            let p := set_Family (TrimSpace (ToLower (sd_Family p))) p in
            let w := emit (Websocket (sd_Family p) (sd_Device p) bTarget) w in
            let w := emit (Websocket (sd_Family p) "all" bTarget) w in
            let w := if UseMQTT w then emit (MQTT (sd_Family p) (sd_Device p) bTarget) w else w in
            (Returned (analysis, None), w)
        end
    end.

(** *** Ingestion *)

(** [processSensorData(p, justSave...)].  The variadic argument is the
    slice [justSave]; the condition is
    [len(justSave) < 0 || !justSave[0]], and indexing an empty slice
    panics. *)
Definition processSensorData `{Store} (p : SensorData) (justSave : list bool) : S (option error) :=
  err <- (λ w, let '(err, e) := api_SaveSensorData p (db w) (env w) in
               (Returned err, emit (SaveCalled p) (set_env e w))) ;;
  match err with
  | Some e => ret (Some e)
  | None =>
      deliver <- (if Z.of_nat (length justSave) <? 0 then ret true
                  else match justSave !! 0%nat with
                       | Some b => ret (negb b)
                       | None => panic "runtime error: index out of range [0] with length 0"
                       end) ;;
      (if deliver : bool then go (Go_sendOutData p) else ret tt) ;;
      ret None
  end.

(** *** The reverse aggregator *)

Definition set_HasData (b : bool) (r : ReverseRollingData) : ReverseRollingData :=
  mkReverseRollingData b (rd_Family r) (rd_Datas r) (rd_Timestamp r) (rd_TimeBlock r)
    (rd_MinimumPassive r) (rd_DeviceLocation r) (rd_DeviceGPS r).
Definition set_TimeBlock (t : Z) (r : ReverseRollingData) : ReverseRollingData :=
  mkReverseRollingData (rd_HasData r) (rd_Family r) (rd_Datas r) (rd_Timestamp r) t
    (rd_MinimumPassive r) (rd_DeviceLocation r) (rd_DeviceGPS r).
Definition set_Timestamp (t : Z) (r : ReverseRollingData) : ReverseRollingData :=
  mkReverseRollingData (rd_HasData r) (rd_Family r) (rd_Datas r) t (rd_TimeBlock r)
    (rd_MinimumPassive r) (rd_DeviceLocation r) (rd_DeviceGPS r).
Definition set_Datas (l : list SensorData) (r : ReverseRollingData) : ReverseRollingData :=
  mkReverseRollingData (rd_HasData r) (rd_Family r) l (rd_Timestamp r) (rd_TimeBlock r)
    (rd_MinimumPassive r) (rd_DeviceLocation r) (rd_DeviceGPS r).

(** The body of the innermost loop of [parseRollingData]: one
    observation [rssi] of [mac] under [sensor] by the scanner of
    [data]. *)
Definition mergeObservation (rollingData : ReverseRollingData) (family_ : string)
    (data : SensorData) (sensor mac : string) (rssi : iface)
    (sensorMap : gmap string SensorData) : S (gmap string SensorData) :=
  let trackedDeviceName := sensor +:+ "-" +:+ mac in
  sensorMap <-
    match sensorMap !! trackedDeviceName with
    | Some _ => ret sensorMap
    | None =>
        (* if there is a device+location in map, then it is currently doing learning *)
        let location := default "" (rd_DeviceLocation rollingData !! trackedDeviceName) in
        let gps := default GPS_zero (rd_DeviceGPS rollingData !! trackedDeviceName) in
        now <- time_Now ;;
        let fresh := mkSensorData (Z.quot now time_Millisecond) family_ trackedDeviceName
                                  location gps ∅ in
        time_Sleep (10 * time_Millisecond) ;;
        ret (<[trackedDeviceName := set_Sensors {[ sensor := ∅ ]} fresh]> sensorMap)
    end ;;
  (* sensorMap[trackedDeviceName].Sensors[sensor][data.Device+"-"+sensor] = rssi *)
  match sensorMap !! trackedDeviceName ≫= λ tracked,
        (λ inner, (tracked, inner)) <$> sd_Sensors tracked !! sensor with
  | None => panic "assignment to entry in nil map"
  | Some (tracked, inner) =>
      let inner := <[sd_Device data +:+ "-" +:+ sensor := rssi]> inner in
      ret (<[trackedDeviceName := set_Sensors (<[sensor := inner]> (sd_Sensors tracked)) tracked]>
             sensorMap)
  end.

(** The three nested loops: samples, their categories, their MACs. *)
Definition mergeDatas `{RangeOrder} (rollingData : ReverseRollingData) (family_ : string)
    : gmap string SensorData → S (gmap string SensorData) :=
  foldS (λ data,
    foldS (λ '(sensor, macs),
      foldS (λ '(mac, rssi), mergeObservation rollingData family_ data sensor mac rssi)
            (range macs))
      (range (sd_Sensors data)))
    (rd_Datas rollingData).

(** The second loop of [parseRollingData]: drop the fingerprints with
    too few points, hand the others to [processSensorData]. *)
Definition emitFingerprints `{RangeOrder} `{Store} (rollingData : ReverseRollingData)
    (sensorMap : gmap string SensorData) : S unit :=
  foldS (λ '(sensor, tracked) _,
           let numPassivePoints := numFingerprints (sd_Sensors tracked) in
           if numPassivePoints <? rd_MinimumPassive rollingData then ret tt   (* continue *)
           else
             _ <- processSensorData tracked [] ;;     (* the error is only logged *)
             ret tt)
        (range sensorMap) tt.

(** The first half of [parseRollingData(family)]: read the record,
    merge the window if it is open and older than its time block, write
    the record back and close the handle.  The result is the error of
    the read, or the merged fingerprints and the record as written. *)
Definition flushWindow `{RangeOrder} (family_ : string)
    : S (error + gmap string SensorData * ReverseRollingData) :=
  r <- with_db (λ d, Get d "ReverseRollingData" into_ReverseRollingData) ;;
  match r with
  | inl err => ret (inl err)
  | inr rollingData =>
      now <- time_Now ;;
      merged <-
        (if rd_HasData rollingData && (rd_TimeBlock rollingData <? now - rd_Timestamp rollingData)
         then
           (* merge data *)
           sensorMap <- mergeDatas rollingData family_ ∅ ;;
           ret (sensorMap, set_HasData false rollingData)
         else ret (∅, rollingData)) ;;
      _ <- with_db (λ d, Set_ d "ReverseRollingData" (JRolling merged.2)) ;;
      _ <- db_Close ;;
      ret (inr merged)
  end.

(** [parseRollingData(family)]. *)
Definition parseRollingData `{RangeOrder} `{Store} (family_ : string) : S (option error) :=
  r <- flushWindow family_ ;;
  match r with
  | inl err => ret (Some err)
  | inr (sensorMap, rollingData) =>
      emitFingerprints rollingData sensorMap ;;
      ret None
  end.

(** The body of [handlerReverse] once the JSON body has been bound to
    [d]: the message and the error it answers with. *)
Definition handlerReverse `{RangeOrder} (d : SensorData) : S (string * option error) :=
  (* validate sensor data *)
  match Validate d with
  | Some err => ret ("", Some err)
  | None =>
      let d := set_Family (TrimSpace (ToLower (sd_Family d))) d in
      r <- with_db (λ h, Get h "ReverseRollingData" into_ReverseRollingData) ;;
      let rollingData :=
        match r with
        | inr rollingData => rollingData
        | inl _ =>
            (* defaults *)
            mkReverseRollingData false (sd_Family d) [] 0 (90 * time_Second) 0 ∅ ∅
        end in
      let rollingData :=
        if rd_TimeBlock rollingData =? 0 then set_TimeBlock (90 * time_Second) rollingData
        else rollingData in
      now <- time_Now ;;
      let rollingData :=
        if negb (rd_HasData rollingData)
        then set_HasData true (set_Datas [] (set_Timestamp now rollingData))
        else rollingData in
      if decide (size (sd_Sensors d) = 0%nat) then ret ("", Some (errors_New "no fingerprints"))
      else
        let rollingData := set_Datas (rd_Datas rollingData ++ [d]) rollingData in
        let numFingerprints := numFingerprints (sd_Sensors d) in
        r <- with_db (λ h, Set_ h "ReverseRollingData" (JRolling rollingData)) ;;
        let message := "inserted " +:+ pretty numFingerprints +:+ " fingerprints for " +:+ sd_Family d in
        match r with
        | inr _ => go (Go_parseRollingData (sd_Family d)) ;; ret (message, None)
        | inl err => ret (message, Some err)
        end
  end.

End server.

(** ** Statements about the store that the proofs below confirm or refute *)
Module database_claims.
Import stringsizer database.

(** A sequence of ingests, each through its own handle; errors do not
    stop the sequence. *)
Fixpoint ingest `{RangeOrder} (l : list (Database * SensorData)) (env : Env) : Env :=
  match l with
  | [] => env
  | (d, s) :: l' => ingest l' (snd (AddSensor d s env))
  end.

(** The columns of the [sensors] table of the database called [n]. *)
Definition columns_of (env : Env) (n : string) : option (list string) :=
  sensors_columns <$> mysql env !! n.

(** "[AddSensor(s)] adds a column for each sensor-category of
    [s.sensors] not yet present, then writes one row keyed by
    [s.timestamp] whose encoded cells cover every sensor-category of
    [s.sensors]", for a call that succeeds. *)
Definition AddSensor_widens `{RangeOrder} (d : Database) (s : SensorData) (env : Env) : Prop :=
  ∀ env', AddSensor d s env = (inr tt, env') →
    ∃ t', mysql env' !! name d = Some t'
      ∧ (∀ c, c ∈ dom (sd_Sensors s) → c ∈ sensors_columns t')
      ∧ ∃ row, sensors t' !! sd_Timestamp s = Some row
               ∧ dom (sd_Sensors s) ⊆ dom (cells row).

(** A family database as the server expects it: the four columns of the
    insert statement and a saved, empty dictionary. *)
Definition fresh_tables : Tables :=
  mkTables {[ "sensorDataStringSizer" := JString (Save (mkSizer [])) ]}
           ["timestamp"; "deviceid"; "locationid"; "bluetooth"] ∅ ∅ [].

Definition home_env : Env :=
  mkEnv {[ "find3_home" := fresh_tables ]} ∅ 0 ∅ [].

(** A fingerprint of the family [home] with one wifi observation. *)
Definition wifi_sample : SensorData :=
  mkSensorData 1000 "home" "phone" "kitchen" GPS_zero
    {[ "wifi" := {[ "aa:bb" := INum (-40) ]} ]}.


(** A fingerprint with two bluetooth observations and a position. *)
Definition two_macs : SensorData :=
  mkSensorData 2000 "home" "phone" "kitchen" (mkGPS 1 2 3)
    {[ "bluetooth" := {[ "aa:bb" := INum (-50); "cc:dd" := INum (-55) ]} ]}.


(** "For every stored prediction p, p.probability · 100 is an integer",
    read on the stored binary64 in both possible ways: the product
    computed in binary64 is integral, or the exact product of the
    number the binary64 denotes is. *)
Definition float64_integral (f : float64) : bool :=
  PrimFloat.eqb (float64_of_int64 (int64_of_float64 f)) f.

Definition exact_times100_integral (f : float64) : bool :=
  match Prim2SF f with
  | S754_zero _ => true
  | S754_finite _ m e =>
      if 0 <=? e then true else (100 * Z.pos m) mod 2 ^ (- e) =? 0
  | _ => false
  end.

Definition probability_quantized (p : LocationPrediction) : Prop :=
  float64_integral (PrimFloat.mul (lp_Probability p) 100) = true
  ∨ exact_times100_integral (lp_Probability p) = true.

Definition AddPrediction_quantizes (d : Database) (timestamp : Z)
    (aidata : list LocationPrediction) (env : Env) : Prop :=
  ∀ stored env' t', AddPrediction d timestamp aidata env = (inr stored, env') →
    mysql env' !! name d = Some t' →
    ∀ row p, location_predictions t' !! timestamp = Some row → p ∈ row →
      probability_quantized p.

(** One guess with probability 0.575. *)
Definition kitchen_0575 : list LocationPrediction :=
  [mkLocationPrediction "kitchen" 0.575].

(** *** What the store does instead *)

(** [AddSensor] leaves the columns of every database as they are; a
    call that succeeds has written the row of [s] with the bluetooth
    cell alone; on a working store with the four columns of the
    statement and no row at the timestamp it succeeds; and no sequence
    of ingests changes the columns. *)
Definition inserts_bluetooth_row `{RangeOrder} (d : Database) (s : SensorData) (env : Env)
    : Prop :=
  (∀ r env', AddSensor d s env = (r, env') → ∀ n, columns_of env' n = columns_of env n)
  ∧ (∀ env', AddSensor d s env = (inr tt, env') →
       ∃ t t' ss, mysql env !! name d = Some t ∧ mysql env' !! name d = Some t'
         ∧ keystore t !! "sensorDataStringSizer" = Some (JString (Saved ss))
         ∧ sensors t' = <[sd_Timestamp s :=
               mkSensorRow (sd_Device s) (sd_Location s)
                 {[ "bluetooth" :=
                      (ShrinkMapToString ss (default ∅ (sd_Sensors s !! "bluetooth"))).1 ]}]>
             (sensors t))
  ∧ (∀ t ss, db_closed d = false → faults env = [] → mysql env !! name d = Some t →
       keystore t !! "sensorDataStringSizer" = Some (JString (Saved ss)) →
       ["timestamp"; "deviceid"; "locationid"; "bluetooth"] ⊆ sensors_columns t →
       sensors t !! sd_Timestamp s = None →
       ∃ env', AddSensor d s env = (inr tt, env'))
  ∧ ∀ l n, columns_of (ingest l env) n = columns_of env n.

(** [AddPrediction] on a non-empty list: it succeeds on a working store,
    and then the row at the timestamp is the list with every
    probability truncated in binary64, each of them the binary64
    quotient of an int64 by 100. *)
Definition stores_truncated (d : Database) (timestamp : Z)
    (aidata : list LocationPrediction) (env : Env) : Prop :=
  (db_closed d = false → faults env = [] → is_Some (mysql env !! name d) →
   ∃ stored env', AddPrediction d timestamp aidata env = (inr stored, env'))
  ∧ ∀ stored env', AddPrediction d timestamp aidata env = (inr stored, env') →
      stored = truncate_prediction <$> aidata
      ∧ (∃ t, mysql env !! name d = Some t
            ∧ mysql env' !! name d
              = Some (set_location_predictions <[timestamp := stored]> t))
      ∧ ∀ p, p ∈ stored →
          ∃ k, - 2 ^ 63 ≤ k < 2 ^ 63
             ∧ lp_Probability p = PrimFloat.div (float64_of_int64 k) 100.


End database_claims.

(** ** Statements about the server that the proofs below confirm or refute *)
Module server_claims.
Import stringsizer database database_claims server.

(** The synthetic device of a MAC seen under a category, and the key
    under which a scanner's reading is filed. *)
Definition tracked_name (c mac : string) : string := c +:+ "-" +:+ mac.
Definition scanner_key (d : SensorData) (c : string) : string := sd_Device d +:+ "-" +:+ c.

(** The pair [(c, mac)] occurs in some sample of the window. *)
Definition observed (datas : list SensorData) (c mac : string) : Prop :=
  ∃ d inner, d ∈ datas ∧ sd_Sensors d !! c = Some inner ∧ is_Some (inner !! mac).

(** What the window says about [(c, mac)]: each reporting scanner's
    reading under that scanner's key, a later sample of the window
    replacing an earlier one with the same key. *)
Definition window_readings (datas : list SensorData) (c mac : string) : gmap string iface :=
  foldl (λ acc d,
           match sd_Sensors d !! c ≫= (.!! mac) with
           | Some rssi => <[scanner_key d c := rssi]> acc
           | None => acc
           end) ∅ datas.

(** "The set of synthesized fingerprints is exactly one per distinct
    pair (c, mac), each named c-mac with that name as the synthetic
    device; its inner map under c maps each reporting scanner's key to
    that scanner's rssi, the last occurrence winning": the merge
    returns a map whose keys are the names of the observed pairs, two
    observed pairs never share a name, and the entry of a pair is the
    fingerprint described. *)
Definition window_transposed `{RangeOrder} (rollingData : ReverseRollingData)
    (family_ : string) (w : World) : Prop :=
  let datas := rd_Datas rollingData in
  ∃ sensorMap w',
    mergeDatas rollingData family_ ∅ w = (Returned sensorMap, w')
    ∧ (∀ n, is_Some (sensorMap !! n)
            ↔ ∃ c mac, observed datas c mac ∧ n = tracked_name c mac)
    ∧ (∀ c mac c' mac', observed datas c mac → observed datas c' mac' →
         tracked_name c mac = tracked_name c' mac' → c = c' ∧ mac = mac')
    ∧ (∀ c mac, observed datas c mac →
         ∃ tracked, sensorMap !! tracked_name c mac = Some tracked
           ∧ sd_Device tracked = tracked_name c mac
           ∧ sd_Family tracked = family_
           ∧ sd_Location tracked
             = default "" (rd_DeviceLocation rollingData !! tracked_name c mac)
           ∧ sd_GPS tracked
             = default GPS_zero (rd_DeviceGPS rollingData !! tracked_name c mac)
           ∧ sd_Sensors tracked = {[ c := window_readings datas c mac ]}).

(** All pairs of the window, and the test that two pairs with the same
    synthetic name have the same category (hence are the same pair). *)
Definition window_pairs (datas : list SensorData) : list (string * string) :=
  flat_map (λ d, (λ o, (o.1.1, o.1.2)) <$> @observations canonical_order _ (sd_Sensors d)) datas.

Definition names_distinct (datas : list SensorData) : bool :=
  forallb (λ p, forallb (λ q, bool_decide (tracked_name p.1 p.2 = tracked_name q.1 q.2 → p.1 = q.1))
                        (window_pairs datas))
          (window_pairs datas).

(** *** Concrete inputs *)

Definition sample (device : string) (sensors : gmap string (gmap string iface)) : SensorData :=
  mkSensorData 1000 "home" device "" GPS_zero sensors.

(** Two scanners, [s1] and [s2], that see [aa:bb]; [s2] also sees
    [cc:dd]. *)
Definition scan1 : SensorData :=
  sample "s1" {[ "bluetooth" := {[ "aa:bb" := INum (-50) ]} ]}.
Definition scan2 : SensorData :=
  sample "s2" {[ "bluetooth" := {[ "aa:bb" := INum (-70); "cc:dd" := INum (-55) ]} ]}.

(** One scanner whose two categories give the same synthetic name
    [a-b-c]. *)
Definition colliding : SensorData :=
  sample "s1" {[ "a" := {[ "b-c" := INum (-50) ]}; "a-b" := {[ "c" := INum (-60) ]} ]}.

(** A window opened at time 0 with a time block of 90 s. *)
Definition window (datas : list SensorData) (minimumPassive : Z) : ReverseRollingData :=
  mkReverseRollingData true "home" datas 0 (90 * time_Second) minimumPassive ∅ ∅.

(** The server with the databases of the families [default] (which the
    package handle [db] is opened on) and [home], the record [r] in the
    keystore, no fault scheduled, and the clock at 100 s. *)
Definition world_with (r : ReverseRollingData) : World :=
  mkWorld
    (mkEnv {[ "find3_default" := set_keystore <[ "ReverseRollingData" := JRolling r ]> fresh_tables;
              "find3_home" := fresh_tables ]} ∅ 0 ∅ [])
    (Open "default") false (100 * time_Second) [].

(** The record that the keystore of the package handle holds. *)
Definition stored_record (w : World) : option jsonval :=
  mysql (env w) !! name (db w) ≫= λ t, keystore t !! "ReverseRollingData".

(** The handle [db] works: it is open, no fault is scheduled, and its
    keystore holds the record [r]. *)
Definition usable (w : World) (r : ReverseRollingData) : Prop :=
  db_closed (db w) = false ∧ faults (env w) = []
  ∧ stored_record w = Some (JRolling r).

(** The window of [r] is open and older than its time block. *)
Definition due (w : World) (r : ReverseRollingData) : Prop :=
  rd_HasData r = true ∧ rd_TimeBlock r < clock w - rd_Timestamp r.

(** "Whenever the window is transposed, the record written back has
    hasData=false and" the sequence [datas] as its datas. *)
Definition flush_writes `{RangeOrder} (datas : ReverseRollingData → list SensorData)
    (family_ : string) (w : World) (r : ReverseRollingData) : Prop :=
  ∃ sensorMap written w',
    flushWindow family_ w = (Returned (inr (sensorMap, written)), w')
    ∧ stored_record w' = Some (JRolling written)
    ∧ rd_HasData written = false ∧ rd_Datas written = datas r.

(** "A subsequent first passive sample re-opens a fresh window": on a
    record without an open window, [handlerReverse] stores a window
    opened now that holds the sample alone, and starts the parse. *)
Definition reopens `{RangeOrder} (d : SensorData) (w : World) : Prop :=
  ∃ message written w',
    handlerReverse d w = (Returned (message, None), w')
    ∧ stored_record w' = Some (JRolling written)
    ∧ rd_HasData written = true ∧ rd_Timestamp written = clock w
    ∧ rd_Datas written = [set_Family (TrimSpace (ToLower (sd_Family d))) d]
    ∧ trace w' = trace w ++ [Go_parseRollingData (TrimSpace (ToLower (sd_Family d)))].

(** "When the GPS data does not contain the top guess's location, or
    retrieving it fails, the delivered payload's sensors.gps equals
    [absent p]; when it is present, the payload's latitude and
    longitude are taken from that location's GPS data", for the
    documents that [sendOutData p] hands to the sinks. *)
Definition delivers_gps `{Classifier} (absent : SensorData → GPS)
    (p : SensorData) (w : World) : Prop :=
  ∃ new, trace (sendOutData p w).2 = trace w ++ new
    ∧ ∀ family_ device bTarget guess0,
        Websocket family_ device bTarget ∈ new ∨ MQTT family_ device bTarget ∈ new →
        head (Guesses (api_AnalyzeSensorData p (db w) (env w)).1) = Some guess0 →
        match (api_GetGPSData (sd_Family p) (env w)).2,
              (api_GetGPSData (sd_Family p) (env w)).1 !! lp_Location guess0 with
        | None, Some loc =>
            Latitude (sd_GPS (pl_Sensors bTarget)) = Latitude (lg_GPS loc)
            ∧ Longitude (sd_GPS (pl_Sensors bTarget)) = Longitude (lg_GPS loc)
        | _, _ => sd_GPS (pl_Sensors bTarget) = absent p
        end.

(** A classifier that always guesses the kitchen and knows the
    position of no location. *)
Definition kitchen_classifier : Classifier :=
  {| api_AnalyzeSensorData := λ _ _ _,
       (mkLocationAnalysis [mkLocationPrediction "kitchen" 0.78], None);
     api_GetGPSData := λ _ _, (∅, None) |}.

(** A fingerprint taken at an altitude of 12. *)
Definition high_up : SensorData :=
  mkSensorData 1000 "home" "phone" "" (mkGPS 1 2 12)
    {[ "bluetooth" := {[ "aa:bb" := INum (-40) ]} ]}.

(** How [processSensorData] treats its optional flag, once the save has
    succeeded: without the flag it panics after the save, with [false]
    it starts the delivery, with [true] it does not. *)
Definition flag_handling `{Store} (p : SensorData) (w : World) : Prop :=
  let saved := emit (SaveCalled p) (set_env (api_SaveSensorData p (db w) (env w)).2 w) in
  processSensorData p [] w
    = (Panicked "runtime error: index out of range [0] with length 0", saved)
  ∧ processSensorData p [false] w = (Returned None, emit (Go_sendOutData p) saved)
  ∧ processSensorData p [true] w = (Returned None, saved).

(** What the merge of a window does: it returns the transposed window
    when no two pairs of the window with different categories share a
    name, and panics on the inner map that was never made otherwise. *)
Definition merge_outcome `{RangeOrder} (rollingData : ReverseRollingData) (family_ : string)
    (w : World) : Prop :=
  if names_distinct (rd_Datas rollingData) then window_transposed rollingData family_ w
  else (mergeDatas rollingData family_ ∅ w).1 = Panicked "assignment to entry in nil map".

(** A merged fingerprint that reaches [minimumPassive]. *)
Definition kept `{RangeOrder} (rollingData : ReverseRollingData)
    (sensorMap : gmap string SensorData) (p : SensorData) : Prop :=
  ∃ n, sensorMap !! n = Some p
     ∧ rd_MinimumPassive rollingData ≤ numFingerprints (sd_Sensors p).

(** What the second loop of the parse does with the merged
    fingerprints, whatever the store: it hands kept fingerprints to the
    store and does nothing else, so it starts no delivery; if it returns
    it has handed every kept fingerprint to the store, and if it does
    not it has panicked on [justSave[0]]. *)
Definition emission `{RangeOrder} `{Store} (rollingData : ReverseRollingData)
    (sensorMap : gmap string SensorData) (w : World) : Prop :=
  ∃ new,
    trace (emitFingerprints rollingData sensorMap w).2 = trace w ++ new
    ∧ (∀ ev, ev ∈ new → ∃ p, ev = SaveCalled p ∧ kept rollingData sensorMap p)
    ∧ (∀ p, Go_sendOutData p ∉ new)
    ∧ match (emitFingerprints rollingData sensorMap w).1 with
      | Returned _ => ∀ p, kept rollingData sensorMap p → SaveCalled p ∈ new
      | Panicked msg => msg = "runtime error: index out of range [0] with length 0"
      end.

End server_claims.

(** ** Relations between states used in the proofs *)
Module database_relations.
Import stringsizer database database_claims.

(** Everything but the fault schedule. *)
Definition same_data (env env' : Env) : Prop :=
  mysql env' = mysql env ∧ open_txs env' = open_txs env
  ∧ tx_count env' = tx_count env ∧ Locked env' = Locked env.

(** No column of any database changes. *)
Definition cols_fixed (env env' : Env) : Prop :=
  ∀ n, columns_of env' n = columns_of env n.

(** No table of any database changes. *)
Definition tables_fixed (env env' : Env) : Prop := mysql env' = mysql env.

(** A call preserves a relation between the states before and after. *)
Definition keeps {A} (R : Env → Env → Prop) (m : M A) : Prop :=
  ∀ env r env', m env = (r, env') → R env env'.

End database_relations.

Module server_relations.
Import database server server_claims.

(** An observation of the window together with the sample it is in. *)
Definition obs : Type := SensorData * (string * string * iface).
Definition o_c (o : obs) : string := o.2.1.1.
Definition o_mac (o : obs) : string := o.2.1.2.
Definition o_rssi (o : obs) : iface := o.2.2.
Definition o_name (o : obs) : string := tracked_name (o_c o) (o_mac o).

Definition all_obs `{RangeOrder} (datas : list SensorData) : list obs :=
  flat_map (λ d, (λ o, (d, o)) <$> observations (sd_Sensors d)) datas.

Definition merge_obs (rollingData : ReverseRollingData) (family_ : string) (o : obs) :=
  mergeObservation rollingData family_ o.1 (o_c o) (o_mac o) (o_rssi o).

(** The fields a synthesized fingerprint gets when it is created. *)
Definition tracked_fields (rd : ReverseRollingData) (fam c mac : string)
    (tr : SensorData) : Prop :=
  sd_Device tr = tracked_name c mac ∧ sd_Family tr = fam
  ∧ sd_Location tr = default "" (rd_DeviceLocation rd !! tracked_name c mac)
  ∧ sd_GPS tr = default GPS_zero (rd_DeviceGPS rd !! tracked_name c mac).

(** The readings of [(c, mac)] among the observations [l], in order. *)
Definition readings_from (acc : gmap string iface) (l : list obs) (c mac : string)
    : gmap string iface :=
  foldl (λ acc o, if decide (o_c o = c ∧ o_mac o = mac)
                  then <[scanner_key o.1 c := o_rssi o]> acc else acc) acc l.

(** Observations with the same synthetic name have the same category. *)
Definition inj_names (l : list obs) : Prop :=
  ∀ o1 o2, o1 ∈ l → o2 ∈ l → o_name o1 = o_name o2 → o_c o1 = o_c o2.

(** What holds of the map once the observations [done] are merged. *)
Record merged_inv (rd : ReverseRollingData) (fam : string) (done : list obs)
    (sm : gmap string SensorData) : Prop := {
  inv_dom : ∀ n, is_Some (sm !! n) → ∃ o, o ∈ done ∧ n = o_name o;
  inv_entry : ∀ o, o ∈ done →
    ∃ tr, sm !! o_name o = Some tr
      ∧ tracked_fields rd fam (o_c o) (o_mac o) tr
      ∧ sd_Sensors tr = {[o_c o := readings_from ∅ done (o_c o) (o_mac o)]}
}.

(** All of the process state but the clock. *)
Definition only_clock (w w' : World) : Prop :=
  env w' = env w ∧ db w' = db w ∧ UseMQTT w' = UseMQTT w ∧ trace w' = trace w.

End server_relations.

(** ** Package [database]: the readers *)
Module database_reads.
Import stringsizer database.
Local Open Scope go_scope.

(** [GetPrediction] retrieves the predictions stored at a timestamp.
    The text it unmarshals is one that [AddPrediction] marshalled. *)
Definition GetPrediction (d : Database) (timestamp : Z) : M (list LocationPrediction) :=
  _ <- wrap "problem preparing SQL" (sql_call d) ;;
  t <- wrap "problem getting key" (sql_call d) ;;          (* QueryRow(timestamp).Scan *)
  match location_predictions t !! timestamp with
  | None =>
      fail (errors_Wrap (errors_New "sql: no rows in result set") "problem getting key")
  | Some aidata => ret aidata
  end.

(** Modelled from the spec: [ExpandMapFromString] of the third-party
    compressor replaces every token by the key it stands for; a token
    that the dictionary does not hold cannot be expanded. *)
Fixpoint ExpandMapFromString (ss : StringSizer) (s : encoded) : error + gmap string iface :=
  match s with
  | [] => inr ∅
  | (tok, v) :: s' =>
      match dict ss !! tok, ExpandMapFromString ss s' with
      | Some k, inr m => inr (<[k := v]> m)
      | None, _ => inl (errors_New "stringsizer: unknown token")
      | _, inl err => inl err
      end
  end.

(** The [SELECT] statements over [sensors] that take arguments; both
    select every column. *)
Inductive query :=
| AtTimestamp (timestamp : Z)
| LatestOfDevice (device : string).

Definition sql_text (q : query) : string :=
  match q with
  | AtTimestamp _ => "SELECT * FROM sensors WHERE timestamp = ?"
  | LatestOfDevice _ => "SELECT * FROM sensors WHERE deviceid=? ORDER BY timestamp DESC LIMIT 1"
  end.

(** The row with the greatest timestamp among [rows]. *)
Definition latest (rows : list (Z * SensorRow)) : option (Z * SensorRow) :=
  foldr (λ row best,
           match best with
           | Some b => if b.1 <? row.1 then Some row else Some b
           | None => Some row
           end) None rows.

(** The rows that the server answers a statement with. *)
Definition result_set (q : query) (t : Tables) : list (Z * SensorRow) :=
  match q with
  | AtTimestamp timestamp =>
      match sensors t !! timestamp with
      | Some row => [(timestamp, row)]
      | None => []
      end
  | LatestOfDevice device =>
      option_list
        (latest (filter (λ row, deviceid row.2 = device) (map_to_list (sensors t))))
  end.

(** [*sql.Rows]: the columns of the result and the rows not yet read. *)
Record Rows := mkRows {
  rs_columns : list string;
  rs_rows : list (Z * SensorRow)
}.

(** [stmt.Query(args...)]. *)
Definition Query (d : Database) (q : query) : M Rows :=
  t <- sql_call d ;;
  ret (mkRows (sensors_columns t) (result_set q t)).

(** [rows.Next()] fetches from the connection of the result set, which
    may fail; a failure ends the loop and is what [rows.Err()] reports
    after it. *)
Definition rows_Next : M unit :=
  λ env, match faults env with
         | true :: fs => (inl (errors_New "driver: bad connection"), set_faults fs env)
         | fs => (inr tt, set_faults (tail fs) env)
         end.

(** [rows.Scan(&timestamp, &deviceid, &locationid, &bluetooth)].  [Scan]
    wants as many destinations as the result has columns.  The first
    three columns are those of the [create table sensors] statement; the
    fourth is the one scanned into [bluetooth], and a NULL cannot be
    scanned into a string. *)
Definition Scan (columns : list string) (row : Z * SensorRow)
    : error + (Z * string * string * encoded) :=
  match columns with
  | [_; _; _; c] =>
      match cells row.2 !! c with
      | Some bluetooth => inr (row.1, deviceid row.2, locationid row.2, bluetooth)
      | None =>
          inl (errors_New
                 "sql: Scan error on column index 3: converting NULL to string is unsupported")
      end
  | _ =>
      inl (errors_New
             ("sql: expected " +:+ pretty (length columns)
              +:+ " destination arguments in Scan, not 4"))
  end.

(** The loop of [getRows] over the rows of the result. *)
Fixpoint scan_rows (d : Database) (sensorDataSS : StringSizer) (columns : list string)
    (rows : list (Z * SensorRow)) (sensorData : list SensorData) : M (list SensorData) :=
  match rows with
  | [] =>
      wrap "getRows" rows_Next ;;                      (* Next() is false; rows.Err() *)
      ret sensorData
  | row :: rows' =>
      wrap "getRows" rows_Next ;;
      scanned <- wrap "getRows" (lift (Scan columns row)) ;;
      let '(timestamp, deviceid, locationid, bluetooth) := scanned in
      m <- lift (ExpandMapFromString sensorDataSS bluetooth) ;;
      let s := mkSensorData timestamp (family d) deviceid locationid GPS_zero
                            {[ "bluetooth" := m ]} in
      scan_rows d sensorDataSS columns rows' (sensorData ++ [s])
  end.

(** [getRows] turns the rows of a result into sensor data. *)
Definition getRows (d : Database) (rows : Rows) : M (list SensorData) :=
  (* get the string sizer for the sensor data *)
  sensorDataStringSizerString <- Get d "sensorDataStringSizer" into_string ;;
  sensorDataSS <- lift (New sensorDataStringSizerString) ;;
  (* loop through rows of sql result *)
  scan_rows d sensorDataSS (rs_columns rows) (rs_rows rows) [].

(** [GetAllFromPreparedQuery]. *)
Definition GetAllFromPreparedQuery (d : Database) (q : query) : M (list SensorData) :=
  _ <- wrap (sql_text q) (sql_call d) ;;                  (* Prepare *)
  rows <- wrap (sql_text q) (Query d q) ;;
  wrap (sql_text q) (getRows d rows).

(** [GetSensorFromTime] returns the sensor data of a timestamp.  It
    takes element 0 of the result without looking at its length. *)
Definition GetSensorFromTime (d : Database) (timestamp : Z) (env : Env)
    : server.outcome (error + SensorData) * Env :=
  match GetAllFromPreparedQuery d (AtTimestamp timestamp) env with
  | (inl err, env') => (server.Returned (inl (errors_Wrap err "GetSensorFromTime")), env')
  | (inr sensors, env') =>
      match sensors !! 0%nat with
      | Some s => (server.Returned (inr s), env')
      | None => (server.Panicked "runtime error: index out of range [0] with length 0", env')
      end
  end.

(** [GetLatest] returns the latest sensor data of a device. *)
Definition GetLatest (d : Database) (device : string) : M SensorData :=
  sensors <- GetAllFromPreparedQuery d (LatestOfDevice (TrimSpace device)) ;;
  match sensors with
  | s :: _ => ret s
  | [] => fail (errors_New "no rows found")
  end.

End database_reads.

(** ** Package [database]: [GetMany] and the id tables *)
Module database_more.
Import stringsizer database database_reads.

(** The destinations of [GetMany]: the Go values behind the pointers of
    [keyValues], whose types are not modelled, with their zero values
    and [json.Unmarshal] into them. *)
Class Destinations := {
  dest : Type;
  zero_value : string → dest;
  json_Unmarshal : dest → jsonval → error + dest
}.

(** The loop of [GetMany] over the rows of the result.  The columns
    [id] and [value] are scanned into two strings.  A row whose id has
    no destination is unmarshalled into a nil interface.  The loop ends
    when [rows.Next()] is false, be it for a failure: [rows.Err()] is
    not looked at. *)
Fixpoint fill `{Destinations} (keyValues : gmap string dest) (rows : list (string * jsonval))
    (env : Env) : gmap string dest * option error * Env :=
  match rows with
  | [] => (keyValues, None, (rows_Next env).2)
  | (id, value) :: rows' =>
      match rows_Next env with
      | (inl _, env) => (keyValues, None, env)
      | (inr _, env) =>
          match keyValues !! id with
          | None =>
              (keyValues,
               Some (errors_Wrap (errors_New "json: Unmarshal(nil)")
                                 "problem unmarshalling results"), env)
          | Some v =>
              match json_Unmarshal v value with
              | inl err =>
                  (keyValues, Some (errors_Wrap err "problem unmarshalling results"), env)
              | inr v' => fill (<[id := v']> keyValues) rows' env
              end
          end
      end
  end.

(** [GetMany] retrieves the values of a set of keys into the
    destinations given for them.  The destinations are pointers: what
    they hold after the call is part of the result, also when the call
    fails.  The keys are taken to hold no quote, so that the statement
    built from them selects the rows whose id is one of them. *)
Definition GetMany `{RangeOrder} `{Destinations} (d : Database) (keyValues : gmap string dest)
    (env : Env) : gmap string dest * option error * Env :=
  let keys := (range keyValues).*1 in
  (* where id IN ('k1','k2',...); joining no key at all gives IN ('') *)
  let ids := match keys with [] => [""] | _ => keys end in
  match wrap "problem preparing SQL" (sql_call d) env with
  | (inl err, env) => (keyValues, Some err, env)
  | (inr _, env) =>
      match wrap "problem executing SQL" (sql_call d) env with
      | (inl err, env) => (keyValues, Some err, env)
      | (inr t, env) =>
          fill keyValues (filter (λ row, row.1 ∈ ids) (range (keystore t))) env
      end
  end.

(** The tables [devices] and [locations], which map ids to names, are
    not part of the model of the server; this is all that is used of
    them: the rows [(id, name)] of the table of a given name. *)
Class IdTables := {
  id_rows : Tables → string → list (string * string)
}.

Definition nil_dereference : string :=
  "runtime error: invalid memory address or nil pointer dereference".

(** [GetID] and [GetName] look a row of an id table up by one column
    and return the other.  Both defer [stmt.Close()] before they look
    at the error of [Prepare]; when [Prepare] has failed the statement
    is nil, and the deferred call dereferences it. *)
Definition lookup_id_table `{IdTables} (d : Database) (table : string)
    (matches : string * string → bool) (result : string * string → string) (env : Env)
    : server.outcome (error + string) * Env :=
  match sql_call d env with                                   (* Prepare *)
  | (inl _, env) => (server.Panicked nil_dereference, env)
  | (inr _, env) =>
      match sql_call d env with                               (* QueryRow(..).Scan *)
      | (inl err, env) => (server.Returned (inl err), env)
      | (inr t, env) =>
          match filter (λ row, matches row = true) (id_rows t table) with
          | row :: _ => (server.Returned (inr (result row)), env)
          | [] => (server.Returned (inl (errors_New "sql: no rows in result set")), env)
          end
      end
  end.

Definition GetID `{IdTables} (d : Database) (table name_ : string) :=
  lookup_id_table d table (λ row, bool_decide (row.2 = name_)) fst.

Definition GetName `{IdTables} (d : Database) (table id : string) :=
  lookup_id_table d table (λ row, bool_decide (row.1 = id)) snd.

(** [DeleteLocation] deletes the rows of [sensors] whose [locationid]
    is the id of the location. *)
Definition DeleteLocation `{IdTables} (d : Database) (locationName : string) (env : Env)
    : server.outcome (option error) * Env :=
  match GetID d "locations" locationName env with
  | (server.Panicked msg, env) => (server.Panicked msg, env)
  | (server.Returned (inl err), env) => (server.Returned (Some err), env)
  | (server.Returned (inr id), env) =>
      match wrap "problem preparing SQL" (sql_call d) env with
      | (inl err, env) => (server.Returned (Some err), env)
      | (inr _, env) =>
          match sql_call d env with                           (* stmt.Exec(id) *)
          | (inl err, env) => (server.Returned (Some err), env)
          | (inr _, env) =>
              (server.Returned None,
               set_mysql (alter (set_sensors (filter (λ row, locationid row.2 ≠ id)))
                                (name d)) env)
          end
      end
  end.

End database_more.

(** ** Statements about the store and its readers *)
Module store_statements.
Import stringsizer database database_reads database_more.

(** The call fails and leaves the server and the fault schedule as they
    are. *)
Definition fails_untouched {A} (m : M A) (env : Env) : Prop :=
  ∃ e, m env = (inl e, env).

(** A store on which the handle works: the handle is open, no driver
    fault is scheduled, and the server has the database of the handle. *)
Definition working (d : Database) (env : Env) : Prop :=
  db_closed d = false ∧ faults env = [] ∧ is_Some (mysql env !! name d).

(** Nothing but the fault schedule has changed, and no fault has come
    up where none was scheduled. *)
Definition untouched (env env' : Env) : Prop :=
  database_relations.same_data env env' ∧ (faults env = [] → faults env' = []).

(** The tables [gps] and the open transactions are as before. *)
Definition gps_untouched (env env' : Env) : Prop :=
  (∀ n, gps <$> mysql env' !! n = gps <$> mysql env !! n)
  ∧ open_txs env' = open_txs env.

(** The tables [gps], the open transactions and the number of
    transactions begun are as before, and no fault has come up where
    none was scheduled. *)
Definition no_gps_activity (env env' : Env) : Prop :=
  gps_untouched env env' ∧ tx_count env' = tx_count env
  ∧ (faults env = [] → faults env' = []).

(** One step of [ShrinkMapToString]. *)
Definition shrink_step : encoded * StringSizer → string * iface → encoded * StringSizer :=
  λ '(out, ss) '(k, v), let '(tok, ss') := shrink_key ss k in (out ++ [(tok, v)], ss').

(** The store of the family home holding one row, at timestamp 2000. *)
Definition home_with_row : Env :=
  mkEnv {[ "find3_home" :=
             set_sensors <[2000 := mkSensorRow "phone" "kitchen" ∅]>
                         database_claims.fresh_tables ]} ∅ 0 ∅ [].

(** The store of the family home on which the sixth driver call fails:
    in [AddSensor] that is the [Prepare] of the [Set] that saves the
    dictionary. *)
Definition dictionary_write_fails : Env :=
  mkEnv {[ "find3_home" := database_claims.fresh_tables ]} ∅ 0 ∅
        [false; false; false; false; false; true].

(** Destinations that are Go strings. *)
Definition string_destinations : Destinations :=
  {| dest := text; zero_value := λ _, Plain ""; json_Unmarshal := λ _, into_string |}.

(** The store of the family home on which the third driver call fails:
    in [GetMany] that is the first [rows.Next()]. *)
Definition iteration_fails : Env :=
  mkEnv {[ "find3_home" := database_claims.fresh_tables ]} ∅ 0 ∅ [false; false; true].

(** A server without id tables. *)
Definition no_id_tables : IdTables := {| id_rows := λ _ _, [] |}.

(** The handle of the family home after its [Close]. *)
Definition closed_home : Database := (Close (Open "home") database_claims.home_env).1.2.

(** A fingerprint taken on the equator. *)
Definition on_equator : SensorData :=
  mkSensorData 3000 "home" "phone" "kitchen" (mkGPS 0 2 3)
    {[ "bluetooth" := {[ "aa:bb" := INum (-50) ]} ]}.

End store_statements.

(** ** Package [server]: the handlers of the debug mode *)
Module server_handlers.
Import database server.
Local Open Scope srv_scope.

(** The [gin.H] that a handler passes to [c.JSON]. *)
Record answer := mkAnswer {
  message : string;
  success : bool
}.

(** [handlerLearn]; [bound] is the result of [c.BindJSON(&s)]. *)
Definition handlerLearn `{Store} (bound : error + SensorData) : S answer :=
  err <- match bound with
         | inl err => ret (Some (errors_Wrap err "problem binding data"))
         | inr s => processSensorData s [true]            (* process data *)
         end ;;
  match err with
  | Some err => ret (mkAnswer (Error err) false)
  | None => ret (mkAnswer "inserted data" true)
  end.

(** The [gin.H] of [handlerEfficacy]. *)
Record efficacy_answer `{database_more.Destinations} := mkEfficacyAnswer {
  ea_message : string;
  ea_success : bool;
  ea_efficacy : option (gmap string database_more.dest)
}.
Arguments mkEfficacyAnswer {_} _ _ _.

(** The destinations that [handlerEfficacy] declares, at their zero
    values. *)
Definition efficacy_keyValues `{database_more.Destinations} : gmap string database_more.dest :=
  {[ "LastCalibrationTime" := database_more.zero_value "LastCalibrationTime";
     "AccuracyBreakdown" := database_more.zero_value "AccuracyBreakdown";
     "AlgorithmEfficacy" := database_more.zero_value "AlgorithmEfficacy" ]}.

(** [handlerEfficacy].  The inner function has the result parameter
    [err]; the statement [if err := db.GetMany(keyValues); err != nil]
    declares an [err] of its own, and it is that one which the wrapped
    error is assigned to. *)
Definition handlerEfficacy `{RangeOrder} `{database_more.Destinations} : S efficacy_answer :=
  λ w,
    let err : option error := None in
    let '(efficacy, err', e) := database_more.GetMany (db w) efficacy_keyValues (env w) in
    let err' := (λ err', errors_Wrap err' "could not get efficacy info") <$> err' in
    let w := set_env e w in
    match err with
    | Some err => (Returned (mkEfficacyAnswer (Error err) false None), w)
    | None => (Returned (mkEfficacyAnswer "got stats" true (Some efficacy)), w)
    end.

End server_handlers.

(** ** Statements about the server *)
Module server_statements.
Import database server server_claims.

(** The first half of the parse has run to its end: the record was read
    and the merge, if any, has not panicked. *)
Definition flushed {A} (r : outcome (error + A)) : bool :=
  match r with
  | Returned (inr _) => true
  | _ => false
  end.

(** The handler answers with an error and leaves the process as it is. *)
Definition refused `{RangeOrder} (d : SensorData) (w : World) : Prop :=
  ∃ message err, handlerReverse d w = (Returned (message, Some err), w).

(** The sample as [handlerReverse] files it: with its family
    normalized. *)
Definition filed (d : SensorData) : SensorData :=
  set_Family (TrimSpace (ToLower (sd_Family d))) d.

(** The record that [handlerReverse] starts from when the keystore
    holds none. *)
Definition defaults (family_ : string) : ReverseRollingData :=
  mkReverseRollingData false family_ [] 0 (90 * time_Second) 0 ∅ ∅.

(** What a delivery hands to the sinks: the document goes to the
    websockets of the device and of [all], and to MQTT if it is in use. *)
Definition sinks (w : World) (family_ device : string) (bTarget : Payload) : list event :=
  [Websocket family_ device bTarget; Websocket family_ "all" bTarget]
  ++ (if UseMQTT w then [MQTT family_ device bTarget] else []).

(** The merge started at clock [c0] has produced [sm] and left the clock
    at [c]: it has slept 10 ms per fingerprint, and the fingerprints
    carry pairwise different timestamps, taken while it ran. *)
Definition merge_timing (c0 : Z) (sm : gmap string SensorData) (c : Z) : Prop :=
  c = c0 + 10 * time_Millisecond * Z.of_nat (size sm)
  ∧ (∀ n tr, sm !! n = Some tr →
       Z.quot c0 time_Millisecond ≤ sd_Timestamp tr < Z.quot c time_Millisecond)
  ∧ ∀ n1 n2 tr1 tr2, sm !! n1 = Some tr1 → sm !! n2 = Some tr2 →
      sd_Timestamp tr1 = sd_Timestamp tr2 → n1 = n2.

(** A window opened at 50 s that holds one sample; in [world_with],
    whose clock is at 100 s, its time block of 90 s has not elapsed. *)
Definition young_window : ReverseRollingData :=
  set_Timestamp (50 * time_Second) (window [scan1] 0).

End server_statements.

(** ** Facts about [range] *)
Module range_facts.
Section range_facts.
Context `{RangeOrder} {V : Type}.

Lemma elem_of_range (m : gmap string V) k v : (k, v) ∈ range m ↔ m !! k = Some v.
Proof. rewrite (range_perm m). apply elem_of_map_to_list. Qed.

Lemma NoDup_fst_range (m : gmap string V) : NoDup (range m).*1.
Proof. rewrite (range_perm m). apply NoDup_fst_map_to_list. Qed.

Lemma length_range (m : gmap string V) : length (range m) = size m.
Proof. rewrite (range_perm m). apply length_map_to_list. Qed.

End range_facts.

Section observations.
Context `{RangeOrder} {V : Type}.

Lemma elem_of_observations (m : gmap string (gmap string V)) c k v :
  (c, k, v) ∈ observations m ↔ ∃ inner, m !! c = Some inner ∧ inner !! k = Some v.
Proof.
  unfold observations. rewrite list_elem_of_In, in_flat_map. split.
  - intros ([c' inner] & Hin & Hx). apply list_elem_of_In in Hin, Hx.
    apply elem_of_range in Hin.
    apply list_elem_of_fmap in Hx as ([k' v'] & [= -> -> ->] & Hk).
    apply elem_of_range in Hk. eauto.
  - intros (inner & Hc & Hk). exists (c, inner). split.
    + apply list_elem_of_In, elem_of_range, Hc.
    + apply list_elem_of_In, list_elem_of_fmap. exists (k, v). split; [done|].
      by apply elem_of_range.
Qed.

Lemma NoDup_observations (m : gmap string (gmap string V)) :
  NoDup ((λ o, (o.1.1, o.1.2)) <$> observations m).
Proof.
  unfold observations. pose proof (NoDup_fst_range m) as Hnd.
  induction (range m) as [|[c inner] l IH]; csimpl; [constructor|].
  apply NoDup_cons in Hnd as [Hc Hnd]. rewrite fmap_app.
  apply NoDup_app. split_and!; [| |by apply IH].
  - rewrite <- list_fmap_compose.
    pose proof (NoDup_fst_range inner) as Hi.
    induction (range inner) as [|[k v] l' IH']; csimpl; [constructor|].
    apply NoDup_cons in Hi as [Hk Hi]. constructor; [|by apply IH'].
    intros Hin. apply Hk.
    apply list_elem_of_fmap in Hin as ([k' v'] & [= ->] & Hin).
    apply list_elem_of_fmap. by exists (k', v').
  - intros [c' k'] Hin1 Hin2. apply Hc.
    apply list_elem_of_fmap in Hin1 as ([[c1 k1] v1] & [= -> ->] & Hin1).
    apply list_elem_of_fmap in Hin1 as ([k2 v2] & [= -> -> ->] & _).
    apply list_elem_of_fmap in Hin2 as ([[c5 k5] v5] & [= -> ->] & Hin2).
    apply list_elem_of_In, in_flat_map in Hin2 as ([c3 inner3] & Hin3 & Hin2).
    apply list_elem_of_In in Hin2, Hin3.
    apply list_elem_of_fmap in Hin2 as ([k4 v4] & [= -> -> ->] & _).
    apply list_elem_of_fmap. by exists (c3, inner3).
Qed.
End observations.

End range_facts.

(** ** The store *)
Module database_proofs.
Import stringsizer database database_claims database_relations range_facts.
Local Open Scope go_scope.

(** C9: [AddPrediction] with an empty list returns the error
    "no predictions to add" and leaves the whole store as it is; so
    [SavePrediction] of an empty analysis reports that error and no
    table changes, whatever was stored at the timestamp. *)
Theorem AddPrediction_empty (d : Database) (timestamp : Z) (env : Env) :
  AddPrediction d timestamp [] env = (inl (errors_New "no predictions to add"), env)
  ∧ ∀ s, (api.SavePrediction s (mkLocationAnalysis []) env).1
           = Some (errors_New "no predictions to add")
         ∧ mysql (api.SavePrediction s (mkLocationAnalysis []) env).2 = mysql env.
Proof.
  split; [reflexivity|]. intros s. unfold api.SavePrediction. simpl.
  unfold Close, Open; simpl.
  unfold sql_Close; simpl.
  destruct (faults env) as [|[] fs]; simpl; auto.
Qed.

(** C10: [Close] is idempotent.  On a handle that a [Close] has marked
    closed, [Close] returns nil and changes neither the handle nor
    anything else, in whatever state it is called; and every [Close]
    leaves the handle so marked, so that this holds for each [Close]
    that comes after one, however many there are and whatever happened
    in between.  The first one, on a handle not yet closed, closes the
    connection and removes the lock entry. *)
Theorem Close_twice (d : Database) (env : Env) :
  (isClosed d = true → ∀ env0, Close d env0 = (None, d, env0))
  ∧ let '(err, d', env') := Close d env in
    isClosed d' = true
    ∧ (∀ env2, Close d' env2 = (None, d', env2))
    ∧ (isClosed d = false → db_closed d' = true ∧ Locked env' !! name d = None).
Proof.
  split.
  - intros Hc env0. unfold Close. by rewrite Hc.
  - unfold Close. destruct (isClosed d) eqn:Hc.
    + split_and!; [done| |discriminate]. intros env2. by rewrite Hc.
    + destruct (sql_Close d env) as [err2 env1]. simpl.
      split_and!; [done..|]. intros _. split; [done|]. apply lookup_delete_eq.
Qed.

Lemma sql_call_inv d env r env' :
  sql_call d env = (r, env') →
  same_data env env'
  ∧ ∀ t, r = inr t → mysql env !! name d = Some t ∧ db_closed d = false.
Proof.
  unfold sql_call, same_data. intros Hc.
  destruct (db_closed d) eqn:Hd;
    [|destruct (faults env) as [|[] fs]; simpl in Hc;
      try destruct (mysql env !! name d) eqn:E];
    simplify_eq; simpl; repeat split; intros; by simplify_eq.
Qed.

Lemma set_faults_id env : faults env = [] → set_faults [] env = env.
Proof. destruct env; simpl; intros ->; reflexivity. Qed.

Lemma sql_call_ok d env t :
  db_closed d = false → faults env = [] → mysql env !! name d = Some t →
  sql_call d env = (inr t, env).
Proof.
  intros Hd Hf Ht. unfold sql_call. rewrite Hd, Hf. simpl.
  rewrite set_faults_id by done. by rewrite Ht.
Qed.

Lemma cols_fixed_refl env : cols_fixed env env.
Proof. done. Qed.
Lemma cols_fixed_trans e1 e2 e3 : cols_fixed e1 e2 → cols_fixed e2 e3 → cols_fixed e1 e3.
Proof. intros H1 H2 n. by rewrite H2, H1. Qed.
Lemma same_data_cols env env' : same_data env env' → cols_fixed env env'.
Proof. intros (Hm & _) n. unfold columns_of. by rewrite Hm. Qed.

Lemma update_cols d f env :
  (∀ t, sensors_columns (f t) = sensors_columns t) →
  cols_fixed env (set_mysql (alter f (name d)) env).
Proof.
  intros Hf n. unfold columns_of. simpl.
  destruct (decide (name d = n)) as [->|Hne].
  - rewrite lookup_alter_eq. destruct (mysql env !! n); simpl; [by rewrite Hf|done].
  - by rewrite lookup_alter_ne.
Qed.

Section keeps.
Context (R : Env → Env → Prop) (Rrefl : ∀ e, R e e)
        (Rtrans : ∀ e1 e2 e3, R e1 e2 → R e2 e3 → R e1 e3).

Lemma keeps_ret {A} (a : A) : keeps R (ret a).
Proof. intros env r env' [= _ <-]. apply Rrefl. Qed.
Lemma keeps_fail {A} e : keeps R (@fail A e).
Proof. intros env r env' [= _ <-]. apply Rrefl. Qed.
Lemma keeps_lift {A} (x : error + A) : keeps R (lift x).
Proof. intros env r env' [= _ <-]. apply Rrefl. Qed.
Lemma keeps_bind {A B} (m : M A) (k : A → M B) :
  keeps R m → (∀ a, keeps R (k a)) → keeps R (bind m k).
Proof.
  intros Hm Hk env r env'. unfold bind.
  destruct (m env) as [[e|a] env1] eqn:E.
  - intros [= _ <-]. eauto.
  - intros Hka. eapply Rtrans; [eapply Hm, E|eapply Hk, Hka].
Qed.
Lemma keeps_wrap {A} msg (m : M A) : keeps R m → keeps R (wrap msg m).
Proof.
  intros Hm env r env'. unfold wrap.
  destruct (m env) as [[e|a] env1] eqn:E; intros [= _ <-]; eauto.
Qed.
Lemma keeps_forM {A} (f : A → M unit) l :
  (∀ a, keeps R (f a)) → keeps R (forM f l).
Proof.
  intros Hf. induction l as [|a l IH]; simpl.
  - apply keeps_ret.
  - apply keeps_bind; auto.
Qed.
End keeps.

Lemma keeps_sql_call R d : (∀ e e', same_data e e' → R e e') → keeps R (sql_call d).
Proof. intros HR env r env' Hc. apply HR. by apply sql_call_inv in Hc as [? _]. Qed.

Lemma AddSensor_keeps_columns `{RangeOrder} d s : keeps cols_fixed (AddSensor d s).
Proof.
  pose proof cols_fixed_refl as Hr. pose proof cols_fixed_trans as Ht.
  pose proof (λ d, keeps_sql_call cols_fixed d same_data_cols) as Hs.
  unfold AddSensor, Columns, Get, Set_, prepare_insert_sensors, exec_insert_sensors.
  repeat first
    [ apply (keeps_bind _ Ht); [|intros ?]
    | apply keeps_wrap
    | apply (keeps_ret _ Hr) | apply (keeps_fail _ Hr) | apply (keeps_lift _ Hr)
    | apply Hs
    | done
    | match goal with
      | |- keeps _ (match ?x with _ => _ end) => destruct x
      | |- keeps _ (let '(_, _) := ?x in _) => destruct x
      | |- keeps _ (if ?x then _ else _) => destruct x
      | |- keeps _ (update_tables _ _) =>
          intros ? ? ? [= _ <-]; apply update_cols; by intros []
      end ].
Qed.

(** Inversion of a run that returned no error. *)
Lemma bind_inr {A B} (m : M A) (k : A → M B) env b env' :
  bind m k env = (inr b, env') →
  ∃ a env1, m env = (inr a, env1) ∧ k a env1 = (inr b, env').
Proof. unfold bind. destruct (m env) as [[e|a] env1]; [done|eauto]. Qed.

Lemma wrap_inr {A} msg (m : M A) env a env' :
  wrap msg m env = (inr a, env') → m env = (inr a, env').
Proof. unfold wrap. by destruct (m env) as [[e|a'] env1]. Qed.

Lemma sql_call_inr d env t env' :
  sql_call d env = (inr t, env') →
  same_data env env' ∧ mysql env !! name d = Some t ∧ db_closed d = false.
Proof. intros Hc. apply sql_call_inv in Hc as [? Ht]. destruct (Ht t); auto. Qed.

Ltac inv_run H :=
  repeat match type of H with
    | bind _ _ _ = (inr _, _) =>
        let H1 := fresh "Hstep" in
        apply bind_inr in H as (? & ? & H1 & H); inv_run H1
    | wrap _ _ _ = (inr _, _) => apply wrap_inr in H
    | sql_call _ _ = (inr _, _) => apply sql_call_inr in H as (H & ? & ?)
    | ret _ _ = (_, _) => unfold ret in H; simplify_eq
    | fail _ _ = (inr _, _) => discriminate H
    | lift _ _ = (_, _) => unfold lift in H; simplify_eq
    | update_tables _ _ _ = (_, _) => unfold update_tables in H; simplify_eq
    | (match ?x with _ => _ end) _ = (inr _, _) => destruct x eqn:?
    | (if ?x then _ else _) _ = (inr _, _) => destruct x eqn:?
    | (let '(_, _) := ?x in _) _ = (inr _, _) => destruct x eqn:?
    end.

Lemma same_data_trans e1 e2 e3 : same_data e1 e2 → same_data e2 e3 → same_data e1 e3.
Proof. unfold same_data. intros (->&->&->&->) (->&->&->&->). done. Qed.

Lemma AddSensor_success `{RangeOrder} d s env env' :
  AddSensor d s env = (inr tt, env') →
  ∃ t t' ss, mysql env !! name d = Some t ∧ mysql env' !! name d = Some t'
    ∧ keystore t !! "sensorDataStringSizer" = Some (JString (Saved ss))
    ∧ sensors t' = <[sd_Timestamp s :=
          mkSensorRow (sd_Device s) (sd_Location s)
            {[ "bluetooth" :=
                 (ShrinkMapToString ss (default ∅ (sd_Sensors s !! "bluetooth"))).1 ]}]>
        (sensors t).
Proof.
  intros Hrun.
  unfold AddSensor, Columns, Get, Set_, prepare_insert_sensors, exec_insert_sensors in Hrun.
  inv_run Hrun;
    repeat match goal with
           | Hs : same_data _ _ |- _ => destruct Hs as (? & _ & _ & _)
           end;
    simpl in *.
  all: repeat match goal with
           | Hm : mysql _ = _ |- _ => rewrite Hm in *; clear Hm
           end.
  all: simplify_eq.
  all: destruct j as [[?|?]|]; simpl in *; simplify_eq; simpl in *; simplify_eq.
  all: match goal with
       | Hp : ShrinkMapToString ?ss _ = _ |- _ =>
           exists x1; eexists; exists ss; rewrite Hp, ?lookup_alter_eq, H0;
           split_and!; done
       end.
Qed.


Lemma AddSensor_runs `{RangeOrder} d s env t ss :
  db_closed d = false → faults env = [] → mysql env !! name d = Some t →
  keystore t !! "sensorDataStringSizer" = Some (JString (Saved ss)) →
  ["timestamp"; "deviceid"; "locationid"; "bluetooth"] ⊆ sensors_columns t →
  sensors t !! sd_Timestamp s = None →
  ∃ env', AddSensor d s env = (inr tt, env').
Proof.
  intros Hd Hf Ht Hk Hc Hs.
  unfold AddSensor, Columns, Get, Set_, prepare_insert_sensors, exec_insert_sensors.
  unfold bind, wrap, lift, ret, fail.
  repeat (rewrite (sql_call_ok d env t) by done; simpl).
  rewrite Hk. simpl.
  destruct (ShrinkMapToString ss _) as [bluetooth ss'].
  repeat (rewrite (sql_call_ok d env t) by done; simpl).
  assert (∀ c, c ∈ ["timestamp"; "deviceid"; "locationid"; "bluetooth"] →
               bool_decide (c ∈ sensors_columns t) = true) as Hb.
  { intros c Hin. apply bool_decide_eq_true, Hc, Hin. }
  rewrite !Hb by set_solver. simpl.
  repeat (rewrite (sql_call_ok d env t) by done; simpl).
  rewrite Hs. unfold update_tables.
  destruct (decide _); [|by eauto].
  repeat (erewrite sql_call_ok; [simpl| done | done |
                                 by simpl; rewrite lookup_alter_eq, Ht]).
  by eauto.
Qed.

Lemma ingest_keeps_columns `{RangeOrder} l env : cols_fixed env (ingest l env).
Proof.
  revert env. induction l as [|[d s] l IH]; intros env; simpl; [done|].
  eapply cols_fixed_trans; [|apply IH].
  destruct (AddSensor d s env) as [r env1] eqn:E. simpl.
  eapply AddSensor_keeps_columns, E.
Qed.

(** C1, counterexample: a fingerprint with a wifi category is stored
    without a wifi column being added. *)
Lemma AddSensor_does_not_widen :
  ¬ @AddSensor_widens canonical_order (Open "home") wifi_sample home_env.
Proof.
  intros Hw.
  destruct (Hw (@AddSensor canonical_order (Open "home") wifi_sample home_env).2)
    as (t' & Ht' & Hcols & _).
  { by vm_compute. }
  vm_compute in Ht'. injection Ht' as <-.
  specialize (Hcols "wifi"). simpl in Hcols.
  assert ("wifi" ∈ dom (sd_Sensors wifi_sample)) as Hin.
  { apply elem_of_dom. by eexists. }
  apply Hcols in Hin.
  repeat (apply elem_of_cons in Hin as [Hin|Hin]; [discriminate|]).
  by apply elem_of_nil in Hin.
Qed.

(** *** SetGPS *)

Lemma tables_fixed_refl env : tables_fixed env env.
Proof. done. Qed.
Lemma tables_fixed_trans e1 e2 e3 :
  tables_fixed e1 e2 → tables_fixed e2 e3 → tables_fixed e1 e3.
Proof. unfold tables_fixed. congruence. Qed.
Lemma same_data_tables env env' : same_data env env' → tables_fixed env env'.
Proof. by intros (Hm & _). Qed.

Lemma bind_inl {A B} (m : M A) (k : A → M B) env e env' :
  bind m k env = (inl e, env') →
  m env = (inl e, env') ∨ ∃ a env1, m env = (inr a, env1) ∧ k a env1 = (inl e, env').
Proof. unfold bind. destruct (m env) as [[e1|a] env1]; [left; congruence|eauto]. Qed.

Lemma Begin_keeps d : keeps tables_fixed (Begin d).
Proof.
  unfold Begin. apply (keeps_bind _ tables_fixed_trans).
  - apply keeps_sql_call, same_data_tables.
  - intros _ env r env' [= _ <-]. done.
Qed.

(** The statement of [SetGPS] is refused: the call ends at [Begin] or at
    [Prepare], with the transaction of a [Begin] that succeeded left as
    it was begun. *)
Lemma SetGPS_unfold `{RangeOrder} d p env :
  SetGPS d p env =
    match sql_call d env with
    | (inl e, env1) => (inl (errors_Wrap e "SetGPS"), env1)
    | (inr _, env1) =>
        match sql_call d (set_tx_count (S (tx_count env1))
                            (set_open_txs <[tx_count env1 := mkTx (name d) []]> env1)) with
        | (inl e, env2) => (inl (errors_Wrap e "SetGPS"), env2)
        | (inr _, env2) =>
            (inl (errors_Wrap
                    (errors_New "Error 1064: You have an error in your SQL syntax") "SetGPS"),
             env2)
        end
    end.
Proof.
  unfold SetGPS, Begin, tx_Prepare, bind, wrap.
  destruct (sql_call d env) as [[e|t] env1]; [done|].
  by destruct (sql_call d _) as [[e|t2] env2].
Qed.

Lemma SetGPS_never_commits `{RangeOrder} d p env :
  ∃ e env', SetGPS d p env = (inl e, env').
Proof.
  rewrite SetGPS_unfold.
  destruct (sql_call d env) as [[e|t] env1]; [eauto|].
  destruct (sql_call d _) as [[e|t2] env2]; eauto.
Qed.


Lemma Get_ok {A} d env t key v (unmarshal : jsonval → error + A) :
  db_closed d = false → faults env = [] → mysql env !! name d = Some t →
  keystore t !! key = Some v →
  Get d key unmarshal env = (unmarshal v, env).
Proof.
  intros Hd Hf Ht Hk. unfold Get, bind, wrap, lift.
  repeat (rewrite (sql_call_ok d env t) by done; simpl). by rewrite Hk.
Qed.

Lemma Set_ok d env t key v :
  db_closed d = false → faults env = [] → mysql env !! name d = Some t →
  Set_ d key v env
  = (inr tt, set_mysql (alter (set_keystore <[key := v]>) (name d)) env).
Proof.
  intros Hd Hf Ht. unfold Set_, bind, wrap, update_tables.
  by repeat (rewrite (sql_call_ok d env t) by done; simpl).
Qed.

(** *** AddPrediction *)

Lemma int64_of_float64_range f : - 2 ^ 63 ≤ int64_of_float64 f < 2 ^ 63.
Proof.
  unfold int64_of_float64. destruct (Prim2SF f) as [| | |s m e]; try lia.
  match goal with |- context [if ?b then _ else _] => destruct b eqn:E end; [|lia].
  apply andb_true_iff in E as [E1 E2]. apply Z.leb_le in E1. apply Z.ltb_lt in E2. lia.
Qed.

Lemma AddPrediction_success d ts aidata env stored env' :
  AddPrediction d ts aidata env = (inr stored, env') →
  stored = truncate_prediction <$> aidata
  ∧ ∃ t, mysql env !! name d = Some t
       ∧ mysql env' !! name d = Some (set_location_predictions <[ts := stored]> t).
Proof.
  unfold AddPrediction. destruct (decide _); [done|]. intros Hrun.
  inv_run Hrun.
  repeat match goal with Hs : same_data _ _ |- _ => destruct Hs as (? & _) end.
  simpl. split; [done|]. eexists. split; [eassumption|].
  repeat match goal with Hm : mysql _ = _ |- _ => rewrite Hm in *; clear Hm end.
  rewrite lookup_alter_eq. by simplify_option_eq.
Qed.

Lemma AddPrediction_runs d ts aidata env :
  aidata ≠ [] → db_closed d = false → faults env = [] → is_Some (mysql env !! name d) →
  ∃ stored env', AddPrediction d ts aidata env = (inr stored, env').
Proof.
  intros Hne Hd Hf [t Ht]. unfold AddPrediction.
  destruct (decide _) as [Hl|_]; [by destruct aidata|].
  unfold bind, wrap, update_tables, ret.
  repeat (rewrite (sql_call_ok d env t) by done; simpl). eauto.
Qed.

(** C4, amended: for a non-empty list [AddPrediction] succeeds on a
    working store and stores, at the timestamp and replacing what was
    there, every guess with its probability replaced by
    [float64(int64(p*100))/100] computed in binary64; every stored
    probability is the binary64 quotient of an int64 by 100. *)
Theorem AddPrediction_truncates (d : Database) (timestamp : Z)
    (aidata : list LocationPrediction) (env : Env) :
  aidata ≠ [] → stores_truncated d timestamp aidata env.
Proof.
  intros Hne. split; [by apply AddPrediction_runs|].
  intros stored env' Hrun. apply AddPrediction_success in Hrun as (-> & Ht).
  split_and!; [done..|]. intros p Hp.
  apply list_elem_of_fmap in Hp as (q & -> & _).
  exists (int64_of_float64 (PrimFloat.mul (lp_Probability q) 100)).
  split; [apply int64_of_float64_range|done].
Qed.

(** C4, witness: the guess 0.575 on the store of the family home. *)
Lemma AddPrediction_truncates_witness :
  stores_truncated (Open "home") 1000 kitchen_0575 home_env.
Proof. apply AddPrediction_truncates. discriminate. Defined.

(** C4, counterexample: 0.575 is stored as the binary64 0.57, and
    0.57 * 100 is not an integer, neither computed in binary64
    (56.99999999999999) nor exactly. *)
Lemma stored_057_not_quantized :
  ¬ AddPrediction_quantizes (Open "home") 1000 kitchen_0575 home_env.
Proof.
  intros Hq.
  destruct (AddPrediction_runs (Open "home") 1000 kitchen_0575 home_env)
    as (stored & env' & Hrun); [done..|by eexists|].
  pose proof Hrun as Hs. apply AddPrediction_success in Hs as (-> & t & _ & Ht).
  specialize (Hq _ _ _ Hrun Ht (truncate_prediction <$> kitchen_0575)
                 (truncate_prediction (mkLocationPrediction "kitchen" 0.575))).
  simpl in Hq. rewrite lookup_insert_eq in Hq.
  specialize (Hq eq_refl (list_elem_of_here _ _)).
  destruct Hq as [Hq|Hq]; vm_compute in Hq; discriminate Hq.
Qed.

(** The scenario of the spec: 0.78349 is stored as 0.78. *)
Example truncate2_078349 : truncate2 0.78349 = 0.78%float.
Proof. vm_compute. reflexivity. Qed.

(** *** AddSensor *)

(** C1, amended: [AddSensor] reads the columns and never changes them;
    a call that succeeds has written the row keyed by the timestamp
    whose only encoded cell is the bluetooth map of the fingerprint;
    hence over any ingest sequence the columns stay the same. *)
Theorem AddSensor_inserts_bluetooth_row `{RangeOrder} (d : Database) (s : SensorData)
    (env : Env) :
  inserts_bluetooth_row d s env.
Proof.
  split_and!.
  - intros r env' Hrun. by apply (AddSensor_keeps_columns d s env r env').
  - apply AddSensor_success.
  - intros t ss ??????. by eapply AddSensor_runs.
  - intros l. apply ingest_keeps_columns.
Qed.

(** *** SetGPS *)





End database_proofs.

(** ** The server *)
Module server_proofs.
Import stringsizer database database_claims database_relations.
Import server server_claims server_relations range_facts database_proofs.
Local Open Scope srv_scope.

(** *** Loops *)

Lemma foldS_app {A B} (f : A → B → S B) l1 l2 acc w :
  foldS f (l1 ++ l2) acc w = bind (foldS f l1 acc) (foldS f l2) w.
Proof.
  revert acc w. induction l1 as [|a l1 IH]; intros acc w; [reflexivity|].
  simpl. unfold bind. destruct (f a acc w) as [[acc'|msg] w1]; [|done]. apply IH.
Qed.

Lemma foldS_fmap {A A' B} (g : A → A') (f : A' → B → S B) l acc w :
  foldS f (g <$> l) acc w = foldS (λ a, f (g a)) l acc w.
Proof.
  revert acc w. induction l as [|a l IH]; intros acc w; csimpl; [done|].
  unfold bind. destruct (f (g a) acc w) as [[acc'|msg] w1]; [|done]. apply IH.
Qed.

Lemma foldS_flat_map {A A' B} (g : A → list A') (f : A' → B → S B) l acc w :
  foldS (λ a, foldS f (g a)) l acc w = foldS f (flat_map g l) acc w.
Proof.
  revert acc w. induction l as [|a l IH]; intros acc w; simpl; [done|].
  rewrite foldS_app. unfold bind.
  destruct (foldS f (g a) acc w) as [[acc'|msg] w1]; [|done]. apply IH.
Qed.

Lemma foldS_ext {A B} (f g : A → B → S B) l acc w :
  (∀ a b w', f a b w' = g a b w') → foldS f l acc w = foldS g l acc w.
Proof.
  intros Hfg. revert acc w. induction l as [|a l IH]; intros acc w; simpl; [done|].
  unfold bind. rewrite Hfg. destruct (g a acc w) as [[acc'|msg] w1]; [|done]. apply IH.
Qed.

Lemma mergeDatas_flat `{RangeOrder} rollingData family_ sm w :
  mergeDatas rollingData family_ sm w
  = foldS (merge_obs rollingData family_) (all_obs (rd_Datas rollingData)) sm w.
Proof.
  unfold mergeDatas, all_obs. rewrite <- foldS_flat_map.
  apply foldS_ext. intros d sm' w'. rewrite foldS_fmap.
  unfold observations. rewrite <- foldS_flat_map.
  apply foldS_ext. intros [c inner] sm'' w''. rewrite foldS_fmap.
  apply foldS_ext. by intros [k v] ??.
Qed.

(** *** One observation *)

Lemma merge_obs_step rd fam (o : obs) sm w (inner0 : gmap string iface) :
  (∀ tr, sm !! o_name o = Some tr →
         tracked_fields rd fam (o_c o) (o_mac o) tr ∧ sd_Sensors tr = {[o_c o := inner0]}) →
  (sm !! o_name o = None → inner0 = ∅) →
  ∃ tr w', merge_obs rd fam o sm w = (Returned (<[o_name o := tr]> sm), w')
    ∧ tracked_fields rd fam (o_c o) (o_mac o) tr
    ∧ sd_Sensors tr = {[o_c o := <[scanner_key o.1 (o_c o) := o_rssi o]> inner0]}.
Proof.
  intros Hsome Hnone. unfold merge_obs, mergeObservation.
  fold (tracked_name (o_c o) (o_mac o)). fold (o_name o).
  fold (scanner_key o.1 (o_c o)).
  destruct (sm !! o_name o) as [tr|] eqn:Hlk.
  - destruct (Hsome tr eq_refl) as [Hf Hs].
    unfold bind, ret. simpl. rewrite Hlk. simpl. rewrite Hs, lookup_singleton_eq. simpl.
    eexists _, w. split; [reflexivity|]. split; [done|].
    simpl. by rewrite Hs, insert_singleton_eq.
  - rewrite (Hnone eq_refl).
    unfold bind, ret, time_Now, time_Sleep. simpl.
    rewrite lookup_insert_eq. simpl. rewrite lookup_singleton_eq. simpl.
    eexists _, _. split; [by rewrite insert_insert_eq|]. split; [done|].
    simpl. by rewrite insert_singleton_eq.
Qed.

(** *** The merge, observation by observation *)

Lemma readings_from_snoc acc l o c mac :
  readings_from acc (l ++ [o]) c mac
  = if decide (o_c o = c ∧ o_mac o = mac)
    then <[scanner_key o.1 c := o_rssi o]> (readings_from acc l c mac)
    else readings_from acc l c mac.
Proof. unfold readings_from. by rewrite foldl_app. Qed.

Lemma readings_from_absent acc l c mac :
  (∀ o, o ∈ l → ¬ (o_c o = c ∧ o_mac o = mac)) → readings_from acc l c mac = acc.
Proof.
  revert acc. induction l as [|o l IH]; intros acc Hl; simpl; [done|].
  unfold readings_from in *. simpl.
  destruct (decide _) as [Heq|_]; [by destruct (Hl o); [left|]|].
  apply IH. intros o' Ho'. apply Hl. by right.
Qed.

Lemma tracked_name_inj c mac mac' : tracked_name c mac = tracked_name c mac' → mac = mac'.
Proof. unfold tracked_name. intros Heq. by do 2 apply String.app_inj in Heq. Qed.

Lemma inj_names_pair l o1 o2 :
  inj_names l → o1 ∈ l → o2 ∈ l → o_name o1 = o_name o2 →
  o_c o1 = o_c o2 ∧ o_mac o1 = o_mac o2.
Proof.
  intros Hinj H1 H2 Hn. pose proof (Hinj _ _ H1 H2 Hn) as Hc. split; [done|].
  unfold o_name in Hn. rewrite Hc in Hn. by apply tracked_name_inj in Hn.
Qed.

Lemma merged_inv_nil rd fam : merged_inv rd fam [] ∅.
Proof.
  split.
  - intros n [tr Htr]. by rewrite lookup_empty in Htr.
  - intros o Ho. by apply elem_of_nil in Ho.
Qed.

Lemma merged_inv_step rd fam done o sm w :
  merged_inv rd fam done sm → inj_names (done ++ [o]) →
  ∃ sm' w', merge_obs rd fam o sm w = (Returned sm', w')
    ∧ merged_inv rd fam (done ++ [o]) sm'.
Proof.
  intros [Hdom Hentry] Hinj.
  assert (Ho : o ∈ done ++ [o]) by (apply elem_of_app; right; by left).
  destruct (merge_obs_step rd fam o sm w (readings_from ∅ done (o_c o) (o_mac o)))
    as (tr & w' & Hrun & Hf & Hs).
  { intros tr Htr. destruct (Hdom (o_name o)) as (o0 & Ho0 & Hn); [by eexists|].
    destruct (inj_names_pair _ o o0 Hinj) as [Hc Hm];
      [done|by apply elem_of_app; left|done|].
    destruct (Hentry o0 Ho0) as (tr0 & Htr0 & Hf0 & Hs0).
    rewrite <- Hn, Htr in Htr0. injection Htr0 as <-.
    by rewrite Hc, Hm. }
  { intros Hnone. apply readings_from_absent. intros o0 Ho0 [Hc Hm].
    destruct (Hentry o0 Ho0) as (tr0 & Htr0 & _).
    unfold o_name in Htr0, Hnone. rewrite Hc, Hm in Htr0. congruence. }
  exists (<[o_name o := tr]> sm), w'. split; [done|]. split.
  - intros n Hn. destruct (decide (n = o_name o)) as [->|Hne].
    + by exists o.
    + rewrite lookup_insert_ne in Hn by done.
      destruct (Hdom n Hn) as (o0 & Ho0 & ->). exists o0. split; [|done].
      apply elem_of_app; by left.
  - intros o1 Ho1. rewrite readings_from_snoc.
    destruct (decide (o_name o1 = o_name o)) as [Heq|Hne].
    + destruct (inj_names_pair _ o1 o Hinj Ho1 Ho Heq) as [Hc Hm].
      rewrite Heq, lookup_insert_eq. exists tr. split; [done|].
      rewrite Hc, Hm. rewrite decide_True by done. done.
    + rewrite lookup_insert_ne by done.
      apply elem_of_app in Ho1 as [Ho1|Ho1];
        [|apply list_elem_of_singleton in Ho1; by subst].
      destruct (Hentry o1 Ho1) as (tr1 & Htr1 & Hf1 & Hs1).
      exists tr1. split; [done|]. split; [done|].
      rewrite decide_False; [done|]. intros [Hc Hm]. apply Hne.
      unfold o_name. by rewrite Hc, Hm.
Qed.

Lemma merged_inv_run rd fam todo : ∀ done sm w,
  merged_inv rd fam done sm → inj_names (done ++ todo) →
  ∃ sm' w', foldS (merge_obs rd fam) todo sm w = (Returned sm', w')
    ∧ merged_inv rd fam (done ++ todo) sm'.
Proof.
  induction todo as [|o todo IH]; intros done sm w Hinv Hinj.
  - exists sm, w. by rewrite app_nil_r.
  - rewrite cons_middle, app_assoc in Hinj |- *.
    destruct (merged_inv_step rd fam done o sm w Hinv) as (sm1 & w1 & Hrun & Hinv1).
    { intros o1 o2 H1 H2. apply Hinj; apply elem_of_app; by left. }
    destruct (IH (done ++ [o]) sm1 w1 Hinv1 Hinj) as (sm' & w' & Hrun' & Hinv').
    exists sm', w'. split; [|done].
    simpl. unfold bind. by rewrite Hrun.
Qed.

(** *** From observations back to samples *)

Lemma elem_of_all_obs `{RangeOrder} datas d c mac r :
  (d, (c, mac, r)) ∈ all_obs datas
  ↔ d ∈ datas ∧ ∃ inner, sd_Sensors d !! c = Some inner ∧ inner !! mac = Some r.
Proof.
  unfold all_obs. split.
  - intros Hin. apply list_elem_of_In, in_flat_map in Hin as (d' & Hd & Ho).
    apply list_elem_of_In in Hd, Ho.
    apply list_elem_of_fmap in Ho as (o & [= -> <-] & Ho).
    by apply elem_of_observations in Ho.
  - intros (Hd & Ho). apply list_elem_of_In, in_flat_map.
    exists d. split; [by apply list_elem_of_In|].
    apply list_elem_of_In, list_elem_of_fmap. exists (c, mac, r). split; [done|].
    by apply elem_of_observations.
Qed.

Lemma observed_all_obs `{RangeOrder} datas c mac :
  observed datas c mac ↔ ∃ o, o ∈ all_obs datas ∧ o_c o = c ∧ o_mac o = mac.
Proof.
  split.
  - intros (d & inner & Hd & Hc & [r Hr]). exists (d, (c, mac, r)).
    split; [|done]. apply elem_of_all_obs. eauto.
  - intros ([d [[c' mac'] r]] & Ho & Hc & Hm). unfold o_c, o_mac in Hc, Hm.
    simpl in Hc, Hm. subst c' mac'.
    apply elem_of_all_obs in Ho as (Hd & inner & Hc & Hr).
    exists d, inner. eauto.
Qed.

Lemma readings_from_sample `{RangeOrder} acc d c mac :
  readings_from acc ((λ o, (d, o)) <$> observations (sd_Sensors d)) c mac
  = match sd_Sensors d !! c ≫= (.!! mac) with
    | Some rssi => <[scanner_key d c := rssi]> acc
    | None => acc
    end.
Proof.
  pose proof (NoDup_observations (sd_Sensors d)) as Hnd.
  destruct (sd_Sensors d !! c ≫= (.!! mac)) as [r|] eqn:Hlk.
  - assert ((c, mac, r) ∈ observations (sd_Sensors d)) as Hin.
    { apply elem_of_observations.
      destruct (sd_Sensors d !! c) as [inner|]; [|done]. by exists inner. }
    apply list_elem_of_split in Hin as (l1 & l2 & Hl). rewrite Hl in Hnd |- *.
    rewrite fmap_app, fmap_cons in Hnd.
    apply NoDup_app in Hnd as (_ & Hdis & Hnd2). apply NoDup_cons in Hnd2 as [Hnot2 _].
    rewrite fmap_app, fmap_cons. unfold readings_from.
    rewrite foldl_app. simpl. rewrite decide_True by done.
    fold (readings_from acc ((λ o, (d, o)) <$> l1) c mac).
    rewrite (readings_from_absent acc).
    + apply readings_from_absent. intros o Ho [Hc Hm]. apply Hnot2.
      apply list_elem_of_fmap in Ho as ([[c' mac'] r'] & -> & Ho).
      unfold o_c, o_mac in Hc, Hm. simpl in Hc, Hm. subst. apply list_elem_of_fmap. by exists (c, mac, r').
    + intros o Ho [Hc Hm].
      apply list_elem_of_fmap in Ho as ([[c' mac'] r'] & -> & Ho).
      unfold o_c, o_mac in Hc, Hm. simpl in Hc, Hm. subst. apply (Hdis (c, mac)).
      * apply list_elem_of_fmap. by exists (c, mac, r').
      * by left.
  - apply readings_from_absent. intros o Ho [Hc Hm].
    apply list_elem_of_fmap in Ho as ([[c' mac'] r'] & -> & Ho).
    unfold o_c, o_mac in Hc, Hm. simpl in Hc, Hm. subst.
    apply elem_of_observations in Ho as (inner & Hc & Hr).
    by rewrite Hc in Hlk; simpl in Hlk; rewrite Hr in Hlk.
Qed.

Lemma readings_window `{RangeOrder} datas c mac :
  readings_from ∅ (all_obs datas) c mac = window_readings datas c mac.
Proof.
  unfold window_readings. generalize (∅ : gmap string iface).
  induction datas as [|d datas IH]; intros acc; [done|].
  simpl. unfold readings_from in *. rewrite foldl_app.
  fold (readings_from acc ((λ o, (d, o)) <$> observations (sd_Sensors d)) c mac).
  rewrite readings_from_sample. apply IH.
Qed.

Lemma elem_of_window_pairs datas c mac :
  (c, mac) ∈ window_pairs datas ↔ observed datas c mac.
Proof.
  unfold window_pairs. split.
  - intros Hin. apply list_elem_of_In, in_flat_map in Hin as (d & Hd & Ho).
    apply list_elem_of_In in Hd, Ho.
    apply list_elem_of_fmap in Ho as ([[c' mac'] r] & [= -> ->] & Ho).
    apply elem_of_observations in Ho as (inner & ? & ?). exists d, inner. eauto.
  - intros (d & inner & Hd & Hc & [r Hr]). apply list_elem_of_In, in_flat_map.
    exists d. split; [by apply list_elem_of_In|].
    apply list_elem_of_In, list_elem_of_fmap. exists (c, mac, r). split; [done|].
    apply elem_of_observations. eauto.
Qed.

Lemma names_distinct_inj `{RangeOrder} datas :
  names_distinct datas = true → inj_names (all_obs datas).
Proof.
  unfold names_distinct. intros Hb o1 o2 H1 H2 Hn.
  rewrite forallb_forall in Hb.
  assert (∀ o, o ∈ all_obs datas → (o_c o, o_mac o) ∈ window_pairs datas) as Hp.
  { intros o Ho. apply elem_of_window_pairs, observed_all_obs. eauto. }
  specialize (Hb (o_c o1, o_mac o1)). rewrite <- list_elem_of_In in Hb.
  specialize (Hb (Hp _ H1)). rewrite forallb_forall in Hb.
  specialize (Hb (o_c o2, o_mac o2)). rewrite <- list_elem_of_In in Hb.
  specialize (Hb (Hp _ H2)). apply bool_decide_eq_true in Hb. by apply Hb.
Qed.

(** *** The window transposition *)

Lemma mergeDatas_inv `{RangeOrder} (rollingData : ReverseRollingData) (family_ : string)
    (w : World) :
  names_distinct (rd_Datas rollingData) = true →
  ∃ sensorMap w',
    mergeDatas rollingData family_ ∅ w = (Returned sensorMap, w')
    ∧ merged_inv rollingData family_ (all_obs (rd_Datas rollingData)) sensorMap.
Proof.
  intros Hnames. apply names_distinct_inj in Hnames.
  destruct (merged_inv_run rollingData family_ (all_obs (rd_Datas rollingData)) [] ∅ w)
    as (sm & w' & Hrun & Hinv); [apply merged_inv_nil|done|].
  exists sm, w'. by rewrite mergeDatas_flat.
Qed.

(** *** The merge touches nothing but the clock *)

Lemma merge_obs_only_clock rd fam o sm w r w' :
  merge_obs rd fam o sm w = (r, w') → only_clock w w'.
Proof.
  unfold merge_obs, mergeObservation, bind, ret, panic, time_Now, time_Sleep.
  destruct (sm !! _) as [tr|]; simpl.
  - destruct (_ ≫= _) as [[]|]; by intros [= _ <-].
  - destruct (_ ≫= _) as [[]|]; by intros [= _ <-].
Qed.

Lemma foldS_only_clock rd fam l sm w r w' :
  foldS (merge_obs rd fam) l sm w = (r, w') → only_clock w w'.
Proof.
  revert sm w. induction l as [|o l IH]; intros sm w; simpl.
  - by intros [= _ <-].
  - unfold bind. destruct (merge_obs rd fam o sm w) as [[sm1|msg] w1] eqn:E.
    + intros Hrun. apply merge_obs_only_clock in E. apply IH in Hrun.
      destruct E as (?&?&?&?), Hrun as (?&?&?&?). split_and!; congruence.
    + intros [= _ <-]. by apply merge_obs_only_clock in E.
Qed.

Lemma stored_record_inv w r :
  stored_record w = Some (JRolling r) →
  ∃ t, mysql (env w) !! name (db w) = Some t
     ∧ keystore t !! "ReverseRollingData" = Some (JRolling r).
Proof.
  unfold stored_record. destruct (mysql (env w) !! name (db w)) as [t|]; [|done]. eauto.
Qed.

Lemma Close_keeps d e : 
  name (Close d e).1.2 = name d ∧ mysql (Close d e).2 = mysql e.
Proof.
  unfold Close, sql_Close. destruct (isClosed d); [done|].
  destruct (db_closed d); [done|]. by destruct (faults e) as [|[] ?].
Qed.

Lemma set_env_id w : set_env (env w) w = w.
Proof. by destruct w. Qed.

Lemma Validate_nonempty `{RangeOrder} d : Validate d = None → size (sd_Sensors d) ≠ 0%nat.
Proof.
  unfold Validate. destruct (decide _); [done|].
  destruct (numFingerprints (sd_Sensors d) =? 0) eqn:E; [done|]. intros _ Hsz.
  apply Z.eqb_neq in E. apply E. unfold numFingerprints.
  pose proof (length_range (sd_Sensors d)) as Hlen. rewrite Hsz in Hlen.
  by destruct (range (sd_Sensors d)).
Qed.

Lemma handlerReverse_reopens `{RangeOrder} (d : SensorData) (w : World)
    (r : ReverseRollingData) :
  usable w r → rd_HasData r = false → Validate d = None → reopens d w.
Proof.
  intros (Hd & Hf & Hst) Hhas Hval.
  apply stored_record_inv in Hst as (t & Ht & Hk).
  pose proof (Validate_nonempty d Hval) as Hsz.
  unfold reopens, handlerReverse. rewrite Hval.
  unfold bind, with_db, time_Now, ret, go.
  rewrite (Get_ok _ _ t _ (JRolling r)) by done. simpl.
  assert (rd_HasData (if rd_TimeBlock r =? 0 then set_TimeBlock (90 * time_Second) r else r)
          = false) as -> by (by destruct (_ =? _)).
  simpl. rewrite decide_False by done.
  rewrite (Set_ok _ _ t) by done. simpl.
  eexists _, _, _. split; [reflexivity|].
  unfold stored_record. simpl. rewrite lookup_alter_eq, Ht. simpl.
  rewrite lookup_insert_eq. by split_and!.
Qed.

(** *** sendOutData *)

(** C7, amended: every document handed to a sink has latitude and
    longitude -1 and the altitude of the input when the GPS data lacks
    the top guess's location or cannot be retrieved, and the latitude
    and longitude of that location otherwise. *)
Theorem sendOutData_gps `{Classifier} (p : SensorData) (w : World) :
  delivers_gps (λ p, mkGPS (-1) (-1) (Altitude (sd_GPS p))) p w.
Proof.
  unfold delivers_gps, sendOutData.
  destruct (api_AnalyzeSensorData p (db w) (env w)) as [analysis aerr]. simpl.
  destruct (Guesses analysis) as [|guess0 rest].
  { exists []. split; [by rewrite app_nil_r|]. by intros ???? [?%elem_of_nil|?%elem_of_nil]. }
  destruct (api_GetGPSData (sd_Family p) (env w)) as [gpsData gerr]. simpl.
  match goal with
  | |- context [json_Marshal ?pl] => destruct (json_Marshal pl) as [e|bTarget] eqn:EM
  end.
  { exists []. split; [by rewrite app_nil_r|]. by intros ???? [?%elem_of_nil|?%elem_of_nil]. }
  unfold json_Marshal in EM. destruct (_ && _) in EM; [|done]. injection EM as <-.
  assert (∀ g, sd_GPS (set_GPS g p) = g) as Hg by done.
  unfold emit; simpl.
  destruct (UseMQTT w) eqn:EU; simpl;
    rewrite <- ?app_assoc; simpl; eexists; (split; [reflexivity|]);
    intros fam dev b g0 Hin [= <-];
    (assert (sd_GPS (pl_Sensors b)
             = sd_GPS (match gerr, gpsData !! lp_Location guess0 with
                       | None, Some loc =>
                           set_GPS (mkGPS (Latitude (lg_GPS loc)) (Longitude (lg_GPS loc))
                                          (Altitude (sd_GPS p))) p
                       | _, _ => set_GPS (mkGPS (-1) (-1) (Altitude (sd_GPS p))) p
                       end)) as ->;
     [destruct Hin as [Hin|Hin];
      repeat (apply elem_of_cons in Hin as [Hin|Hin]; [by simplify_eq|]);
      by apply elem_of_nil in Hin|]);
    destruct gerr; [done|by destruct (gpsData !! lp_Location guess0)
                   |done|by destruct (gpsData !! lp_Location guess0)].
Qed.

(** *** Concrete runs *)

(** A sample with the categories a (MAC b-c) and a-b (MAC c), both named
    a-b-c, makes the merge panic. *)
Lemma colliding_window_panics :
  ¬ @window_transposed canonical_order (window [colliding] 0) "home"
      (world_with (window [colliding] 0)).
Proof. intros (sm & w' & Hrun & _). vm_compute in Hrun. discriminate Hrun. Qed.

(** C6, counterexample: after the flush of a window holding one sample
    the stored record still holds that sample. *)
Lemma stale_datas_written :
  ¬ @flush_writes canonical_order (λ _, []) "home"
      (world_with (window [scan1] 2)) (window [scan1] 2).
Proof.
  intros (sm & written & w' & Hrun & _ & _ & Hd).
  vm_compute in Hrun. injection Hrun as _ <- _. discriminate Hd.
Qed.

(** C7, counterexample: a fingerprint taken at altitude 12 is delivered
    with gps (-1, -1, 12). *)
Lemma altitude_survives :
  ¬ @delivers_gps kitchen_classifier (λ _, mkGPS (-1) (-1) 0) high_up
      (world_with (window [] 0)).
Proof.
  intros (new & Htrace & Hnew).
  vm_compute in Htrace. subst new.
  specialize (Hnew _ _ _ (mkLocationPrediction "kitchen" 0.78)
                   (or_introl (list_elem_of_here _ _)) eq_refl).
  apply (f_equal (λ g, PrimFloat.eqb (Altitude g) 0)) in Hnew.
  vm_compute in Hnew. discriminate Hnew.
Qed.

Lemma numFingerprints_nonneg `{RangeOrder} sensors : 0 ≤ numFingerprints sensors.
Proof.
  unfold numFingerprints. generalize (range sensors). intros l.
  assert (∀ n, 0 ≤ n → 0 ≤ foldl (λ n '(_, inner), n + Z.of_nat (size inner)) n l) as Hl.
  { induction l as [|[c inner] l IH]; intros n Hn; simpl; [done|]. apply IH. lia. }
  by apply Hl.
Qed.

(** What [processSensorData] adds to the trace. *)
Lemma processSensorData_trace `{Store} p justSave w r w' :
  processSensorData p justSave w = (r, w') →
  ∃ evs, trace w' = trace w ++ evs
    ∧ ∀ q, SaveCalled q ∈ evs ∨ Go_sendOutData q ∈ evs → q = p.
Proof.
  assert (∀ q evs, evs = [SaveCalled p] ∨ evs = [SaveCalled p; Go_sendOutData p] →
                   SaveCalled q ∈ evs ∨ Go_sendOutData q ∈ evs → q = p) as Hq.
  { intros q evs [->| ->] [Hq|Hq];
      repeat (apply elem_of_cons in Hq as [Hq|Hq]; [by simplify_eq|]);
      by apply elem_of_nil in Hq. }
  unfold processSensorData, bind, ret, panic, go.
  destruct (api_SaveSensorData p (db w) (env w)) as [[e|] env1]; simpl.
  - intros [= _ <-]. eexists. split; [reflexivity|]. intros q. apply Hq. by left.
  - destruct (Z.of_nat (length justSave) <? 0); simpl.
    + intros [= _ <-]. exists [SaveCalled p; Go_sendOutData p]. simpl.
      rewrite <- app_assoc. split; [done|]. intros q. apply Hq. by right.
    + destruct (justSave !! 0%nat) as [[]|]; simpl; intros [= _ <-]; simpl.
      * exists [SaveCalled p]. split; [done|]. intros q. apply Hq. by left.
      * exists [SaveCalled p; Go_sendOutData p]. rewrite <- app_assoc.
        split; [done|]. intros q. apply Hq. by right.
      * exists [SaveCalled p]. split; [done|]. intros q. apply Hq. by left.
Qed.

(** Only fingerprints that reach [minimumPassive] are ever handed to
    [processSensorData]. *)
Lemma emitFingerprints_only_kept `{RangeOrder} `{Store} rollingData sensorMap w r w' :
  emitFingerprints rollingData sensorMap w = (r, w') →
  ∃ new, trace w' = trace w ++ new
    ∧ ∀ p, SaveCalled p ∈ new ∨ Go_sendOutData p ∈ new →
        ∃ n, sensorMap !! n = Some p
           ∧ rd_MinimumPassive rollingData ≤ numFingerprints (sd_Sensors p).
Proof.
  unfold emitFingerprints.
  assert (∀ n p, (n, p) ∈ range sensorMap → sensorMap !! n = Some p) as Hin.
  { intros n p. apply elem_of_range. }
  revert Hin. generalize (range sensorMap) as l. intros l. generalize tt as u.
  revert w. induction l as [|[n p] l IH]; intros w u Hin; simpl.
  - intros [= _ <-]. exists []. split; [by rewrite app_nil_r|].
    by intros ? [?%elem_of_nil|?%elem_of_nil].
  - unfold bind at 1.
    destruct (numFingerprints (sd_Sensors p) <? rd_MinimumPassive rollingData) eqn:Elt.
    + simpl. intros Hrun. apply IH in Hrun; [done|]. intros ???. apply Hin. by right.
    + apply Z.ltb_ge in Elt. unfold bind at 1.
      assert (∀ q, q = p → ∃ n0, sensorMap !! n0 = Some q
                ∧ rd_MinimumPassive rollingData ≤ numFingerprints (sd_Sensors q)) as Hp.
      { intros q ->. exists n. split; [apply Hin; by left|done]. }
      destruct (processSensorData p [] w) as [[e|msg] w1] eqn:Ep;
        apply processSensorData_trace in Ep as (evs & Hevs & Hq); simpl.
      * intros Hrun. apply IH in Hrun as (new & Ht & Hnew);
          [|intros ???; apply Hin; by right].
        exists (evs ++ new). rewrite Ht, Hevs, app_assoc. split; [done|].
        intros q Hqin. rewrite !elem_of_app in Hqin.
        destruct Hqin as [[Hqin|Hqin]|[Hqin|Hqin]];
          [apply Hp, Hq; by left|apply Hnew; by left
          |apply Hp, Hq; by right|apply Hnew; by right].
      * intros [= _ <-]. exists evs. split; [done|]. intros q Hqin. by apply Hp, Hq.
Qed.

(** *** The two panics do not depend on the order of [range] *)

Lemma range_singleton `{RangeOrder} {V} (k : string) (v : V) : range ({[k := v]} : gmap string V) = [(k, v)].
Proof.
  pose proof (range_perm ({[k := v]} : gmap string V)) as Hp.
  rewrite map_to_list_singleton in Hp. by apply Permutation_singleton_r in Hp.
Qed.

(** Whichever of the two colliding categories comes first, the other
    one finds no inner map. *)
Lemma colliding_panics_in_every_order `{RangeOrder} (w : World) :
  (mergeDatas (window [colliding] 0) "home" ∅ w).1 = Panicked "assignment to entry in nil map".
Proof.
  unfold mergeDatas. simpl.
  pose proof (range_perm (sd_Sensors colliding)) as Hp.
  unfold colliding, sample in Hp |- *. simpl in Hp |- *.
  rewrite map_to_list_insert, map_to_list_singleton in Hp by done.
  symmetry in Hp. apply Permutation_length_2_inv in Hp.
  unfold bind at 1.
  destruct Hp as [-> | ->]; simpl; rewrite !range_singleton; simpl; reflexivity.
Qed.

(** If the save of every fingerprint that reaches [minimumPassive]
    succeeds and there is such a fingerprint, the second loop panics
    right after its first save. *)
Lemma emitFingerprints_panics_at_first_kept `{RangeOrder} `{Store}
    (rollingData : ReverseRollingData) (sensorMap : gmap string SensorData) (w : World) :
  (∀ n p, sensorMap !! n = Some p →
          rd_MinimumPassive rollingData ≤ numFingerprints (sd_Sensors p) →
          (api_SaveSensorData p (db w) (env w)).1 = None) →
  (∃ n p, sensorMap !! n = Some p
          ∧ rd_MinimumPassive rollingData ≤ numFingerprints (sd_Sensors p)) →
  ∃ p w', emitFingerprints rollingData sensorMap w
          = (Panicked "runtime error: index out of range [0] with length 0", w')
        ∧ trace w' = trace w ++ [SaveCalled p].
Proof.
  intros Hsave (n & p & Hp & Hkept).
  apply elem_of_range in Hp.
  assert (∀ n p, (n, p) ∈ range sensorMap → sensorMap !! n = Some p) as Hin.
  { intros ??. apply elem_of_range. }
  unfold emitFingerprints. revert Hp Hin. generalize (range sensorMap) as l.
  generalize tt as u.
  intros u l. revert u. induction l as [|[n1 p1] l IH]; intros u Hp Hin.
  { by apply elem_of_nil in Hp. }
  simpl. unfold bind at 1.
  destruct (numFingerprints (sd_Sensors p1) <? rd_MinimumPassive rollingData) eqn:Elt.
  - simpl. apply IH.
    + apply elem_of_cons in Hp as [[= -> ->]|Hp]; [|done]. apply Z.ltb_lt in Elt. lia.
    + intros ???. apply Hin. by right.
  - apply Z.ltb_ge in Elt.
    pose proof (Hsave n1 p1 (Hin _ _ (list_elem_of_here _ _)) Elt) as Hs.
    unfold bind at 1. unfold processSensorData, bind.
    destruct (api_SaveSensorData p1 (db w) (env w)) as [err e]. simpl in Hs. subst err.
    simpl. by eexists _, _.
Qed.

(** *** The window transposition, and where it panics *)

(** Provided no two pairs of the window with different categories share
    the name c-mac, the merge returns one fingerprint per pair, for
    every order in which the maps are ranged over. *)
Lemma distinct_names_transposed `{RangeOrder} (rollingData : ReverseRollingData)
    (family_ : string) (w : World) :
  names_distinct (rd_Datas rollingData) = true →
  window_transposed rollingData family_ w.
Proof.
  intros Hnames.
  destruct (mergeDatas_inv rollingData family_ w Hnames) as (sm & w' & Hrun & [Hdom Hentry]).
  apply names_distinct_inj in Hnames.
  exists sm, w'. split; [done|]. split_and!.
  - intros n. split.
    + intros Hn. destruct (Hdom n Hn) as (o & Ho & ->).
      exists (o_c o), (o_mac o). split; [|done]. apply observed_all_obs. eauto.
    + intros (c & mac & Hobs & ->). apply observed_all_obs in Hobs as (o & Ho & <- & <-).
      destruct (Hentry o Ho) as (tr & Htr & _). by exists tr.
  - intros c mac c' mac' H1 H2 Hn.
    apply observed_all_obs in H1 as (o1 & Ho1 & <- & <-).
    apply observed_all_obs in H2 as (o2 & Ho2 & <- & <-).
    by apply (inj_names_pair _ o1 o2 Hnames).
  - intros c mac Hobs. apply observed_all_obs in Hobs as (o & Ho & <- & <-).
    destruct (Hentry o Ho) as (tr & Htr & (Hd & Hf & Hl & Hg) & Hs).
    exists tr. rewrite readings_window in Hs. by split_and!.
Qed.


Lemma merge_obs_panic rd fam o sm w msg w' :
  merge_obs rd fam o sm w = (Panicked msg, w') → msg = "assignment to entry in nil map".
Proof.
  unfold merge_obs, mergeObservation, bind, ret, panic, time_Now, time_Sleep.
  destruct (sm !! _) as [tr|]; simpl;
    destruct (_ ≫= _) as [[]|]; by intros [= <- _].
Qed.

(** A merge step that returns has found the inner map of its category
    in the entry of its name: the entries keep one category each. *)
Lemma merge_obs_returned rd fam o done sm w sm' w' :
  (∀ n tr, sm !! n = Some tr → ∃ c inner, sd_Sensors tr = {[c := inner]}) →
  (∀ o0, o0 ∈ done →
     ∃ tr inner, sm !! o_name o0 = Some tr ∧ sd_Sensors tr = {[o_c o0 := inner]}) →
  merge_obs rd fam o sm w = (Returned sm', w') →
  (∀ n tr, sm' !! n = Some tr → ∃ c inner, sd_Sensors tr = {[c := inner]})
  ∧ ∀ o0, o0 ∈ done ++ [o] →
      ∃ tr inner, sm' !! o_name o0 = Some tr ∧ sd_Sensors tr = {[o_c o0 := inner]}.
Proof.
  intros Hone Hdone. unfold merge_obs, mergeObservation.
  fold (tracked_name (o_c o) (o_mac o)). fold (o_name o).
  assert (∀ tr1 (inner1 : gmap string iface),
            (∀ o0, o0 ∈ done → o_name o0 = o_name o → o_c o0 = o_c o) →
            sd_Sensors tr1 = {[o_c o := inner1]} →
            (∀ n tr, <[o_name o := tr1]> sm !! n = Some tr →
                     ∃ c inner, sd_Sensors tr = {[c := inner]})
            ∧ ∀ o0, o0 ∈ done ++ [o] →
                ∃ tr inner, <[o_name o := tr1]> sm !! o_name o0 = Some tr
                            ∧ sd_Sensors tr = {[o_c o0 := inner]}) as Hnew.
  { intros tr1 inner1 Hsame Hs1. split.
    - intros n tr. destruct (decide (n = o_name o)) as [->|Hne].
      + rewrite lookup_insert_eq. intros [= <-]. eauto.
      + rewrite lookup_insert_ne by done. apply Hone.
    - intros o0 Ho0. destruct (decide (o_name o0 = o_name o)) as [Heq|Hne].
      + rewrite Heq, lookup_insert_eq. exists tr1, inner1. split; [done|].
        apply elem_of_app in Ho0 as [Ho0|Ho0].
        * by rewrite (Hsame o0 Ho0 Heq).
        * apply list_elem_of_singleton in Ho0. by subst.
      + rewrite lookup_insert_ne by done.
        apply elem_of_app in Ho0 as [Ho0|Ho0]; [by apply Hdone|].
        apply list_elem_of_singleton in Ho0. by subst. }
  destruct (sm !! o_name o) as [tr|] eqn:Hlk.
  - unfold bind, ret, panic. simpl. rewrite Hlk. simpl.
    destruct (Hone _ _ Hlk) as (c & inner & Hs).
    destruct (sd_Sensors tr !! o_c o) as [inner0|] eqn:Hc; simpl; [|done].
    rewrite Hs in Hc. apply lookup_singleton_Some in Hc as [-> ->].
    intros [= <- _]. apply (Hnew _ (<[sd_Device o.1 +:+ "-" +:+ o_c o := o_rssi o]> inner0)).
    + intros o0 Ho0 Heq. destruct (Hdone o0 Ho0) as (tr0 & inner1 & Htr0 & Hs0).
      rewrite Heq, Hlk in Htr0. injection Htr0 as <-. rewrite Hs in Hs0.
      apply (f_equal (.!! o_c o)) in Hs0. rewrite lookup_singleton_eq in Hs0.
      symmetry in Hs0. by apply lookup_singleton_Some in Hs0 as [-> _].
    + simpl. by rewrite Hs, insert_singleton_eq.
  - unfold bind, ret, time_Now, time_Sleep. simpl.
    rewrite lookup_insert_eq. simpl. rewrite lookup_singleton_eq. simpl.
    intros [= <- _]. rewrite insert_insert_eq.
    apply (Hnew _ (<[sd_Device o.1 +:+ "-" +:+ o_c o := o_rssi o]> ∅)).
    + intros o0 Ho0 Heq. destruct (Hdone o0 Ho0) as (tr0 & inner1 & Htr0 & _).
      rewrite Heq, Hlk in Htr0. discriminate Htr0.
    + simpl. by rewrite insert_singleton_eq.
Qed.

Lemma merge_returned_inj rd fam todo : ∀ done sm w sm' w',
  (∀ n tr, sm !! n = Some tr → ∃ c inner, sd_Sensors tr = {[c := inner]}) →
  (∀ o0, o0 ∈ done →
     ∃ tr inner, sm !! o_name o0 = Some tr ∧ sd_Sensors tr = {[o_c o0 := inner]}) →
  foldS (merge_obs rd fam) todo sm w = (Returned sm', w') →
  inj_names (done ++ todo).
Proof.
  induction todo as [|o todo IH]; intros done sm w sm' w' Hone Hdone; simpl.
  - intros _ o1 o2 H1 H2 Hn. rewrite app_nil_r in H1, H2.
    destruct (Hdone o1 H1) as (tr1 & i1 & Htr1 & Hs1).
    destruct (Hdone o2 H2) as (tr2 & i2 & Htr2 & Hs2).
    rewrite Hn, Htr2 in Htr1. injection Htr1 as <-. rewrite Hs2 in Hs1.
    apply (f_equal (.!! o_c o1)) in Hs1. rewrite lookup_singleton_eq in Hs1.
    by apply lookup_singleton_Some in Hs1 as [-> _].
  - unfold bind. destruct (merge_obs rd fam o sm w) as [[sm1|msg] w1] eqn:E; [|done].
    intros Hrun. rewrite cons_middle, app_assoc.
    destruct (merge_obs_returned _ _ _ _ _ _ _ _ Hone Hdone E) as [Hone1 Hdone1].
    by eapply IH.
Qed.

Lemma merge_panic rd fam todo : ∀ sm w msg w',
  foldS (merge_obs rd fam) todo sm w = (Panicked msg, w') →
  msg = "assignment to entry in nil map".
Proof.
  induction todo as [|o todo IH]; intros sm w msg w'; simpl; [done|].
  unfold bind. destruct (merge_obs rd fam o sm w) as [[sm1|msg1] w1] eqn:E.
  - apply IH.
  - intros [= <- _]. by eapply merge_obs_panic.
Qed.

Lemma inj_names_distinct `{RangeOrder} datas :
  inj_names (all_obs datas) → names_distinct datas = true.
Proof.
  intros Hinj. unfold names_distinct.
  apply forallb_forall. intros [c1 m1] H1. apply forallb_forall. intros [c2 m2] H2.
  apply bool_decide_eq_true. simpl. intros Hn.
  apply list_elem_of_In, elem_of_window_pairs, observed_all_obs in H1 as (o1 & Ho1 & <- & <-).
  apply list_elem_of_In, elem_of_window_pairs, observed_all_obs in H2 as (o2 & Ho2 & <- & <-).
  by apply Hinj.
Qed.

(** C2, the defect: the merge returns one fingerprint per pair (c, mac)
    of the window exactly when no two pairs of the window with different
    categories share the name c-mac; on every other window, in whatever
    order the maps are ranged over, it panics on the inner map that was
    never made.  So it does on the sample whose categories a (MAC b-c)
    and a-b (MAC c) both give a-b-c. *)
Theorem mergeDatas_outcome `{RangeOrder} (rollingData : ReverseRollingData)
    (family_ : string) (w : World) :
  merge_outcome rollingData family_ w
  ∧ (mergeDatas (window [colliding] 0) "home" ∅ w).1
    = Panicked "assignment to entry in nil map".
Proof.
  assert (∀ rd fam, names_distinct (rd_Datas rd) = false →
                    (mergeDatas rd fam ∅ w).1 = Panicked "assignment to entry in nil map")
    as Hpanic.
  { intros rd fam Hn. rewrite mergeDatas_flat.
    destruct (foldS _ _ _ _) as [[sm|msg] w'] eqn:E; simpl.
    - apply (merge_returned_inj _ _ _ []) in E.
      + apply inj_names_distinct in E. congruence.
      + intros n tr Htr. by rewrite lookup_empty in Htr.
      + intros o0 Ho0. by apply elem_of_nil in Ho0.
    - f_equal. by eapply merge_panic. }
  split.
  - unfold merge_outcome. destruct (names_distinct (rd_Datas rollingData)) eqn:Hn.
    + by apply distinct_names_transposed.
    + by apply Hpanic.
  - apply Hpanic. vm_compute. reflexivity.
Qed.

(** The two scanners of the passive-transpose scenario. *)
Lemma two_scanners_transposed :
  @window_transposed canonical_order (window [scan1; scan2] 0) "home"
    (world_with (window [scan1; scan2] 0)).
Proof.
  apply (@distinct_names_transposed canonical_order (window [scan1; scan2] 0) "home").
  vm_compute. reflexivity.
Qed.

(** *** The second loop of the parse *)

Lemma processSensorData_nil `{Store} p w :
  ∃ r, processSensorData p [] w
       = (r, emit (SaveCalled p) (set_env (api_SaveSensorData p (db w) (env w)).2 w))
     ∧ (r = Panicked "runtime error: index out of range [0] with length 0"
        ∨ ∃ e, r = Returned (Some e)).
Proof.
  unfold processSensorData, bind, ret, panic.
  destruct (api_SaveSensorData p (db w) (env w)) as [[e|] e1]; simpl; eauto.
Qed.

Lemma emit_loop `{RangeOrder} `{Store} (minimumPassive : Z)
    (l : list (string * SensorData)) : ∀ u w r w',
  foldS (λ '(sensor, tracked) _,
           if numFingerprints (sd_Sensors tracked) <? minimumPassive
           then ret tt
           else _ <- processSensorData tracked [] ;; ret tt) l u w = (r, w') →
  ∃ new,
    trace w' = trace w ++ new
    ∧ (∀ ev, ev ∈ new →
         ∃ n p, ev = SaveCalled p ∧ (n, p) ∈ l
                ∧ minimumPassive ≤ numFingerprints (sd_Sensors p))
    ∧ match r with
      | Returned _ =>
          ∀ n p, (n, p) ∈ l → minimumPassive ≤ numFingerprints (sd_Sensors p) →
                 SaveCalled p ∈ new
      | Panicked msg => msg = "runtime error: index out of range [0] with length 0"
      end.
Proof.
  induction l as [|[n p] l IH]; intros u w r w'; simpl.
  - intros [= <- <-]. exists []. rewrite app_nil_r. split_and!; [done| |].
    + by intros ev ?%elem_of_nil.
    + by intros ?? ?%elem_of_nil.
  - unfold bind at 1.
    destruct (numFingerprints (sd_Sensors p) <? minimumPassive) eqn:Elt; simpl.
    + intros Hrun. apply IH in Hrun as (new & Ht & Hev & Hres).
      exists new. split_and!; [done| |].
      * intros ev Hin. destruct (Hev ev Hin) as (n0 & p0 & ? & ? & ?).
        exists n0, p0. split_and!; [done| |done]. by right.
      * destruct r; [|done].
        intros n0 p0 Hin Hk. apply elem_of_cons in Hin as [[= -> ->]|Hin].
        -- apply Z.ltb_lt in Elt. lia.
        -- by eapply Hres.
    + apply Z.ltb_ge in Elt. unfold bind at 1.
      destruct (processSensorData_nil p w) as (r1 & -> & [-> | [e ->]]); simpl.
      * intros [= <- <-]. exists [SaveCalled p]. split_and!; [done| |done].
        intros ev ->%list_elem_of_singleton. exists n, p. split_and!; [done| |done]. by left.
      * intros Hrun. apply IH in Hrun as (new & Ht & Hev & Hres).
        exists (SaveCalled p :: new). split_and!.
        -- rewrite Ht. simpl. by rewrite <- app_assoc.
        -- intros ev Hin. apply elem_of_cons in Hin as [->|Hin].
           ++ exists n, p. split_and!; [done| |done]. by left.
           ++ destruct (Hev ev Hin) as (n0 & p0 & ? & ? & ?).
              exists n0, p0. split_and!; [done| |done]. by right.
        -- destruct r; [|done].
           intros n0 p0 Hin Hk. apply elem_of_cons in Hin as [[= -> ->]|Hin]; [by left|].
           right. by eapply Hres.
Qed.

(** C5, the defect: the second loop of the parse hands the fingerprints
    that reach [minimumPassive] to the store and no others, but it
    starts no delivery for any of them, whatever the store does: a save
    that fails is only logged, and a save that succeeds is followed by
    the panic on [justSave[0]], which ends the loop.  If the loop
    returns, every fingerprint that reaches [minimumPassive] was handed
    to the store. *)
Theorem emitFingerprints_never_delivers `{RangeOrder} `{Store}
    (rollingData : ReverseRollingData) (sensorMap : gmap string SensorData) (w : World) :
  emission rollingData sensorMap w.
Proof.
  unfold emission, emitFingerprints.
  destruct (foldS _ _ _ _) as [r w'] eqn:E.
  apply emit_loop in E as (new & Ht & Hev & Hres).
  exists new. simpl. split_and!; [done| | |].
  - intros ev Hin. destruct (Hev ev Hin) as (n & p & -> & Hp & Hk).
    exists p. split; [done|]. exists n. split; [by apply elem_of_range|done].
  - intros p Hin. by destruct (Hev _ Hin) as (? & ? & ? & _).
  - destruct r; [|done].
    intros p (n & Hp & Hk). apply (Hres n); [by apply elem_of_range|done].
Qed.

(** On the window of the passive-transpose scenario both fingerprints
    reach [minimumPassive].  With the store that saves through the
    handle it is given, the parse returns: both saves go through the
    package handle, which the parse has closed, so both fail and nothing
    is stored; no delivery is started. *)
Lemma parse_saves_through_closed_handle :
  ∃ fp1 fp2 w',
    @parseRollingData canonical_order (@given_handle_store canonical_order) "home"
      (world_with (window [scan1; scan2] 0)) = (Returned None, w')
    ∧ trace w' = [SaveCalled fp1; SaveCalled fp2]
    ∧ sd_Device fp1 = "bluetooth-cc:dd" ∧ sd_Device fp2 = "bluetooth-aa:bb"
    ∧ isClosed (db w') = true
    ∧ mysql (env w') !! "find3_home" = Some fresh_tables
    ∧ sensors <$> mysql (env w') !! "find3_default" = Some ∅
    ∧ gps <$> mysql (env w') !! "find3_default" = Some [].
Proof.
  eexists _, _, _. split; [vm_compute; reflexivity|].
  split; [reflexivity|]. split_and!; vm_compute; reflexivity.
Qed.

(** C3, the defect: when the save succeeds, [processSensorData(p)]
    without the flag panics on [justSave[0]] after the save and starts
    no delivery; with the flag it behaves as claimed. *)
Theorem processSensorData_without_flag_panics `{Store} (p : SensorData) (w : World) :
  (api_SaveSensorData p (db w) (env w)).1 = None → flag_handling p w.
Proof.
  intros Hsave. unfold flag_handling, processSensorData, bind.
  destruct (api_SaveSensorData p (db w) (env w)) as [err e]. simpl in *. subst err.
  done.
Qed.

(** C3, witness: a valid fingerprint of the family home. *)
Lemma processSensorData_without_flag_panics_witness :
  @flag_handling (@given_handle_store canonical_order) scan1 (world_with (window [] 0)).
Proof.
  apply (@processSensorData_without_flag_panics (@given_handle_store canonical_order)).
  vm_compute. reflexivity.
Defined.

(** C6, amended: when the window is transposed the record written back
    has hasData=false and its datas unchanged; the datas are replaced
    by the new sample alone when [handlerReverse] next finds a record
    without an open window through a working handle. *)
Theorem flush_keeps_datas_until_reopened `{RangeOrder} (family_ : string) (w : World)
    (r : ReverseRollingData) :
  usable w r → due w r → names_distinct (rd_Datas r) = true →
  flush_writes rd_Datas family_ w r
  ∧ ∀ d w2 r2, usable w2 r2 → rd_HasData r2 = false → Validate d = None → reopens d w2.
Proof.
  intros (Hd & Hf & Hst) (Hhas & Hdue) Hnames.
  split; [|intros d w2 r2; apply handlerReverse_reopens].
  apply stored_record_inv in Hst as (t & Ht & Hk).
  destruct (mergeDatas_inv r family_ w Hnames) as (sm & w1 & Hrun & _).
  pose proof Hrun as Hclk. rewrite mergeDatas_flat in Hclk.
  apply foldS_only_clock in Hclk as (He & Hdb & _ & _).
  unfold flush_writes, flushWindow, bind, with_db, time_Now, ret.
  rewrite (Get_ok _ _ t _ (JRolling r)) by done. simpl.
  rewrite Hhas. apply Z.ltb_lt in Hdue. rewrite Hdue. simpl.
  rewrite set_env_id, Hrun. simpl. rewrite Hdb, He.
  rewrite (Set_ok _ _ t) by done. simpl.
  unfold db_Close. simpl.
  match goal with
  | |- context [Close ?d ?e] =>
      pose proof (Close_keeps d e) as [Hn Hm]; destruct (Close d e) as [[err d'] e']
  end.
  simpl in Hn, Hm. eexists _, _, _. split; [reflexivity|]. split; [|done].
  unfold stored_record. simpl. rewrite Hn, Hm, Hdb.
  rewrite lookup_alter_eq, Ht. simpl. by rewrite lookup_insert_eq.
Qed.

(** C6, witness: a window holding one sample, then a second sample on
    the record as written back. *)
Lemma flush_keeps_datas_until_reopened_witness :
  @flush_writes canonical_order rd_Datas "home"
    (world_with (window [scan1] 2)) (window [scan1] 2)
  ∧ @reopens canonical_order scan2
      (world_with (server.set_HasData false (window [scan1] 2))).
Proof.
  destruct (@flush_keeps_datas_until_reopened canonical_order "home"
              (world_with (window [scan1] 2)) (window [scan1] 2)) as [Hflush Hre].
  - by vm_compute.
  - split; [reflexivity|]. vm_compute. reflexivity.
  - by vm_compute.
  - split; [exact Hflush|].
    apply (Hre scan2 _ (server.set_HasData false (window [scan1] 2))).
    + by vm_compute.
    + reflexivity.
    + by vm_compute.
Defined.

End server_proofs.

(** ** The store: reads, round trips and failures *)
Module store_facts.
Import stringsizer database database_claims database_relations range_facts database_proofs.
Import database_reads database_more store_statements.
Local Open Scope go_scope.

Lemma lookup_set_mysql_alter f n env :
  mysql (set_mysql (alter f n) env) !! n = f <$> mysql env !! n.
Proof. simpl. by rewrite lookup_alter_eq. Qed.

(** X1: on a working store [Set] succeeds, whether the key is new or
    not; a [Get] of the key through the same handle then returns what
    was set, a [Get] of any other key returns what it returned before,
    and the other databases are as they were. *)
Theorem Set_then_Get {A} (d : Database) (key : string) (value : jsonval)
    (unmarshal : jsonval → error + A) (env : Env) :
  db_closed d = false → faults env = [] → is_Some (mysql env !! name d) →
  ∃ env', Set_ d key value env = (inr tt, env')
    ∧ Get d key unmarshal env' = (unmarshal value, env')
    ∧ (∀ key', key' ≠ key →
         (Get d key' unmarshal env').1 = (Get d key' unmarshal env).1)
    ∧ ∀ n, n ≠ name d → mysql env' !! n = mysql env !! n.
Proof.
  intros Hd Hf [t Ht]. eexists. split; [by apply (Set_ok d env t)|].
  set (env' := set_mysql _ env).
  assert (mysql env' !! name d = Some (set_keystore <[key := value]> t)) as Ht'.
  { unfold env'. by rewrite lookup_set_mysql_alter, Ht. }
  assert (faults env' = []) as Hf' by done.
  split_and!.
  - apply (Get_ok d env' (set_keystore <[key := value]> t) key value); [done..|].
    simpl. by rewrite lookup_insert_eq.
  - intros key' Hne. unfold Get, bind, wrap, lift, fail.
    repeat (rewrite (sql_call_ok d env' _ Hd Hf' Ht'); simpl).
    repeat (rewrite (sql_call_ok d env t) by done; simpl).
    rewrite lookup_insert_ne by done. by destruct (keystore t !! key').
  - intros n Hn. unfold env'. simpl. by rewrite lookup_alter_ne.
Qed.

(** X1, witness: a key of the store of the family home. *)
Lemma Set_then_Get_witness :
  ∃ env', Set_ (Open "home") "k" (JString (Plain "v")) home_env = (inr tt, env')
    ∧ Get (Open "home") "k" into_string env' = (into_string (JString (Plain "v")), env')
    ∧ (∀ key', key' ≠ "k" →
         (Get (Open "home") key' into_string env').1
         = (Get (Open "home") key' into_string home_env).1)
    ∧ ∀ n, n ≠ name (Open "home") → mysql env' !! n = mysql home_env !! n.
Proof.
  apply (Set_then_Get (Open "home") "k" (JString (Plain "v")) into_string home_env);
    [reflexivity | reflexivity | by vm_compute; eauto].
Defined.

(** X2: on a working store [AddPrediction] of a non-empty list
    succeeds, whether the timestamp has predictions or not;
    [GetPrediction] of the timestamp then returns the list with its
    probabilities truncated, and [GetPrediction] of any other timestamp
    returns what it returned before. *)
Theorem AddPrediction_then_GetPrediction (d : Database) (timestamp : Z)
    (aidata : list LocationPrediction) (env : Env) :
  aidata ≠ [] → working d env →
  ∃ env', AddPrediction d timestamp aidata env = (inr (truncate_prediction <$> aidata), env')
    ∧ GetPrediction d timestamp env' = (inr (truncate_prediction <$> aidata), env')
    ∧ ∀ timestamp', timestamp' ≠ timestamp →
        (GetPrediction d timestamp' env').1 = (GetPrediction d timestamp' env).1.
Proof.
  intros Hne (Hd & Hf & [t Ht]). unfold AddPrediction.
  destruct (decide _) as [Hl|_]; [by destruct aidata|].
  unfold bind, wrap, update_tables, ret.
  repeat (rewrite (sql_call_ok d env t) by done; simpl).
  eexists. split; [reflexivity|].
  set (env' := set_mysql _ env).
  assert (mysql env' !! name d
          = Some (set_location_predictions <[timestamp := truncate_prediction <$> aidata]> t))
    as Ht' by (unfold env'; by rewrite lookup_set_mysql_alter, Ht).
  assert (faults env' = []) as Hf' by done.
  unfold GetPrediction, bind, wrap, ret, fail.
  repeat (rewrite (sql_call_ok d env' _ Hd Hf' Ht'); simpl).
  repeat (rewrite (sql_call_ok d env t) by done; simpl).
  rewrite lookup_insert_eq. split; [done|].
  intros ts' Hts. rewrite lookup_insert_ne by done.
  by destruct (location_predictions t !! ts').
Qed.

(** X2, witness: the guess 0.575 on the store of the family home. *)
Lemma AddPrediction_then_GetPrediction_witness :
  ∃ env', AddPrediction (Open "home") 1000 kitchen_0575 home_env
          = (inr (truncate_prediction <$> kitchen_0575), env')
    ∧ GetPrediction (Open "home") 1000 env' = (inr (truncate_prediction <$> kitchen_0575), env')
    ∧ ∀ timestamp', timestamp' ≠ 1000 →
        (GetPrediction (Open "home") timestamp' env').1
        = (GetPrediction (Open "home") timestamp' home_env).1.
Proof.
  apply (AddPrediction_then_GetPrediction (Open "home") 1000 kitchen_0575 home_env);
    [discriminate | by vm_compute; eauto].
Defined.

Lemma sql_call_closed d env :
  db_closed d = true → sql_call d env = (inl (errors_New "sql: database is closed"), env).
Proof. intros Hd. unfold sql_call. by rewrite Hd. Qed.

(** X3: once [Close] has run on a handle, every method called through
    it, [Columns], [Get], [Set], [AddSensor], [AddPrediction],
    [GetPrediction], [SetGPS] and [GetLatest], returns an error and
    leaves the server as it is. *)
Theorem closed_handle_fails `{RangeOrder} (d : Database) (env0 env : Env) :
  isClosed d = false →
  let d' := (Close d env0).1.2 in
  fails_untouched (Columns d') env
  ∧ (∀ A key (unmarshal : jsonval → error + A), fails_untouched (Get d' key unmarshal) env)
  ∧ (∀ key value, fails_untouched (Set_ d' key value) env)
  ∧ (∀ s, fails_untouched (AddSensor d' s) env)
  ∧ (∀ timestamp aidata, fails_untouched (AddPrediction d' timestamp aidata) env)
  ∧ (∀ timestamp, fails_untouched (GetPrediction d' timestamp) env)
  ∧ (∀ p, fails_untouched (SetGPS d' p) env)
  ∧ (∀ device, fails_untouched (GetLatest d' device) env).
Proof.
  intros Hc d'.
  assert (db_closed d' = true) as Hd.
  { unfold d', Close. rewrite Hc. by destruct (sql_Close d env0). }
  pose proof (sql_call_closed d' env Hd) as Hs.
  unfold fails_untouched.
  split_and!; intros;
    unfold Columns, Get, Set_, AddSensor, Columns, AddPrediction, GetPrediction, SetGPS,
      Begin, GetLatest, GetAllFromPreparedQuery, bind, wrap, fail;
    try destruct (decide _); rewrite ?Hs; simpl; eauto.
Qed.

(** X3, witness: the handle of the family home. *)
Lemma closed_handle_fails_witness :
  let d' := (Close (Open "home") home_env).1.2 in
  fails_untouched (Columns d') home_env
  ∧ (∀ A key (unmarshal : jsonval → error + A), fails_untouched (Get d' key unmarshal) home_env)
  ∧ (∀ key value, fails_untouched (Set_ d' key value) home_env)
  ∧ (∀ s, fails_untouched (@AddSensor canonical_order d' s) home_env)
  ∧ (∀ timestamp aidata, fails_untouched (AddPrediction d' timestamp aidata) home_env)
  ∧ (∀ timestamp, fails_untouched (GetPrediction d' timestamp) home_env)
  ∧ (∀ p, fails_untouched (@SetGPS canonical_order d' p) home_env)
  ∧ (∀ device, fails_untouched (GetLatest d' device) home_env).
Proof. apply (@closed_handle_fails canonical_order (Open "home") home_env home_env). reflexivity. Defined.

(** *** Runs, call by call *)

Lemma bind_run {A B} (m : M A) (k : A → M B) env r env' :
  bind m k env = (r, env') →
  (∃ e, m env = (inl e, env') ∧ r = inl e)
  ∨ ∃ a env1, m env = (inr a, env1) ∧ k a env1 = (r, env').
Proof. unfold bind. destruct (m env) as [[e|a] env1]; intros; simplify_eq; eauto. Qed.

Lemma wrap_run {A} msg (m : M A) env r env' :
  wrap msg m env = (r, env') →
  (∃ e, m env = (inl e, env') ∧ r = inl (errors_Wrap e msg))
  ∨ ∃ a, m env = (inr a, env') ∧ r = inr a.
Proof. unfold wrap. destruct (m env) as [[e|a] env1]; intros; simplify_eq; eauto. Qed.

Lemma untouched_refl env : untouched env env.
Proof. by repeat split. Qed.

Lemma untouched_trans e1 e2 e3 : untouched e1 e2 → untouched e2 e3 → untouched e1 e3.
Proof. intros [H1 F1] [H2 F2]. split; [by eapply same_data_trans|auto]. Qed.

Lemma untouched_mysql env env' : untouched env env' → mysql env' = mysql env.
Proof. by intros [(? & _) _]. Qed.

Lemma keeps_untouched_sql_call d : keeps untouched (sql_call d).
Proof.
  intros env r env' Hc. split; [by apply sql_call_inv in Hc as [? _]|].
  intros Hf. unfold sql_call in Hc. rewrite Hf in Hc.
  destruct (db_closed d); [by simplify_eq|]. simpl in Hc.
  destruct (mysql env !! name d); by simplify_eq.
Qed.

Lemma keeps_Columns d : keeps untouched (Columns d).
Proof.
  unfold Columns. apply (keeps_bind _ untouched_trans).
  - apply keeps_wrap, keeps_untouched_sql_call.
  - intros ?. apply (keeps_ret _ untouched_refl).
Qed.

Lemma keeps_Get {A} d key (unmarshal : jsonval → error + A) :
  keeps untouched (Get d key unmarshal).
Proof.
  unfold Get.
  repeat (apply (keeps_bind _ untouched_trans);
          [apply keeps_wrap, keeps_untouched_sql_call|intros ?]).
  destruct (_ !! _); [apply (keeps_lift _ untouched_refl)|apply (keeps_fail _ untouched_refl)].
Qed.

Lemma keeps_prepare_insert_sensors d named : keeps untouched (prepare_insert_sensors d named).
Proof.
  unfold prepare_insert_sensors. apply (keeps_bind _ untouched_trans).
  - apply keeps_untouched_sql_call.
  - intros ?. destruct (forallb _ _);
      [apply (keeps_ret _ untouched_refl)|apply (keeps_fail _ untouched_refl)].
Qed.

(** The plain insert refuses a timestamp that has a row. *)
Lemma exec_insert_sensors_duplicate d timestamp row env t r env' :
  mysql env !! name d = Some t → is_Some (sensors t !! timestamp) →
  exec_insert_sensors d timestamp row env = (r, env') →
  untouched env env' ∧ ∃ e, r = inl e.
Proof.
  intros Ht [old Hold]. unfold exec_insert_sensors. intros Hrun.
  apply bind_run in Hrun as [(e & Hrun & ->)|(t' & env1 & Hcall & Hrun)].
  - apply keeps_untouched_sql_call in Hrun. eauto.
  - pose proof (keeps_untouched_sql_call _ _ _ _ Hcall) as Hu.
    apply sql_call_inr in Hcall as (_ & Ht' & _).
    rewrite Ht in Ht'. simplify_eq. rewrite Hold in Hrun.
    unfold fail in Hrun. simplify_eq. eauto.
Qed.

(** [AddSensor] on a timestamp that has a row. *)
Lemma AddSensor_duplicate `{RangeOrder} d s env t :
  mysql env !! name d = Some t → is_Some (sensors t !! sd_Timestamp s) →
  ∃ e env', AddSensor d s env = (inl e, env') ∧ untouched env env'.
Proof.
  intros Ht Hrow.
  destruct (AddSensor d s env) as [r env'] eqn:Hrun.
  assert (untouched env env' ∧ ∃ e, r = inl e) as [Hm [e ->]]; [|by eauto].
  unfold AddSensor in Hrun.
  apply bind_run in Hrun as [(e & Hrun & ->)|(columnList & env1 & H1 & Hrun)];
    [apply keeps_Columns in Hrun; eauto|apply keeps_Columns in H1].
  apply bind_run in Hrun as [(e & Hrun & ->)|(text & env2 & H2 & Hrun)];
    [apply keeps_Get in Hrun; split; [by eapply untouched_trans|eauto]|apply keeps_Get in H2].
  pose proof (untouched_trans _ _ _ H1 H2) as H12.
  apply bind_run in Hrun as [(e & Hrun & ->)|(ss & env3 & H3 & Hrun)];
    [unfold lift in Hrun; simplify_eq; eauto|unfold lift in H3; simplify_eq].
  destruct (ShrinkMapToString ss _) as [bluetooth ss'].
  apply bind_run in Hrun as [(e & Hrun & ->)|([] & env4 & H4 & Hrun)].
  { apply wrap_run in Hrun as [(e' & Hrun & ?)|(? & ? & ?)]; [|done].
    apply keeps_prepare_insert_sensors in Hrun. split; [by eapply untouched_trans|eauto]. }
  apply wrap_run in H4 as [(? & ? & ?)|(? & H4 & _)]; [done|].
  apply keeps_prepare_insert_sensors in H4.
  pose proof (untouched_trans _ _ _ H12 H4) as H14.
  assert (mysql env4 !! name d = Some t) as Ht4 by by rewrite (untouched_mysql _ _ H14).
  apply bind_run in Hrun as [(e & Hrun & ->)|([] & env5 & H5 & Hrun)].
  - apply wrap_run in Hrun as [(e' & Hrun & ?)|(? & ? & ?)]; [|done].
    eapply exec_insert_sensors_duplicate in Hrun as [H5 _]; [|done..].
    split; [by eapply untouched_trans|eauto].
  - apply wrap_run in H5 as [(? & ? & ?)|(? & H5 & _)]; [done|].
    eapply exec_insert_sensors_duplicate in H5 as [_ [? ?]]; done.
Qed.

(** X4: [AddSensor] does not replace a row: whenever the [sensors]
    table of the database of the handle holds a row at the timestamp of
    the fingerprint, whoever wrote it, [AddSensor] fails and changes
    neither a table nor the open transactions. *)
Theorem AddSensor_is_no_upsert `{RangeOrder} (d : Database) (s : SensorData)
    (env : Env) (t : Tables) :
  mysql env !! name d = Some t → is_Some (sensors t !! sd_Timestamp s) →
  ∃ e env', AddSensor d s env = (inl e, env')
    ∧ mysql env' = mysql env ∧ open_txs env' = open_txs env.
Proof.
  intros Ht Hrow.
  destruct (AddSensor_duplicate d s env t Ht Hrow) as (e & env' & Hrun & (Hm & Ho & _) & _).
  by exists e, env'.
Qed.

(** X4, witness: the same fingerprint once more, on the store as its
    first [AddSensor] has left it. *)
Lemma AddSensor_is_no_upsert_witness :
  ∃ e env',
    @AddSensor canonical_order (Open "home") two_macs
      (@AddSensor canonical_order (Open "home") two_macs home_env).2 = (inl e, env')
    ∧ mysql env' = mysql (@AddSensor canonical_order (Open "home") two_macs home_env).2
    ∧ open_txs env' = open_txs (@AddSensor canonical_order (Open "home") two_macs home_env).2.
Proof.
  eapply (@AddSensor_is_no_upsert canonical_order (Open "home") two_macs).
  - vm_compute. reflexivity.
  - eexists. vm_compute. reflexivity.
Defined.

(** A statement that selects no row, on a store whose dictionary can be
    read, yields the empty list. *)
Lemma GetAllFromPreparedQuery_no_row d q env t ss :
  db_closed d = false → faults env = [] → mysql env !! name d = Some t →
  keystore t !! "sensorDataStringSizer" = Some (JString (Saved ss)) →
  result_set q t = [] →
  GetAllFromPreparedQuery d q env = (inr [], env).
Proof.
  intros Hd Hf Ht Hk Hq.
  unfold GetAllFromPreparedQuery, Query, getRows, Get.
  unfold bind, wrap, lift, ret, fail.
  repeat (rewrite (sql_call_ok d env t) by done; simpl).
  rewrite Hk. simpl. rewrite Hq. simpl.
  unfold bind, wrap, ret, rows_Next. rewrite Hf. simpl.
  by rewrite (set_faults_id env) by done.
Qed.

(** X6: on a working store whose dictionary can be read,
    [GetSensorFromTime] of a timestamp that has no row panics: it takes
    element 0 of an empty result. *)
Theorem GetSensorFromTime_no_row (d : Database) (timestamp : Z) (env : Env) (t : Tables)
    (ss : StringSizer) :
  db_closed d = false → faults env = [] → mysql env !! name d = Some t →
  keystore t !! "sensorDataStringSizer" = Some (JString (Saved ss)) →
  sensors t !! timestamp = None →
  GetSensorFromTime d timestamp env
  = (server.Panicked "runtime error: index out of range [0] with length 0", env).
Proof.
  intros Hd Hf Ht Hk Hs. unfold GetSensorFromTime.
  rewrite (GetAllFromPreparedQuery_no_row d _ env t ss) by (simpl; by rewrite ?Hs).
  done.
Qed.

(** X6, witness: the empty store of the family home. *)
Lemma GetSensorFromTime_no_row_witness :
  GetSensorFromTime (Open "home") 1000 home_env
  = (server.Panicked "runtime error: index out of range [0] with length 0", home_env).
Proof.
  apply (GetSensorFromTime_no_row (Open "home") 1000 home_env fresh_tables (mkSizer []));
    reflexivity.
Defined.


Lemma filter_none {A} (P : A → Prop) `{∀ x, Decision (P x)} (l : list A) :
  (∀ x, x ∈ l → ¬ P x) → filter P l = [].
Proof.
  induction l as [|x l IH]; intros Hl; [done|].
  rewrite filter_cons_False by (apply Hl; left). apply IH. intros y Hy. apply Hl. by right.
Qed.

(** X7: on a working store whose dictionary can be read, [GetLatest]
    of a device that has no row returns the error "no rows found" and
    changes nothing. *)
Theorem GetLatest_unknown_device (d : Database) (device : string) (env : Env) (t : Tables)
    (ss : StringSizer) :
  db_closed d = false → faults env = [] → mysql env !! name d = Some t →
  keystore t !! "sensorDataStringSizer" = Some (JString (Saved ss)) →
  (∀ timestamp row, sensors t !! timestamp = Some row → deviceid row ≠ TrimSpace device) →
  GetLatest d device env = (inl (errors_New "no rows found"), env).
Proof.
  intros Hd Hf Ht Hk Hs. unfold GetLatest, bind.
  rewrite (GetAllFromPreparedQuery_no_row d _ env t ss); [done..|].
  simpl. rewrite filter_none; [done|].
  intros [timestamp row] Hin%elem_of_map_to_list. simpl. by apply (Hs timestamp).
Qed.

(** X7, witness: the empty store of the family home. *)
Lemma GetLatest_unknown_device_witness :
  GetLatest (Open "home") "phone" home_env = (inl (errors_New "no rows found"), home_env).
Proof.
  apply (GetLatest_unknown_device (Open "home") "phone" home_env fresh_tables (mkSizer []));
    try reflexivity.
  intros timestamp row Hrow. simpl in Hrow. by rewrite lookup_empty in Hrow.
Defined.

Lemma index_of_lookup k l i : index_of k l = Some i → l !! i = Some k.
Proof.
  revert i. induction l as [|k' l IH]; intros i; simpl; [done|].
  destruct (decide (k = k')) as [->|Hne]; [by intros [= <-]|].
  destruct (index_of k l) as [j|]; simpl; [|done]. intros [= <-]. simpl. by apply IH.
Qed.

(** A key's token stands for the key in the dictionary that
    [shrink_key] returns, which extends the one it was given. *)
Lemma shrink_key_spec ss k :
  dict (shrink_key ss k).2 !! (shrink_key ss k).1 = Some k
  ∧ ∃ ext, dict (shrink_key ss k).2 = dict ss ++ ext.
Proof.
  unfold shrink_key. destruct (index_of k (dict ss)) as [i|] eqn:E; simpl.
  - split; [by apply index_of_lookup|]. exists []. by rewrite app_nil_r.
  - split; [|by eauto]. unfold Current.
    rewrite lookup_app_r by done. by rewrite Nat.sub_diag.
Qed.

(** The dictionary changes exactly when the next token does. *)
Lemma shrink_key_Current ss k :
  Current (shrink_key ss k).2 = Current ss → (shrink_key ss k).2 = ss.
Proof.
  unfold shrink_key, Current. destruct (index_of k (dict ss)); simpl; [done|].
  rewrite length_app. simpl. lia.
Qed.



(** Decoding with a longer dictionary. *)
Lemma ExpandMapFromString_ext ss ss' s m ext :
  dict ss' = dict ss ++ ext →
  ExpandMapFromString ss s = inr m → ExpandMapFromString ss' s = inr m.
Proof.
  intros Hext. revert m. induction s as [|[tok v] s IH]; intros m; simpl; [done|].
  destruct (dict ss !! tok) as [k|] eqn:Hk; [|done].
  rewrite Hext, (lookup_app_l_Some _ _ _ _ Hk).
  destruct (ExpandMapFromString ss s) as [e|m']; [done|]. intros [= <-].
  by rewrite (IH m').
Qed.


(** What the encoding of a list of pairs decodes to. *)
Lemma shrink_fold_spec l : ∀ out ss out' ss',
  foldl shrink_step (out, ss) l = (out', ss') →
  ∃ new ext, out' = out ++ new ∧ dict ss' = dict ss ++ ext
    ∧ length (dict ss') = (length (dict ss) + length ext)%nat
    ∧ ExpandMapFromString ss' new = inr (list_to_map l).
Proof.
  induction l as [|[k v] l IH]; intros out ss out' ss'; simpl.
  - intros [= <- <-]. exists [], []. by rewrite !app_nil_r.
  - destruct (shrink_key ss k) as [tok ss1] eqn:Hk.
    pose proof (shrink_key_spec ss k) as [Htok [ext1 Hext1]]. rewrite Hk in Htok, Hext1.
    simpl in Htok, Hext1.
    intros Hrun. apply IH in Hrun as (new & ext & -> & Hext & _ & Hexp).
    exists ((tok, v) :: new), (ext1 ++ ext). split_and!.
    + by rewrite <- app_assoc.
    + by rewrite Hext, Hext1, app_assoc.
    + rewrite Hext, Hext1, !length_app. lia.
    + simpl. rewrite Hext, (lookup_app_l_Some _ _ _ _ Htok), Hexp. done.
Qed.

(** Decoding what [ShrinkMapToString] returns, with the dictionary it
    returns, gives back the map. *)
Lemma Expand_Shrink `{RangeOrder} ss m :
  ExpandMapFromString (ShrinkMapToString ss m).2 (ShrinkMapToString ss m).1 = inr m.
Proof.
  change (ShrinkMapToString ss m) with (foldl shrink_step ([], ss) (range m)).
  destruct (foldl shrink_step ([], ss) (range m)) as [out ss'] eqn:Hrun.
  apply shrink_fold_spec in Hrun as (new & ext & -> & _ & _ & Hexp). simpl.
  rewrite Hexp. f_equal.
  rewrite <- (list_to_map_to_list m) at 2.
  apply list_to_map_proper; [apply NoDup_fst_range|apply range_perm].
Qed.

(** The dictionary that [ShrinkMapToString] returns is the one it was
    given unless the next token has changed. *)
Lemma Shrink_Current `{RangeOrder} ss m :
  Current (ShrinkMapToString ss m).2 = Current ss → (ShrinkMapToString ss m).2 = ss.
Proof.
  change (ShrinkMapToString ss m) with (foldl shrink_step ([], ss) (range m)).
  destruct (foldl shrink_step ([], ss) (range m)) as [out ss'] eqn:Hrun.
  apply shrink_fold_spec in Hrun as (new & ext & _ & Hext & Hlen & _). simpl.
  unfold Current. intros Hc. destruct ss as [l], ss' as [l']. simpl in *.
  destruct ext; [by rewrite app_nil_r in Hext; subst|simpl in Hlen; lia].
Qed.

Lemma AddSensor_run `{RangeOrder} d s env t ss :
  db_closed d = false → faults env = [] → mysql env !! name d = Some t →
  keystore t !! "sensorDataStringSizer" = Some (JString (Saved ss)) →
  ["timestamp"; "deviceid"; "locationid"; "bluetooth"] ⊆ sensors_columns t →
  sensors t !! sd_Timestamp s = None →
  ∃ env' t', AddSensor d s env = (inr tt, env')
    ∧ faults env' = [] ∧ mysql env' !! name d = Some t'
    ∧ sensors_columns t' = sensors_columns t
    ∧ sensors t' = <[sd_Timestamp s :=
          mkSensorRow (sd_Device s) (sd_Location s)
            {[ "bluetooth" :=
                 (ShrinkMapToString ss (default ∅ (sd_Sensors s !! "bluetooth"))).1 ]}]>
        (sensors t)
    ∧ keystore t' !! "sensorDataStringSizer"
      = Some (JString (Saved (ShrinkMapToString ss (default ∅ (sd_Sensors s !! "bluetooth"))).2)).
Proof.
  intros Hd Hf Ht Hk Hc Hs.
  unfold AddSensor, Columns, Get, Set_, prepare_insert_sensors, exec_insert_sensors.
  unfold bind, wrap, lift, ret, fail.
  repeat (rewrite (sql_call_ok d env t) by done; simpl).
  rewrite Hk. simpl.
  pose proof (Shrink_Current ss (default ∅ (sd_Sensors s !! "bluetooth"))) as Hcur.
  destruct (ShrinkMapToString ss _) as [bluetooth ss'].
  repeat (rewrite (sql_call_ok d env t) by done; simpl).
  assert (∀ c, c ∈ ["timestamp"; "deviceid"; "locationid"; "bluetooth"] →
               bool_decide (c ∈ sensors_columns t) = true) as Hb.
  { intros c Hin. apply bool_decide_eq_true, Hc, Hin. }
  rewrite !Hb by set_solver. simpl.
  repeat (rewrite (sql_call_ok d env t) by done; simpl).
  rewrite Hs. unfold update_tables.
  destruct (decide _) as [Hne|Heq].
  - repeat (erewrite sql_call_ok; [simpl| done | done |
                                   by simpl; rewrite lookup_alter_eq, Ht]).
    eexists _, _. split; [reflexivity|]. simpl.
    rewrite !lookup_alter_eq, Ht. simpl. split_and!; try done.
    unfold set_keystore. simpl. by rewrite lookup_insert_eq.
  - eexists _, _. split; [reflexivity|]. simpl.
    rewrite !lookup_alter_eq, Ht. simpl. split_and!; try done.
    unfold set_sensors. simpl. rewrite Hk. simpl in Hcur. rewrite Hcur; [done|].
    by destruct (decide (Current ss = Current ss')); [|exfalso; apply Heq; congruence].
Qed.

(** X8: what survives a save.  On a working store with the four
    columns of the insert statement, the fingerprint that [AddSensor]
    has stored is read back by [GetSensorFromTime] with its timestamp,
    device, location and bluetooth readings; its family is that of the
    handle, its position is zero and its other categories are gone. *)
Theorem AddSensor_then_GetSensorFromTime `{RangeOrder} (d : Database) (s : SensorData)
    (env : Env) (t : Tables) (ss : StringSizer) :
  db_closed d = false → faults env = [] → mysql env !! name d = Some t →
  keystore t !! "sensorDataStringSizer" = Some (JString (Saved ss)) →
  sensors_columns t = ["timestamp"; "deviceid"; "locationid"; "bluetooth"] →
  sensors t !! sd_Timestamp s = None →
  ∃ env', AddSensor d s env = (inr tt, env')
    ∧ GetSensorFromTime d (sd_Timestamp s) env'
      = (server.Returned
           (inr (mkSensorData (sd_Timestamp s) (family d) (sd_Device s) (sd_Location s)
                   GPS_zero {[ "bluetooth" := default ∅ (sd_Sensors s !! "bluetooth") ]})),
         env').
Proof.
  intros Hd Hf Ht Hk Hc Hs.
  destruct (AddSensor_run d s env t ss) as (env' & t' & Hrun & Hf' & Ht' & Hc' & Hs' & Hk');
    [done..|by rewrite Hc|done|].
  exists env'. split; [done|].
  unfold GetSensorFromTime, GetAllFromPreparedQuery, Query, getRows, Get.
  unfold bind, wrap, lift, ret, fail.
  repeat (rewrite (sql_call_ok d env' t') by done; simpl).
  rewrite Hk'. simpl.
  repeat (rewrite (sql_call_ok d env' t') by done; simpl).
  rewrite Hs', lookup_insert_eq, Hc', Hc. simpl.
  unfold bind, wrap, lift, ret, fail, rows_Next. rewrite Hf'. simpl.
  rewrite (set_faults_id env') by done.
  rewrite lookup_singleton_eq. simpl.
  rewrite Expand_Shrink. simpl. rewrite Hf'. simpl.
  by rewrite (set_faults_id env') by done.
Qed.

(** X8, witness: a fingerprint with two bluetooth readings and a position. *)
Lemma AddSensor_then_GetSensorFromTime_witness :
  ∃ env', @AddSensor canonical_order (Open "home") two_macs home_env = (inr tt, env')
    ∧ GetSensorFromTime (Open "home") 2000 env'
      = (server.Returned
           (inr (mkSensorData 2000 "home" "phone" "kitchen" GPS_zero
                   {[ "bluetooth" := {[ "aa:bb" := INum (-50); "cc:dd" := INum (-55) ]} ]})),
         env').
Proof.
  apply (@AddSensor_then_GetSensorFromTime canonical_order (Open "home") two_macs home_env
           fresh_tables (mkSizer [])); reflexivity.
Defined.

(** *** [api.SaveSensorData] and the position *)

Lemma gps_untouched_refl env : gps_untouched env env.
Proof. by split. Qed.

Lemma gps_untouched_trans e1 e2 e3 :
  gps_untouched e1 e2 → gps_untouched e2 e3 → gps_untouched e1 e3.
Proof. intros [H1 O1] [H2 O2]. split; [intros n; by rewrite H2, H1|congruence]. Qed.

Lemma same_data_gps env env' : same_data env env' → gps_untouched env env'.
Proof. intros (Hm & Ho & _). split; [intros n; by rewrite Hm|done]. Qed.

Lemma update_gps d f env :
  (∀ t, gps (f t) = gps t) → gps_untouched env (set_mysql (alter f (name d)) env).
Proof.
  intros Hf. split; [|done]. intros n. simpl.
  destruct (decide (name d = n)) as [->|Hne].
  - rewrite lookup_alter_eq. destruct (mysql env !! n); simpl; [by rewrite Hf|done].
  - by rewrite lookup_alter_ne.
Qed.

Lemma AddSensor_keeps_gps `{RangeOrder} d s : keeps gps_untouched (AddSensor d s).
Proof.
  pose proof gps_untouched_refl as Hr. pose proof gps_untouched_trans as Ht.
  pose proof (λ d, keeps_sql_call gps_untouched d same_data_gps) as Hs.
  unfold AddSensor, Columns, Get, Set_, prepare_insert_sensors, exec_insert_sensors.
  repeat first
    [ apply (keeps_bind _ Ht); [|intros ?]
    | apply keeps_wrap
    | apply (keeps_ret _ Hr) | apply (keeps_fail _ Hr) | apply (keeps_lift _ Hr)
    | apply Hs
    | done
    | match goal with
      | |- keeps _ (match ?x with _ => _ end) => destruct x
      | |- keeps _ (let '(_, _) := ?x in _) => destruct x
      | |- keeps _ (if ?x then _ else _) => destruct x
      | |- keeps _ (update_tables _ _) =>
          intros ? ? ? [= _ <-]; apply update_gps; by intros []
      end ].
Qed.

Lemma Close_tables d env :
  mysql (Close d env).2 = mysql env ∧ open_txs (Close d env).2 = open_txs env.
Proof.
  unfold Close, sql_Close. destruct (isClosed d); [done|].
  destruct (db_closed d); [done|]. by destruct (faults env) as [|[] ?].
Qed.

(** X9: [api.SaveSensorData] calls [SetGPS] only if both latitude and
    longitude differ from 0: for a fingerprint whose latitude or
    longitude is 0 it leaves every [gps] table and the open transactions
    as they are. *)
Theorem SaveSensorData_drops_position_at_zero `{RangeOrder} (s : SensorData) (env : Env) :
  PrimFloat.eqb (Latitude (sd_GPS s)) 0 = true
  ∨ PrimFloat.eqb (Longitude (sd_GPS s)) 0 = true →
  gps_untouched env (api.SaveSensorData s env).2.
Proof.
  intros Hzero. unfold api.SaveSensorData.
  destruct (Validate s); [apply gps_untouched_refl|].
  destruct (AddSensor (Open (sd_Family s)) s env) as [r env1] eqn:Hadd.
  apply AddSensor_keeps_gps in Hadd.
  replace (negb (PrimFloat.eqb (Longitude (sd_GPS s)) 0)
           && negb (PrimFloat.eqb (Latitude (sd_GPS s)) 0)) with false
    by (destruct Hzero as [-> | ->]; simpl; [by rewrite andb_false_r|done]).
  pose proof (Close_tables (Open (sd_Family s)) env1) as [Hm Ho].
  destruct (Close (Open (sd_Family s)) env1) as [[err d'] env2]. simpl in *.
  destruct Hadd as [Hg Ht]. split; [intros n; by rewrite Hm, Hg|congruence].
Qed.

(** X9, witness: a fingerprint taken on the equator. *)
Lemma SaveSensorData_drops_position_at_zero_witness :
  gps_untouched home_env (@api.SaveSensorData canonical_order on_equator home_env).2.
Proof.
  apply (@SaveSensorData_drops_position_at_zero canonical_order on_equator home_env).
  left. reflexivity.
Defined.

Lemma no_gps_activity_refl env : no_gps_activity env env.
Proof. split; [apply gps_untouched_refl|done]. Qed.

Lemma no_gps_activity_trans e1 e2 e3 :
  no_gps_activity e1 e2 → no_gps_activity e2 e3 → no_gps_activity e1 e3.
Proof.
  intros (G1 & C1 & F1) (G2 & C2 & F2).
  split; [by eapply gps_untouched_trans|]. split; [congruence|auto].
Qed.

Lemma untouched_no_gps_activity env env' : untouched env env' → no_gps_activity env env'.
Proof.
  intros [Hs Hf]. split; [by apply same_data_gps|]. by destruct Hs as (_ & _ & ? & _).
Qed.

Lemma AddSensor_no_gps_activity `{RangeOrder} d s : keeps no_gps_activity (AddSensor d s).
Proof.
  pose proof no_gps_activity_refl as Hr. pose proof no_gps_activity_trans as Ht.
  assert (∀ d, keeps no_gps_activity (sql_call d)) as Hs.
  { intros d0 env r env' Hc. by apply keeps_untouched_sql_call, untouched_no_gps_activity in Hc. }
  unfold AddSensor, Columns, Get, Set_, prepare_insert_sensors, exec_insert_sensors.
  repeat first
    [ apply (keeps_bind _ Ht); [|intros ?]
    | apply keeps_wrap
    | apply (keeps_ret _ Hr) | apply (keeps_fail _ Hr) | apply (keeps_lift _ Hr)
    | apply Hs
    | done
    | match goal with
      | |- keeps _ (match ?x with _ => _ end) => destruct x
      | |- keeps _ (let '(_, _) := ?x in _) => destruct x
      | |- keeps _ (if ?x then _ else _) => destruct x
      | |- keeps _ (update_tables _ _) =>
          intros ? ? ? [= _ <-]; split; [apply update_gps; by intros []|done]
      end ].
Qed.

(** X10: [api.SaveSensorData] returns what [AddSensor] has returned and
    drops the outcome of [SetGPS], which stores no position: MySQL
    refuses the statement that [SetGPS] prepares.  For a valid
    fingerprint with a position, on a store without driver faults that
    has the database of the family, the result is the error of
    [AddSensor], or nil if it has none; every [gps] table is as before;
    and the transaction that [SetGPS] began stays open, without a row. *)
Theorem SaveSensorData_stores_no_position `{RangeOrder} (s : SensorData) (env : Env) :
  Validate s = None →
  PrimFloat.eqb (Latitude (sd_GPS s)) 0 = false →
  PrimFloat.eqb (Longitude (sd_GPS s)) 0 = false →
  faults env = [] → is_Some (mysql env !! name (Open (sd_Family s))) →
  (api.SaveSensorData s env).1
  = match (AddSensor (Open (sd_Family s)) s env).1 with
    | inl e => Some e
    | inr _ => None
    end
  ∧ (∀ n, gps <$> mysql (api.SaveSensorData s env).2 !! n = gps <$> mysql env !! n)
  ∧ open_txs (api.SaveSensorData s env).2
    = <[tx_count env := mkTx (name (Open (sd_Family s))) []]> (open_txs env).
Proof.
  intros Hv Hlat Hlon Hf Hdb. unfold api.SaveSensorData. rewrite Hv, Hlat, Hlon.
  set (d := Open (sd_Family s)) in *.
  destruct (AddSensor d s env) as [r env1] eqn:Hadd.
  apply AddSensor_no_gps_activity in Hadd as ((Hg & Ho) & Hc & Hf1).
  specialize (Hf1 Hf).
  assert (∃ t1, mysql env1 !! name d = Some t1) as [t1 Ht1].
  { apply fmap_is_Some with (f := gps). rewrite Hg. by apply fmap_is_Some. }
  simpl. rewrite SetGPS_unfold.
  rewrite (sql_call_ok d env1 t1) by done.
  erewrite sql_call_ok; [|done..]. simpl.
  match goal with
  | |- context [Close d ?e] =>
      pose proof (Close_tables d e) as [Hmc Hoc]; destruct (Close d e) as [[err d'] env3]
  end.
  simpl in *. split_and!; [done| |].
  - intros n. by rewrite Hmc, Hg.
  - by rewrite Hoc, Ho, Hc.
Qed.

(** X10, witness: a fingerprint with a position whose timestamp has a
    row: the insert is refused, its error is the result, and
    transaction 0 stays open. *)
Lemma SaveSensorData_stores_no_position_witness :
  (@api.SaveSensorData canonical_order two_macs home_with_row).1
  = match (@AddSensor canonical_order (Open "home") two_macs home_with_row).1 with
    | inl e => Some e
    | inr _ => None
    end
  ∧ (∀ n, gps <$> mysql (@api.SaveSensorData canonical_order two_macs home_with_row).2 !! n
          = gps <$> mysql home_with_row !! n)
  ∧ open_txs (@api.SaveSensorData canonical_order two_macs home_with_row).2
    = <[0%nat := mkTx "find3_home" []]> ∅.
Proof.
  apply (@SaveSensorData_stores_no_position canonical_order two_macs home_with_row);
    try reflexivity.
  eexists. reflexivity.
Defined.

(** *** A fault while the dictionary is saved *)

Lemma sql_call_passes d env fs t :
  db_closed d = false → faults env = false :: fs → mysql env !! name d = Some t →
  sql_call d env = (inr t, set_faults fs env).
Proof. intros Hd Hf Ht. unfold sql_call. rewrite Hd, Hf. simpl. by rewrite Ht. Qed.

Lemma sql_call_faults d env fs :
  db_closed d = false → faults env = true :: fs →
  sql_call d env = (inl (errors_New "driver: bad connection"), set_faults fs env).
Proof. intros Hd Hf. unfold sql_call. by rewrite Hd, Hf. Qed.

(** X5: [AddSensor] inserts the row before it saves the dictionary.
    When the fingerprint brings a key that is new to the dictionary and
    the driver fails as the dictionary is written, [AddSensor] returns
    an error although the row is in the table, and the stored
    dictionary is the old one. *)
Theorem AddSensor_fails_after_insert `{RangeOrder} (d : Database) (s : SensorData)
    (env : Env) (t : Tables) (ss : StringSizer) (fs : list bool) :
  db_closed d = false →
  faults env = [false; false; false; false; false; true] ++ fs →
  mysql env !! name d = Some t →
  keystore t !! "sensorDataStringSizer" = Some (JString (Saved ss)) →
  ["timestamp"; "deviceid"; "locationid"; "bluetooth"] ⊆ sensors_columns t →
  sensors t !! sd_Timestamp s = None →
  Current (ShrinkMapToString ss (default ∅ (sd_Sensors s !! "bluetooth"))).2 ≠ Current ss →
  ∃ e env',
    AddSensor d s env = (inl e, env')
    ∧ mysql env'
      = <[name d :=
            set_sensors
              <[sd_Timestamp s :=
                  mkSensorRow (sd_Device s) (sd_Location s)
                    {[ "bluetooth" :=
                         (ShrinkMapToString ss (default ∅ (sd_Sensors s !! "bluetooth"))).1 ]}]>
              t]> (mysql env).
Proof.
  intros Hd Hf Ht Hk Hc Hs Hcur.
  unfold AddSensor, Columns, Get, Set_, prepare_insert_sensors, exec_insert_sensors.
  unfold bind, wrap, lift, ret, fail.
  erewrite sql_call_passes; [|done..]. simpl.
  erewrite sql_call_passes; [|done..]. simpl.
  erewrite sql_call_passes; [|done..]. simpl.
  rewrite Hk. simpl.
  destruct (ShrinkMapToString ss _) as [bluetooth ss'].
  erewrite sql_call_passes; [|done..]. simpl.
  assert (∀ c, c ∈ ["timestamp"; "deviceid"; "locationid"; "bluetooth"] →
               bool_decide (c ∈ sensors_columns t) = true) as Hb.
  { intros c Hin. apply bool_decide_eq_true, Hc, Hin. }
  rewrite !Hb by set_solver. simpl.
  erewrite sql_call_passes; [|done..]. simpl.
  rewrite Hs. unfold update_tables.
  rewrite decide_True by (simpl in Hcur; congruence).
  erewrite sql_call_faults; [|done..]. simpl.
  eexists _, _. split; [reflexivity|]. simpl.
  apply map_eq. intros n. destruct (decide (n = name d)) as [->|Hne].
  - by rewrite lookup_alter_eq, lookup_insert_eq, Ht.
  - by rewrite lookup_alter_ne, lookup_insert_ne.
Qed.

(** X5, witness: two new MACs on a store whose sixth driver call fails. *)
Lemma AddSensor_fails_after_insert_witness :
  ∃ e env',
    @AddSensor canonical_order (Open "home") two_macs dictionary_write_fails = (inl e, env')
    ∧ mysql env'
      = <["find3_home" :=
            set_sensors
              <[2000 :=
                  mkSensorRow "phone" "kitchen"
                    {[ "bluetooth" :=
                         (@ShrinkMapToString canonical_order (mkSizer [])
                            (default ∅ (sd_Sensors two_macs !! "bluetooth"))).1 ]}]>
              fresh_tables]> (mysql dictionary_write_fails).
Proof.
  apply (@AddSensor_fails_after_insert canonical_order (Open "home") two_macs
           dictionary_write_fails fresh_tables (mkSizer []) []);
    try reflexivity; by vm_compute.
Defined.

(** *** The id tables *)

(** X20: [GetID] and [GetName] defer the [Close] of the statement
    before they look at the error of [Prepare].  When [Prepare] fails,
    through a closed handle for one, neither returns the error: both
    panic on the nil statement, and so does [DeleteLocation], which
    calls [GetID]. *)
Theorem id_lookups_panic_when_Prepare_fails `{IdTables} (d : Database) (table key : string)
    (env : Env) (e : error) :
  (sql_call d env).1 = inl e →
  (GetID d table key env).1 = server.Panicked nil_dereference
  ∧ (GetName d table key env).1 = server.Panicked nil_dereference
  ∧ (DeleteLocation d key env).1 = server.Panicked nil_dereference.
Proof.
  intros Hprepare.
  assert (∀ table matches result,
            lookup_id_table d table matches result env
            = (server.Panicked nil_dereference, (sql_call d env).2)) as Hlookup.
  { intros. unfold lookup_id_table. by destruct (sql_call d env) as [[?|?] ?]. }
  unfold DeleteLocation, GetID, GetName. by rewrite !Hlookup.
Qed.

(** X20, witness: the closed handle of the family home. *)
Lemma id_lookups_panic_when_Prepare_fails_witness :
  (@GetID no_id_tables closed_home "devices" "phone" home_env).1
  = server.Panicked nil_dereference
  ∧ (@GetName no_id_tables closed_home "devices" "phone" home_env).1
    = server.Panicked nil_dereference
  ∧ (@DeleteLocation no_id_tables closed_home "phone" home_env).1
    = server.Panicked nil_dereference.
Proof.
  apply (@id_lookups_panic_when_Prepare_fails no_id_tables closed_home "devices" "phone"
           home_env (errors_New "sql: database is closed")).
  reflexivity.
Defined.

(** [GetMany] through a closed handle. *)
Lemma GetMany_closed `{RangeOrder} `{Destinations} d keyValues env :
  db_closed d = true →
  GetMany d keyValues env
  = (keyValues,
     Some (errors_Wrap (errors_New "sql: database is closed") "problem preparing SQL"), env).
Proof. intros Hd. unfold GetMany, wrap. by rewrite sql_call_closed. Qed.

(** X21: [GetMany] does not look at [rows.Err()].  When the driver
    fails as the first row is fetched, [GetMany] returns nil and leaves
    every destination as it was given, as if the keystore held none of
    the keys. *)
Theorem GetMany_hides_iteration_failure `{RangeOrder} `{Destinations} (d : Database)
    (keyValues : gmap string dest) (env : Env) (fs : list bool) :
  db_closed d = false → faults env = [false; false; true] ++ fs →
  is_Some (mysql env !! name d) →
  GetMany d keyValues env = (keyValues, None, set_faults fs env).
Proof.
  intros Hd Hf [t Ht]. unfold GetMany, wrap.
  erewrite sql_call_passes; [|done..].
  erewrite sql_call_passes; [|done..].
  destruct (filter _ _) as [|[id value] rows]; simpl.
  - unfold rows_Next. simpl. by destruct env.
  - unfold rows_Next. simpl. by destruct env.
Qed.

(** X21, witness: one key on a store whose third driver call fails. *)
Lemma GetMany_hides_iteration_failure_witness :
  @GetMany canonical_order string_destinations (Open "home")
    {[ "sensorDataStringSizer" := Plain "" ]} iteration_fails
  = ({[ "sensorDataStringSizer" := Plain "" ]}, None, set_faults [] iteration_fails).
Proof.
  apply (@GetMany_hides_iteration_failure canonical_order string_destinations (Open "home")
           {[ "sensorDataStringSizer" := Plain "" ]} iteration_fails []);
    [reflexivity | reflexivity | by eexists].
Defined.

End store_facts.

(** ** The server: the window record, the parse and the handlers *)
Module server_facts.
Import stringsizer database database_claims database_relations.
Import server server_claims server_relations range_facts database_proofs server_proofs.
Import database_reads database_more store_statements server_handlers server_statements.
Import store_facts.
Local Open Scope srv_scope.

(** *** The package handle after a parse *)

Lemma with_db_closed {A} (m : Database → M A) w :
  (∀ d env, db_closed d = true → ∃ e, m d env = (inl e, env)) →
  db_closed (db w) = true →
  ∃ e, with_db m w = (Returned (inl e), w).
Proof.
  intros Hm Hd. unfold with_db. destruct (Hm (db w) (env w) Hd) as [e ->].
  exists e. by rewrite set_env_id.
Qed.

Lemma Get_closed {A} d key (unmarshal : jsonval → error + A) env :
  db_closed d = true → ∃ e, Get d key unmarshal env = (inl e, env).
Proof.
  intros Hd. unfold Get, database.bind, wrap, sql_call. rewrite Hd. eauto.
Qed.

Lemma Set_closed d key value env :
  db_closed d = true → ∃ e, Set_ d key value env = (inl e, env).
Proof.
  intros Hd. unfold Set_, database.bind, wrap, sql_call. rewrite Hd. eauto.
Qed.

(** On a closed handle [handlerReverse] answers with an error, whatever
    the sample. *)
Lemma handlerReverse_closed `{RangeOrder} d w : db_closed (db w) = true → refused d w.
Proof.
  intros Hd. unfold refused, handlerReverse.
  destruct (Validate d) as [err|]; [by eexists _, _|].
  unfold bind.
  destruct (with_db_closed (λ h, Get h "ReverseRollingData" into_ReverseRollingData) w)
    as [e ->]; [intros; by apply Get_closed|done|].
  unfold time_Now, ret. simpl.
  destruct (decide (size (sd_Sensors d) = 0%nat)); [by eexists _, _|].
  match goal with
  | |- context [with_db ?m w] =>
      destruct (with_db_closed m w) as [e' ->]; [intros; by apply Set_closed|done|]
  end.
  by eexists _, _.
Qed.

(** X11: the parse closes the package handle [db].  When the first
    half of [parseRollingData] has run to its end (the record was read,
    the merge has not panicked), the handle is closed, and from then on
    [handlerReverse] answers every sample with an error and changes
    nothing. *)
Theorem parse_closes_the_package_handle `{RangeOrder} (family_ : string) (w : World) :
  isClosed (db w) = db_closed (db w) →
  flushed (flushWindow family_ w).1 = true →
  db_closed (db (flushWindow family_ w).2) = true
  ∧ ∀ d w2, db w2 = db (flushWindow family_ w).2 → refused d w2.
Proof.
  intros Hcons Hfl.
  assert (db_closed (db (flushWindow family_ w).2) = true) as Hclosed.
  { revert Hfl. unfold flushWindow, bind.
    destruct (with_db _ w) as [[[e|rollingData]|msg] w1] eqn:Hget; simpl; [done| |done].
    assert (db w1 = db w) as Hdb1.
    { unfold with_db in Hget. destruct (Get _ _ _ _). by simplify_eq. }
    unfold time_Now, ret.
    destruct (rd_HasData rollingData && _); simpl.
    - destruct (mergeDatas rollingData family_ ∅ w1) as [[sm|msg] w2] eqn:Hmerge; simpl; [|done].
      rewrite mergeDatas_flat in Hmerge. apply foldS_only_clock in Hmerge as (_ & Hdb2 & _).
      unfold with_db. destruct (Set_ _ _ _ _) as [r3 e3]. simpl.
      unfold db_Close, Close. simpl. rewrite Hdb2, Hdb1.
      destruct (isClosed (db w)) eqn:Hc; simpl; [by rewrite <- Hcons|].
      by destruct (sql_Close _ _).
    - unfold with_db. destruct (Set_ _ _ _ _) as [r3 e3]. simpl.
      unfold db_Close, Close. simpl. rewrite Hdb1.
      destruct (isClosed (db w)) eqn:Hc; simpl; [by rewrite <- Hcons|].
      by destruct (sql_Close _ _). }
  split; [done|]. intros d w2 Hdb. apply handlerReverse_closed. by rewrite Hdb.
Qed.

(** X11, witness: the flush of a window holding one sample. *)
Lemma parse_closes_the_package_handle_witness :
  db_closed (db (@flushWindow canonical_order "home" (world_with (window [scan1] 2))).2) = true
  ∧ ∀ d w2, db w2 = db (@flushWindow canonical_order "home" (world_with (window [scan1] 2))).2 →
            @refused canonical_order d w2.
Proof.
  apply (@parse_closes_the_package_handle canonical_order "home" (world_with (window [scan1] 2)));
    by vm_compute.
Defined.

(** *** The window record under [handlerReverse] *)

Lemma Get_missing {A} d env t key (unmarshal : jsonval → error + A) :
  db_closed d = false → faults env = [] → mysql env !! name d = Some t →
  keystore t !! key = None →
  Get d key unmarshal env
  = (inl (errors_Wrap (errors_New "sql: no rows in result set") "problem getting key"), env).
Proof.
  intros Hd Hf Ht Hk. unfold Get, database.bind, wrap, fail.
  repeat (rewrite (sql_call_ok d env t) by done; simpl). by rewrite Hk.
Qed.

(** X12: when the keystore holds no record, [handlerReverse] of a valid
    sample stores a record of the sample's normalized family with a
    time block of 90 s, opened now, that holds the sample alone, and
    starts the parse. *)
Theorem handlerReverse_first_sample `{RangeOrder} (d : SensorData) (w : World) (t : Tables) :
  Validate d = None →
  db_closed (db w) = false → faults (env w) = [] →
  mysql (env w) !! name (db w) = Some t → keystore t !! "ReverseRollingData" = None →
  ∃ message w',
    handlerReverse d w = (Returned (message, None), w')
    ∧ stored_record w'
      = Some (JRolling (set_HasData true
                          (set_Datas [filed d]
                             (set_Timestamp (clock w) (defaults (sd_Family (filed d)))))))
    ∧ trace w' = trace w ++ [Go_parseRollingData (sd_Family (filed d))].
Proof.
  intros Hval Hd Hf Ht Hk.
  pose proof (Validate_nonempty d Hval) as Hsz.
  unfold handlerReverse. rewrite Hval.
  unfold bind, with_db, time_Now, ret, go.
  rewrite (Get_missing _ _ t) by done. simpl.
  rewrite decide_False by done.
  rewrite (Set_ok _ _ t) by done. simpl.
  eexists _, _. split; [reflexivity|].
  unfold stored_record. simpl. rewrite lookup_alter_eq, Ht. simpl.
  by rewrite lookup_insert_eq.
Qed.

(** X12, witness: the first sample on the store of the family home. *)
Lemma handlerReverse_first_sample_witness :
  ∃ message w',
    @handlerReverse canonical_order scan1 (mkWorld home_env (Open "home") false 5 [])
    = (Returned (message, None), w')
    ∧ stored_record w'
      = Some (JRolling (set_HasData true
                          (set_Datas [filed scan1]
                             (set_Timestamp 5 (defaults (sd_Family (filed scan1)))))))
    ∧ trace w' = [] ++ [Go_parseRollingData (sd_Family (filed scan1))].
Proof.
  apply (@handlerReverse_first_sample canonical_order scan1
           (mkWorld home_env (Open "home") false 5 []) fresh_tables); reflexivity.
Defined.

(** X13: when the window is open, [handlerReverse] of a valid sample
    stores the record with the sample appended to its datas and nothing
    else changed, the opening time of the window included, and starts
    the parse. *)
Theorem handlerReverse_appends `{RangeOrder} (d : SensorData) (w : World)
    (r : ReverseRollingData) :
  Validate d = None → usable w r → rd_HasData r = true → rd_TimeBlock r ≠ 0 →
  ∃ message w',
    handlerReverse d w = (Returned (message, None), w')
    ∧ stored_record w' = Some (JRolling (set_Datas (rd_Datas r ++ [filed d]) r))
    ∧ trace w' = trace w ++ [Go_parseRollingData (sd_Family (filed d))].
Proof.
  intros Hval (Hd & Hf & Hst) Hhas Hblock.
  apply stored_record_inv in Hst as (t & Ht & Hk).
  pose proof (Validate_nonempty d Hval) as Hsz.
  unfold handlerReverse. rewrite Hval.
  unfold bind, with_db, time_Now, ret, go.
  rewrite (Get_ok _ _ t _ (JRolling r)) by done. simpl.
  apply Z.eqb_neq in Hblock. rewrite Hblock, Hhas. simpl.
  rewrite decide_False by done.
  rewrite (Set_ok _ _ t) by done. simpl.
  eexists _, _. split; [reflexivity|].
  unfold stored_record. simpl. rewrite lookup_alter_eq, Ht. simpl.
  by rewrite lookup_insert_eq.
Qed.

(** X13, witness: a second sample on a window holding one. *)
Lemma handlerReverse_appends_witness :
  ∃ message w',
    @handlerReverse canonical_order scan2 (world_with (window [scan1] 0))
    = (Returned (message, None), w')
    ∧ stored_record w'
      = Some (JRolling (set_Datas (rd_Datas (window [scan1] 0) ++ [filed scan2])
                                  (window [scan1] 0)))
    ∧ trace w' = trace (world_with (window [scan1] 0))
                 ++ [Go_parseRollingData (sd_Family (filed scan2))].
Proof.
  apply (@handlerReverse_appends canonical_order scan2 (world_with (window [scan1] 0))
           (window [scan1] 0)); [reflexivity | by vm_compute | reflexivity | by vm_compute].
Defined.

(** *** A parse that has nothing to merge *)

Lemma emitFingerprints_empty `{RangeOrder} `{Store} rollingData w :
  emitFingerprints rollingData ∅ w = (Returned tt, w).
Proof.
  unfold emitFingerprints.
  assert (range (∅ : gmap string SensorData) = []) as ->; [|done].
  apply Permutation_nil_r. rewrite (range_perm ∅). by rewrite map_to_list_empty.
Qed.

(** X14: a parse that finds no open window, or a window that is not
    older than its time block, writes the record back as it read it,
    hands nothing to [processSensorData], does not sleep, and returns
    nil. *)
Theorem parseRollingData_before_the_time_block `{RangeOrder} `{Store} (family_ : string)
    (w : World) (r : ReverseRollingData) :
  usable w r →
  rd_HasData r = false ∨ clock w - rd_Timestamp r ≤ rd_TimeBlock r →
  ∃ w', parseRollingData family_ w = (Returned None, w')
    ∧ stored_record w' = Some (JRolling r)
    ∧ trace w' = trace w ∧ clock w' = clock w.
Proof.
  intros (Hd & Hf & Hst) Hnot.
  apply stored_record_inv in Hst as (t & Ht & Hk).
  unfold parseRollingData, flushWindow, bind, with_db, time_Now, ret.
  rewrite (Get_ok _ _ t _ (JRolling r)) by done. simpl.
  assert (rd_HasData r && (rd_TimeBlock r <? clock w - rd_Timestamp r) = false) as ->.
  { destruct Hnot as [-> | Hle]; [done|].
    apply andb_false_intro2. by apply Z.ltb_ge. }
  simpl. rewrite (Set_ok _ _ t) by done. simpl.
  unfold db_Close. simpl.
  match goal with
  | |- context [Close ?d ?e] =>
      pose proof (Close_keeps d e) as [Hn Hm]; destruct (Close d e) as [[err d'] e']
  end.
  simpl in Hn, Hm. rewrite emitFingerprints_empty. simpl.
  eexists. split; [reflexivity|]. split; [|done].
  unfold stored_record. simpl. rewrite Hn, Hm.
  rewrite lookup_alter_eq, Ht. simpl. by rewrite lookup_insert_eq.
Qed.

(** X14, witness: a window opened 50 s ago. *)
Lemma parseRollingData_before_the_time_block_witness :
  ∃ w', @parseRollingData canonical_order (@given_handle_store canonical_order) "home"
          (world_with young_window) = (Returned None, w')
    ∧ stored_record w' = Some (JRolling young_window)
    ∧ trace w' = trace (world_with young_window)
    ∧ clock w' = clock (world_with young_window).
Proof.
  apply (@parseRollingData_before_the_time_block canonical_order
           (@given_handle_store canonical_order) "home" (world_with young_window)
           young_window); [by vm_compute|].
  right. vm_compute. discriminate.
Defined.

(** X15: when the keystore holds no record, [parseRollingData] returns
    the error of the read and does nothing else: nothing is written and
    the handle stays open. *)
Theorem parseRollingData_without_record `{RangeOrder} `{Store} (family_ : string) (w : World)
    (t : Tables) :
  db_closed (db w) = false → faults (env w) = [] →
  mysql (env w) !! name (db w) = Some t → keystore t !! "ReverseRollingData" = None →
  parseRollingData family_ w
  = (Returned (Some (errors_Wrap (errors_New "sql: no rows in result set")
                       "problem getting key")), w).
Proof.
  intros Hd Hf Ht Hk.
  unfold parseRollingData, flushWindow, bind, with_db, ret.
  rewrite (Get_missing _ _ t) by done. simpl. by rewrite set_env_id.
Qed.

(** X15, witness: the store of the family home, which holds no record. *)
Lemma parseRollingData_without_record_witness :
  @parseRollingData canonical_order (@given_handle_store canonical_order) "home"
    (mkWorld home_env (Open "home") false 5 [])
  = (Returned (Some (errors_Wrap (errors_New "sql: no rows in result set")
                       "problem getting key")),
     mkWorld home_env (Open "home") false 5 []).
Proof.
  apply (@parseRollingData_without_record canonical_order (@given_handle_store canonical_order)
           "home" (mkWorld home_env (Open "home") false 5 []) fresh_tables); reflexivity.
Defined.

(** *** The clock during the merge *)

(** One observation either updates a fingerprint, which keeps its
    timestamp, or creates one stamped with the clock and sleeps 10 ms. *)
Lemma merge_obs_clock rd fam o sm w sm' w' :
  merge_obs rd fam o sm w = (Returned sm', w') →
  (∃ tr tr', sm !! o_name o = Some tr ∧ sm' = <[o_name o := tr']> sm
             ∧ sd_Timestamp tr' = sd_Timestamp tr ∧ clock w' = clock w)
  ∨ (sm !! o_name o = None
     ∧ ∃ tr', sm' = <[o_name o := tr']> sm
              ∧ sd_Timestamp tr' = Z.quot (clock w) time_Millisecond
              ∧ clock w' = clock w + 10 * time_Millisecond).
Proof.
  unfold merge_obs, mergeObservation, o_name, tracked_name, bind, ret, panic,
    time_Now, time_Sleep.
  destruct (sm !! _) as [tr|] eqn:Hsm; simpl.
  - rewrite Hsm. simpl. destruct (sd_Sensors tr !! o_c o) as [inner|]; simpl; [|done].
    intros [= <- <-]. left. exists tr. eexists. by split_and!.
  - rewrite lookup_insert_eq. simpl. rewrite lookup_singleton_eq. simpl.
    intros [= <- <-]. right. split; [done|]. eexists. split; [by rewrite insert_insert_eq|].
    done.
Qed.

Lemma quot_ms c k :
  0 ≤ c → 0 ≤ k →
  Z.quot (c + 10 * time_Millisecond * k) time_Millisecond
  = Z.quot c time_Millisecond + 10 * k.
Proof.
  intros Hc Hk. unfold time_Millisecond.
  rewrite !Z.quot_div_nonneg by lia.
  replace (c + 10 * 1000000 * k) with (c + (10 * k) * 1000000) by lia.
  by rewrite Z.div_add by lia.
Qed.

Lemma merge_timing_step c0 rd fam o sm w sm' w' :
  0 ≤ c0 → merge_timing c0 sm (clock w) →
  merge_obs rd fam o sm w = (Returned sm', w') →
  merge_timing c0 sm' (clock w').
Proof.
  intros Hc0 (Hc & Hts & Hinj) Hrun.
  apply merge_obs_clock in Hrun
    as [(tr & tr' & Hsm & -> & Ht & Hclk)|(Hsm & tr' & -> & Ht & Hclk)].
  - assert (size (<[o_name o := tr']> sm) = size sm) as Hsz.
    { apply map_size_insert_Some. by eexists. }
    split_and!.
    + by rewrite Hsz, Hclk.
    + intros n x. rewrite Hclk. destruct (decide (n = o_name o)) as [->|Hne].
      * rewrite lookup_insert_eq. intros [= <-]. rewrite Ht. by apply (Hts (o_name o)).
      * rewrite lookup_insert_ne by done. apply Hts.
    + assert (∀ n x, <[o_name o := tr']> sm !! n = Some x →
                     ∃ y, sm !! n = Some y ∧ sd_Timestamp y = sd_Timestamp x) as Hback.
      { intros n x. destruct (decide (n = o_name o)) as [->|Hne].
        - rewrite lookup_insert_eq. intros [= <-]. eauto.
        - rewrite lookup_insert_ne by done. eauto. }
      intros n1 n2 x1 x2 H1 H2 Heq.
      apply Hback in H1 as (y1 & H1 & E1). apply Hback in H2 as (y2 & H2 & E2).
      apply (Hinj n1 n2 y1 y2 H1 H2). congruence.
  - assert (sd_Timestamp tr' = Z.quot c0 time_Millisecond + 10 * Z.of_nat (size sm)) as Hnew.
    { rewrite Ht, Hc. apply quot_ms; lia. }
    assert (Z.quot (clock w) time_Millisecond
            = Z.quot c0 time_Millisecond + 10 * Z.of_nat (size sm)) as Hq.
    { rewrite Hc. apply quot_ms; lia. }
    assert (Z.quot (clock w') time_Millisecond
            = Z.quot c0 time_Millisecond + 10 * (Z.of_nat (size sm) + 1)) as Hq'.
    { rewrite Hclk, Hc.
      replace (c0 + 10 * time_Millisecond * Z.of_nat (size sm) + 10 * time_Millisecond)
        with (c0 + 10 * time_Millisecond * (Z.of_nat (size sm) + 1)) by lia.
      apply quot_ms; lia. }
    split_and!.
    + rewrite map_size_insert_None by done. rewrite Hclk, Hc. lia.
    + intros n x. destruct (decide (n = o_name o)) as [->|Hne].
      * rewrite lookup_insert_eq. intros [= <-]. rewrite Hq', Hnew. lia.
      * rewrite lookup_insert_ne by done. intros Hx. apply Hts in Hx. lia.
    + intros n1 n2 x1 x2.
      destruct (decide (n1 = o_name o)) as [->|Hne1], (decide (n2 = o_name o)) as [->|Hne2];
        rewrite ?lookup_insert_eq, ?lookup_insert_ne by done; try done.
      * intros [= <-] Hx Heq. apply Hts in Hx. lia.
      * intros Hx [= <-] Heq. apply Hts in Hx. lia.
      * apply Hinj.
Qed.

Lemma merge_timing_run c0 rd fam l : ∀ sm w sm' w',
  0 ≤ c0 → merge_timing c0 sm (clock w) →
  foldS (merge_obs rd fam) l sm w = (Returned sm', w') →
  merge_timing c0 sm' (clock w').
Proof.
  induction l as [|o l IH]; intros sm w sm' w' Hc0 Hinv; simpl.
  - by intros [= <- <-].
  - unfold bind. destruct (merge_obs rd fam o sm w) as [[sm1|msg] w1] eqn:Hstep; [|done].
    intros Hrun. eapply IH; [done| |done]. by eapply merge_timing_step.
Qed.

(** X16: a merge that returns has slept 10 ms for each fingerprint it
    has made, and the fingerprints carry pairwise different timestamps,
    none earlier than the start of the merge and all earlier than its
    end. *)
Theorem mergeDatas_timing `{RangeOrder} (rollingData : ReverseRollingData) (family_ : string)
    (w : World) (sensorMap : gmap string SensorData) (w' : World) :
  0 ≤ clock w →
  mergeDatas rollingData family_ ∅ w = (Returned sensorMap, w') →
  merge_timing (clock w) sensorMap (clock w').
Proof.
  intros Hc Hrun. rewrite mergeDatas_flat in Hrun.
  eapply merge_timing_run; [done| |done].
  unfold merge_timing. rewrite map_size_empty. split_and!.
  - lia.
  - intros n tr Hn. by rewrite lookup_empty in Hn.
  - intros n1 n2 tr1 tr2 Hn. by rewrite lookup_empty in Hn.
Qed.

(** X16, witness: the two scanners of the passive-transpose scenario. *)
Lemma mergeDatas_timing_witness :
  ∃ sensorMap w',
    @mergeDatas canonical_order (window [scan1; scan2] 0) "home" ∅
      (world_with (window [scan1; scan2] 0)) = (Returned sensorMap, w')
    ∧ merge_timing (clock (world_with (window [scan1; scan2] 0))) sensorMap (clock w').
Proof.
  eexists _, _. split; [vm_compute; reflexivity|].
  apply (@mergeDatas_timing canonical_order (window [scan1; scan2] 0) "home"
           (world_with (window [scan1; scan2] 0))); [by vm_compute|].
  vm_compute. reflexivity.
Defined.

(** *** The filter of the second loop *)

(** X17: when every merged fingerprint has fewer points than
    [MinimumPassive], the second loop of [parseRollingData] hands none
    of them to [processSensorData]: it returns and the process is as it
    was. *)
Theorem emitFingerprints_drops_all_below `{RangeOrder} `{Store}
    (rollingData : ReverseRollingData) (sensorMap : gmap string SensorData) (w : World) :
  (∀ n p, sensorMap !! n = Some p →
          numFingerprints (sd_Sensors p) < rd_MinimumPassive rollingData) →
  emitFingerprints rollingData sensorMap w = (Returned tt, w).
Proof.
  intros Hbelow. unfold emitFingerprints.
  assert (∀ n p, (n, p) ∈ range sensorMap →
                 (numFingerprints (sd_Sensors p) <? rd_MinimumPassive rollingData) = true) as Hl.
  { intros n p Hin%elem_of_range. apply Z.ltb_lt. by apply (Hbelow n). }
  induction (range sensorMap) as [|[n p] l IH]; [done|]. simpl. unfold bind.
  rewrite (Hl n p) by left. simpl. apply IH. intros n' p' Hin. apply (Hl n'). by right.
Qed.

(** X17, witness: one fingerprint with one point under a minimum of two. *)
Lemma emitFingerprints_drops_all_below_witness :
  @emitFingerprints canonical_order (@given_handle_store canonical_order)
    (window [scan1] 2) {[ "bluetooth-aa:bb" := scan1 ]} (world_with (window [scan1] 2))
  = (Returned tt, world_with (window [scan1] 2)).
Proof.
  apply (@emitFingerprints_drops_all_below canonical_order
           (@given_handle_store canonical_order)).
  intros n p [<- <-]%lookup_singleton_Some. by vm_compute.
Defined.

(** *** What the delivery sends, and where *)

(** X18: [sendOutData] changes nothing of the process but what it
    sends.  Either it returns an error and sends nothing, or it returns
    nil and has handed one document to the websockets of the device and
    of [all], and to MQTT if that is in use, under the normalized
    family; the document carries the family as it was given, the
    device, the readings, the guesses, the location of the first guess
    and the timestamp. *)
Theorem sendOutData_routes `{Classifier} (p : SensorData) (w : World) :
  ∃ err sent,
    sendOutData p w
    = (Returned ((api_AnalyzeSensorData p (db w) (env w)).1, err),
       mkWorld (env w) (db w) (UseMQTT w) (clock w) (trace w ++ sent))
    ∧ ((is_Some err ∧ sent = [])
       ∨ (err = None
          ∧ ∃ bTarget,
              sent = sinks w (TrimSpace (ToLower (sd_Family p))) (sd_Device p) bTarget
              ∧ sd_Family (pl_Sensors bTarget) = sd_Family p
              ∧ sd_Device (pl_Sensors bTarget) = sd_Device p
              ∧ sd_Sensors (pl_Sensors bTarget) = sd_Sensors p
              ∧ pl_Time bTarget = sd_Timestamp p
              ∧ pl_Guesses bTarget = Guesses (api_AnalyzeSensorData p (db w) (env w)).1
              ∧ Some (pl_Location bTarget)
                = lp_Location <$> head (Guesses (api_AnalyzeSensorData p (db w) (env w)).1))).
Proof.
  unfold sendOutData.
  destruct (api_AnalyzeSensorData p (db w) (env w)) as [analysis aerr]. simpl.
  destruct (Guesses analysis) as [|guess0 guesses] eqn:Hg.
  { eexists _, []. rewrite app_nil_r. split; [by destruct w|]. left. by split; [eexists|]. }
  destruct (api_GetGPSData (sd_Family p) (env w)) as [gpsData gerr].
  match goal with
  | |- context [json_Marshal ?pl] => destruct (json_Marshal pl) as [e|bTarget] eqn:Hm
  end.
  { eexists _, []. rewrite app_nil_r. split; [by destruct w|]. left. by split; [eexists|]. }
  assert (∃ q, bTarget = mkPayload q (guess0 :: guesses) (lp_Location guess0) (sd_Timestamp p)
               ∧ sd_Family q = sd_Family p ∧ sd_Device q = sd_Device p
               ∧ sd_Sensors q = sd_Sensors p) as (q & -> & Hf & Hdev & Hs).
  { unfold json_Marshal in Hm.
    destruct (_ && _) in Hm; [|done]. simplify_eq.
    destruct gerr, (gpsData !! lp_Location guess0); by eexists. }
  exists None. eexists. split.
  - unfold emit. simpl.
    instantiate (1 := sinks w (TrimSpace (ToLower (sd_Family p))) (sd_Device p) _).
    unfold sinks.
    destruct gerr, (gpsData !! lp_Location guess0), (UseMQTT w) eqn:Hu; simpl;
      rewrite ?Hu; simpl; by rewrite <- ?app_assoc.
  - right. split; [done|]. eexists. split; [reflexivity|]. by split_and!.
Qed.

(** *** [handlerLearn] *)

(** X19: [handlerLearn] calls the store once for a body that was
    bound and not at all otherwise, starts no delivery, does not panic,
    and answers with success, and the message "inserted data", exactly
    when the save has succeeded. *)
Theorem handlerLearn_saves_and_never_delivers `{Store} (bound : error + SensorData)
    (w : World) :
  ∃ a w',
    handlerLearn bound w = (Returned a, w')
    ∧ trace w' = trace w ++ match bound with inr s => [SaveCalled s] | inl _ => [] end
    ∧ (success a = true
       ↔ ∃ s, bound = inr s ∧ (api_SaveSensorData s (db w) (env w)).1 = None)
    ∧ (success a = true → message a = "inserted data").
Proof.
  unfold handlerLearn, bind. destruct bound as [e|s]; simpl.
  - eexists _, _. split; [reflexivity|]. rewrite app_nil_r. split_and!; [done| |done].
    split; [done|]. by intros (s & ? & _).
  - unfold processSensorData, bind, ret.
    destruct (api_SaveSensorData s (db w) (env w)) as [[e|] env1] eqn:Hsave; simpl.
    + eexists _, _. split; [reflexivity|]. split_and!; [done| |done].
      split; [done|]. intros (s' & [= <-] & Hs). by rewrite Hsave in Hs.
    + eexists _, _. split; [reflexivity|]. split_and!; [done| |done].
      split; [|done]. intros _. exists s. by rewrite Hsave.
Qed.

(** *** [handlerEfficacy] *)

(** X22: [handlerEfficacy] never reports the error of [GetMany]: it
    always answers with success, the message "got stats" and the
    destinations as [GetMany] has left them.  Through a closed handle
    [GetMany] fails, and the answer is a success with the zero values. *)
Theorem handlerEfficacy_reports_no_error `{RangeOrder} `{Destinations} (w : World) :
  handlerEfficacy w
  = (Returned (mkEfficacyAnswer "got stats" true
                 (Some (GetMany (db w) efficacy_keyValues (env w)).1.1)),
     set_env (GetMany (db w) efficacy_keyValues (env w)).2 w)
  ∧ (db_closed (db w) = true →
     is_Some (GetMany (db w) efficacy_keyValues (env w)).1.2
     ∧ handlerEfficacy w
       = (Returned (mkEfficacyAnswer "got stats" true (Some efficacy_keyValues)), w)).
Proof.
  assert (handlerEfficacy w
          = (Returned (mkEfficacyAnswer "got stats" true
                         (Some (GetMany (db w) efficacy_keyValues (env w)).1.1)),
             set_env (GetMany (db w) efficacy_keyValues (env w)).2 w)) as Hrun.
  { unfold handlerEfficacy.
    by destruct (GetMany (db w) efficacy_keyValues (env w)) as [[efficacy err] e]. }
  split; [done|]. intros Hd. rewrite Hrun.
  rewrite (GetMany_closed (db w) efficacy_keyValues (env w) Hd). simpl.
  split; [by eexists|]. by rewrite set_env_id.
Qed.

End server_facts.
